(** * BRMesh bridge: debounced light commands and UDP sound sync

    A shallow embedding of the ESPHome components of the bridge:
    - [FastconLight] ([fastcon_light_optimized.cpp]/[.h]): the debounced,
      de-duplicated command queue of one light;
    - [MusicReactiveEffectUDP] ([music_reactive.h]) and [MusicReactiveEffect]
      ([fft_analyzer.h]): band levels, the 24-byte sync packet, colour mapping,
      the slave loop and the link status;
    - [BRMeshPairing] ([brmesh_pairing.h]): the list of paired lights and
      its copy in flash.

    Unsigned 32-bit counters are integers with the wrap-around written out;
    bytes are integers in [0, 256); [float] and [double] values are IEEE 754
    binary32 and binary64 numbers over [spec_float], rounded to nearest even. *)

From Stdlib Require Import ZArith QArith Qabs Qround Qpower Lqa.
From Stdlib Require Import List Sorted Bool Lia String.
From Stdlib Require Import DecimalString DecimalNat.
From Stdlib Require Import Floats.SpecFloat.
Import ListNotations.
Open Scope Z_scope.

(** ** Machine words *)

Module Word.

(** [uint32_t] and, on the ESP32, [unsigned long]. *)
Definition wrap32 (z : Z) : Z := z mod 2 ^ 32.

Definition sub32 (a b : Z) : Z := wrap32 (a - b).

Definition add32 (a b : Z) : Z := wrap32 (a + b).

(** [uint8_t]. *)
Definition wrap8 (z : Z) : Z := z mod 2 ^ 8.

End Word.

(** ** IEEE 754 arithmetic of the target

    [float] is binary32 (24 bits of precision, [emax] 128) and [double] is
    binary64 (53, 1024).  Values are [spec_float]s; every operation rounds to
    nearest, ties to even, through the Standard Library's [binary_round]. *)

Module Ieee.

(** The exact value of a finite number (0 for infinities and NaN). *)
Definition to_Q (x : spec_float) : Q :=
  match x with
  | S754_finite s m e => (inject_Z (cond_Zopp s (Zpos m)) * 2 ^ e)%Q
  | _ => 0%Q
  end.

Definition is_nan (x : spec_float) : bool :=
  match x with S754_nan => true | _ => false end.

Definition is_finite (x : spec_float) : bool :=
  match x with S754_zero _ | S754_finite _ _ _ => true | _ => false end.

(** Conversion of a value into a format: exact when the value is one of the
    format's numbers, as from [float] to [double]. *)
Definition round_to (prec emax : Z) (x : spec_float) : spec_float :=
  match x with
  | S754_finite s m e => binary_round prec emax s m e
  | _ => x
  end.

Definition to_double : spec_float -> spec_float := round_to 53 1024.

Definition to_float : spec_float -> spec_float := round_to 24 128.

(** Integers converted to [double]. *)
Definition double_of_Z (n : Z) : spec_float := binary_normalize 53 1024 n 0 false.

(** The decimal literal [num/den] read as a [double], and the same literal
    stored in a [float]. *)
Definition double_lit (num : Z) (den : positive) : spec_float :=
  SFdiv 53 1024 (double_of_Z num) (double_of_Z (Zpos den)).

Definition float_lit (num : Z) (den : positive) : spec_float :=
  to_float (double_lit num den).

Definition dadd : spec_float -> spec_float -> spec_float := SFadd 53 1024.

Definition dsub : spec_float -> spec_float -> spec_float := SFsub 53 1024.

Definition dmul : spec_float -> spec_float -> spec_float := SFmul 53 1024.

Definition ddiv : spec_float -> spec_float -> spec_float := SFdiv 53 1024.

Definition fadd : spec_float -> spec_float -> spec_float := SFadd 24 128.

Definition fsub : spec_float -> spec_float -> spec_float := SFsub 24 128.

Definition fmul : spec_float -> spec_float -> spec_float := SFmul 24 128.

(** [fabs]. *)
Definition dabs : spec_float -> spec_float := SFabs.

(** [fmod] on doubles: the remainder of the truncated quotient, which is
    always one of the format's numbers and has the sign of [x]. *)
Definition dfmod (x y : spec_float) : spec_float :=
  match x, y with
  | S754_nan, _ | _, S754_nan => S754_nan
  | S754_infinity _, _ => S754_nan
  | _, S754_zero _ => S754_nan
  | S754_zero _, _ => x
  | _, S754_infinity _ => x
  | S754_finite sx mx ex, S754_finite sy my ey =>
      let e0 := Z.min ex ey in
      let a := Zpos mx * 2 ^ (ex - e0) in
      let b := Zpos my * 2 ^ (ey - e0) in
      binary_normalize 53 1024 (cond_Zopp sx (a mod b)) e0 sx
  end.

(** Comparison of the values; [None] when one side is NaN. *)
Definition compare (x y : spec_float) : option comparison :=
  match x, y with
  | S754_nan, _ | _, S754_nan => None
  | S754_infinity sx, S754_infinity sy =>
      Some match sx, sy with
           | true, false => Lt
           | false, true => Gt
           | _, _ => Eq
           end
  | S754_infinity s, _ => Some (if s then Lt else Gt)
  | _, S754_infinity s => Some (if s then Gt else Lt)
  | _, _ => Some (to_Q x ?= to_Q y)%Q
  end.

(** [x < y], [x > y] and [x == y] of C. *)
Definition lt (x y : spec_float) : bool :=
  match compare x y with Some Lt => true | _ => false end.

Definition gt (x y : spec_float) : bool := lt y x.

Definition eqb (x y : spec_float) : bool :=
  match compare x y with Some Eq => true | _ => false end.

(** Conversion to an integer type truncates toward zero; nothing is defined
    for NaN and the infinities. *)
Definition trunc (x : spec_float) : option Z :=
  match x with
  | S754_zero _ => Some 0
  | S754_finite s m e => Some (cond_Zopp s (Z.shiftl (Zpos m) e))
  | _ => None
  end.

(** [(uint8_t)x].  C++ defines the result only when the truncated value is
    in [0, 255]; outside that range the model keeps the low eight bits, and
    gives 0 for NaN and the infinities. *)
Definition to_uint8 (x : spec_float) : Z :=
  match trunc x with Some z => Word.wrap8 z | None => 0 end.

(** Conversion to [unsigned long], with the same proviso. *)
Definition to_uint32 (x : spec_float) : Z :=
  match trunc x with Some z => Word.wrap32 z | None => 0 end.

(** [(int)x]: [None] where C++ leaves the conversion undefined. *)
Definition to_int (x : spec_float) : option Z :=
  match trunc x with
  | Some z => if (- 2 ^ 31 <=? z) && (z <? 2 ^ 31) then Some z else None
  | None => None
  end.

(** Arduino's [constrain(amt, low, high)] macro,
    [((amt)<(low)?(low):((amt)>(high)?(high):(amt)))], on doubles. *)
Definition constrain (amt low high : spec_float) : spec_float :=
  if lt amt low then low else if gt amt high then high else amt.

(** [max(a, b)] on floats, as [std::max]: [(a < b) ? b : a]. *)
Definition fmax (a b : spec_float) : spec_float :=
  if lt a b then b else a.

(** [x] is one of the numbers of the format: a zero, or a finite number in
    canonical form. *)
Definition is_float (x : spec_float) : bool :=
  is_finite x && valid_binary 24 128 x.

(** A level in range: one of binary32's numbers, with value in [0, 1]. *)
Definition in_unit (x : spec_float) : Prop :=
  is_float x = true /\ (0 <= to_Q x <= 1)%Q.

(** The magnitude of [x] is at most [2 ^ J], and [x] is finite. *)
Definition mag_le (J : Z) (x : spec_float) : Prop :=
  match x with
  | S754_zero _ => True
  | S754_finite _ m e => Zpos m <= 2 ^ (J - e)
  | _ => False
  end.

(** A magnitude spectrum as the FFT of a frame leaves it: finite numbers.
    A frame of 256 samples in [-1, 1] gives magnitudes of at most 256; the
    bound asked for here is 2^32. *)
Definition bounded_spectrum (spectrum : list spec_float) : Prop :=
  Forall (fun x => is_finite x = true /\ (Qabs (to_Q x) <= 2 ^ 32)%Q) spectrum.

(** A sensitivity in [0, 10]. *)
Definition sensitivity_in_range (x : spec_float) : Prop :=
  is_finite x = true /\ (0 <= to_Q x <= 10)%Q.

End Ieee.

(** ** FastconLight: debounce and de-duplication *)

Module FastconLight.
Import Word.

Definition payload := list Z.

Definition payload_eq_dec : forall a b : payload, {a = b} + {a <> b} :=
  list_eq_dec Z.eq_dec.

Definition DEBOUNCE_MS : Z := 100.

Definition MIN_INTERVAL_MS : Z := 300.

Record t : Type := mk {
  light_id_ : Z;
  last_sent_data_ : payload;
  pending_data_ : payload;
  last_state_change_ : Z;
  last_command_sent_ : Z;
  has_pending_command_ : bool
}.

(** The field initialisers of the class declaration. *)
Definition create (light_id : Z) : t :=
  mk light_id [] [] 0 0 false.

(** Calls made on the controller. *)
Inductive effect : Type :=
| QueueCommand (light_id : Z) (data : payload).

(** [FastconLight::loop], with [now] the value read from [millis()]. *)
Definition loop (l : t) (now : Z) : t * list effect :=
  if negb (has_pending_command_ l) then (l, [])
  else
    let time_since_change := sub32 now (last_state_change_ l) in
    if time_since_change <? DEBOUNCE_MS then (l, [])
    else
      let time_since_sent := sub32 now (last_command_sent_ l) in
      if time_since_sent <? MIN_INTERVAL_MS then (l, [])
      else if payload_eq_dec (pending_data_ l) (last_sent_data_ l) then
        (mk (light_id_ l) (last_sent_data_ l) (pending_data_ l)
            (last_state_change_ l) (last_command_sent_ l) false, [])
      else
        (mk (light_id_ l) (pending_data_ l) (pending_data_ l)
            (last_state_change_ l) now false,
         [QueueCommand (light_id_ l) (pending_data_ l)]).

(** [FastconLight::write_state]; [adv_data] is the advertisement payload the
    controller built for the new state, [now] the value of [millis()]. *)
Definition write_state (l : t) (adv_data : payload) (now : Z) : t :=
  mk (light_id_ l) (last_sent_data_ l) adv_data now
     (last_command_sent_ l) true.

(** Successive calls of [loop], one per reading of the clock. *)
Fixpoint run_loop (l : t) (ticks : list Z) : t * list effect :=
  match ticks with
  | [] => (l, [])
  | now :: rest =>
      let '(l1, sent1) := loop l now in
      let '(l2, sent2) := run_loop l1 rest in
      (l2, sent1 ++ sent2)
  end.

(** Both waiting periods are over at [now]. *)
Definition windows_ok (l : t) (now : Z) : bool :=
  (DEBOUNCE_MS <=? sub32 now (last_state_change_ l)) &&
  (MIN_INTERVAL_MS <=? sub32 now (last_command_sent_ l)).

End FastconLight.

(** *** Sequences of calls on a light *)

Module FastconSchedule.
Import Word FastconLight.

(** What the framework calls on a light. *)
Inductive call : Type :=
| WriteState (adv_data : payload)
| Loop.

(** One call, made at [time] milliseconds since start; [millis()] gives the
    time reduced to 32 bits. *)
Definition step (l : t) (c : Z * call) : t * list effect :=
  match snd c with
  | WriteState adv_data => (write_state l adv_data (wrap32 (fst c)), [])
  | Loop => loop l (wrap32 (fst c))
  end.

(** The state after a sequence of calls. *)
Fixpoint after (l : t) (calls : list (Z * call)) : t :=
  match calls with
  | [] => l
  | c :: rest => after (fst (step l c)) rest
  end.

(** The commands queued over a sequence of calls, each with the time of the
    call that queued it. *)
Fixpoint sent (l : t) (calls : list (Z * call)) : list (Z * payload) :=
  match calls with
  | [] => []
  | c :: rest =>
      map (fun e => match e with QueueCommand _ data => (fst c, data) end)
          (snd (step l c))
      ++ sent (fst (step l c)) rest
  end.

(** The payload of the last [WriteState] of a sequence, if there is one. *)
Fixpoint last_written (calls : list (Z * call)) : option payload :=
  match calls with
  | [] => None
  | (_, WriteState d) :: rest =>
      match last_written rest with Some d' => Some d' | None => Some d end
  | (_, Loop) :: rest => last_written rest
  end.

(** Every call of [loop] comes less than [DEBOUNCE_MS] after the latest call
    of [write_state]; [tw] is the time of the latest one so far. *)
Fixpoint changing (tw : Z) (calls : list (Z * call)) : Prop :=
  match calls with
  | [] => True
  | (time, WriteState _) :: rest => changing time rest
  | (time, Loop) :: rest =>
      sub32 (wrap32 time) (wrap32 tw) < DEBOUNCE_MS /\ changing tw rest
  end.

End FastconSchedule.

(** ** Code shared by the two music effects

    [analyze_frequencies], [hsv_to_rgb] and the payload of the colour command
    are written out twice in the repository, with the same text in
    [fft_analyzer.h] and in [music_reactive.h]. *)

Module Audio.
Import Word Ieee.

Definition SAMPLES : Z := 256.

(** [0.0] stored in a [float]. *)
Definition fzero : spec_float := S754_zero false.

(** [for (int i = first; i <= last; i++) level += vReal[i];] over the
    [count] bins from [first] on, with [level] a [float] and [vReal] an array
    of [double]: each sum is taken in [double] and stored back into the
    [float]. *)
Definition accumulate (vReal : list spec_float) (first count : nat)
    (level : spec_float) : spec_float :=
  fold_left
    (fun acc i => to_float (dadd (to_double acc) (nth i vReal (S754_zero false))))
    (seq first count) level.

(** [level = 0.0; for (...) level += vReal[i]; level /= n;] *)
Definition band_average (vReal : list spec_float) (first count : nat) (n : Z)
    : spec_float :=
  to_float (ddiv (to_double (accumulate vReal first count fzero)) (double_of_Z n)).

(** [level = constrain(level, 0.0, 1.0);] *)
Definition clamp_level (level : spec_float) : spec_float :=
  to_float (constrain (to_double level) (double_of_Z 0) (double_of_Z 1)).

(** [(uint8_t)(level * k)] with [k] a [double] literal. *)
Definition scale_to_byte (level : spec_float) (k : Z) : Z :=
  to_uint8 (dmul (to_double level) (double_of_Z k)).

(** [hsv_to_rgb(h, s, v, r, g, b)]; the three bytes written through the
    references are the result. *)
Definition hsv_to_rgb (h s v : spec_float) : Z * Z * Z :=
  let c := fmul v s in
  let x :=
    to_float
      (dmul (to_double c)
         (dsub (double_of_Z 1)
            (dabs (dsub (dfmod (dmul (to_double h) (double_of_Z 6)) (double_of_Z 2))
                        (double_of_Z 1))))) in
  let m := fsub v c in
  let '(r_prime, g_prime, b_prime) :=
    if lt (to_double h) (double_lit 166 1000) then (c, x, fzero)
    else if lt (to_double h) (double_lit 333 1000) then (x, c, fzero)
    else if lt (to_double h) (double_lit 5 10) then (fzero, c, x)
    else if lt (to_double h) (double_lit 666 1000) then (fzero, x, c)
    else if lt (to_double h) (double_lit 833 1000) then (x, fzero, c)
    else (c, fzero, x) in
  (scale_to_byte (fadd r_prime m) 255,
   scale_to_byte (fadd g_prime m) 255,
   scale_to_byte (fadd b_prime m) 255).

(** The hue chosen by the "Rainbow Cycle" branch and the call it makes. *)
Definition rainbow (bass_level mid_level treble_level : spec_float) : Z * Z * Z :=
  let max_level := fmax bass_level (fmax mid_level treble_level) in
  let hue :=
    if eqb max_level bass_level then float_lit 0 1
    else if eqb max_level mid_level then float_lit 33 100
    else float_lit 66 100 in
  hsv_to_rgb hue (float_lit 1 1) max_level.

(** The "Bass Pulse" branch. *)
Definition bass_pulse (bass_level mid_level treble_level : spec_float) : Z * Z * Z :=
  if gt (to_double bass_level) (double_lit 6 10) then (255, 0, 0)
  else (scale_to_byte bass_level 100,
        scale_to_byte mid_level 50,
        scale_to_byte treble_level 150).

(** The 12-byte BRMesh colour command. *)
Definition color_payload (target_addr : Z * Z) (rgb : Z * Z * Z) : list Z :=
  let '(r, g, b) := rgb in
  [0x93; fst target_addr; snd target_addr; 0x04; 0xff; r; g; b; 0; 0; 0; 0].

(** Two colours that differ by at most one unit in each channel. *)
Definition approx_rgb (c target : Z * Z * Z) : Prop :=
  let '(r, g, b) := c in
  let '(r', g', b') := target in
  Z.abs (r - r') <= 1 /\ Z.abs (g - g') <= 1 /\ Z.abs (b - b') <= 1.

End Audio.

(** ** MusicReactiveEffect ([fft_analyzer.h]) *)

Module MusicReactiveEffect.
Import Word Ieee Audio.

Record t : Type := mk {
  vReal : list spec_float;
  bass_level : spec_float;
  mid_level : spec_float;
  treble_level : spec_float;
  sensitivity : spec_float;
  update_rate : spec_float;
  running : bool;
  color_mode : string;
  target_addr : Z * Z;
  last_update : Z
}.

(** [analyze_frequencies].  The three calls into the arduinoFFT library leave
    the magnitude spectrum of the sampled frame in [vReal]; [spectrum] is that
    array. *)
Definition analyze_frequencies (s : t) (spectrum : list spec_float) : t :=
  let bass := fmul (band_average spectrum 1 6 6) (sensitivity s) in
  let mid := fmul (band_average spectrum 6 18 18) (sensitivity s) in
  let treble := fmul (band_average spectrum 23 71 71) (sensitivity s) in
  mk spectrum (clamp_level bass) (clamp_level mid) (clamp_level treble)
     (sensitivity s) (update_rate s) (running s) (color_mode s)
     (target_addr s) (last_update s).

(** The colour computed by [send_color_command], by mode. *)
Definition color_rgb (s : t) : Z * Z * Z :=
  if String.eqb (color_mode s) "RGB Frequency" then
    (scale_to_byte (bass_level s) 255,
     scale_to_byte (mid_level s) 255,
     scale_to_byte (treble_level s) 255)
  else if String.eqb (color_mode s) "Amplitude" then
    let total :=
      to_float (ddiv (to_double (fadd (fadd (bass_level s) (mid_level s))
                                      (treble_level s)))
                     (double_of_Z 3)) in
    let v := scale_to_byte total 255 in (v, v, v)
  else if String.eqb (color_mode s) "Rainbow Cycle" then
    rainbow (bass_level s) (mid_level s) (treble_level s)
  else if String.eqb (color_mode s) "Bass Pulse" then
    bass_pulse (bass_level s) (mid_level s) (treble_level s)
  else (0, 0, 0).

(** [send_color_command]: the payload handed to [send_mesh_command], which
    in this class only logs it. *)
Definition send_color_command (s : t) : list Z :=
  color_payload (target_addr s) (color_rgb s).

End MusicReactiveEffect.

(** ** The sync packet ([music_reactive.h]) *)

Module AudioSyncPacket.

Record t : Type := mk {
  header : Z * Z;
  volume : Z;
  bass : Z;
  mid : Z;
  treble : Z;
  fft_bins : list Z
}.

(** The struct holds bytes only, so its 24 bytes are its fields in order. *)
Definition to_bytes (p : t) : list Z :=
  [fst (header p); snd (header p); volume p; bass p; mid p; treble p]
  ++ firstn 18 (fft_bins p ++ repeat 0 18).

(** [udp.read] into the packet, [sizeof(AudioSyncPacket)] bytes: the first
    24 bytes of the datagram, laid over the struct. *)
Definition of_bytes (buf : list Z) : t :=
  mk (nth 0 buf 0, nth 1 buf 0) (nth 2 buf 0) (nth 3 buf 0) (nth 4 buf 0)
     (nth 5 buf 0) (firstn 18 (skipn 6 buf)).

End AudioSyncPacket.

(** ** MusicReactiveEffectUDP ([music_reactive.h]) *)

Module MusicReactiveEffectUDP.
Import Word Ieee Audio.

Definition UDP_PACKET_SIZE : Z := 24.

Inductive sensor : Type := bass_sensor | mid_sensor | treble_sensor.

(** What the component does to the outside. *)
Inductive event : Type :=
| LogW (msg : string)
| UdpBroadcast (packet : list Z)
| SendRawCommand (address : Z) (data : list Z)
| PublishState (which : sensor) (value : spec_float).

Record t : Type := mk {
  is_master : bool;
  running : bool;
  udp_enabled : bool;
  vReal : list spec_float;
  bass_level : spec_float;
  mid_level : spec_float;
  treble_level : spec_float;
  volume : spec_float;
  sensitivity : spec_float;
  update_rate : spec_float;
  target_addr : Z * Z;
  color_mode : string;
  packet_count : Z;
  last_packet_time : Z;
  last_update : Z;
  (** [controller != nullptr] *)
  controller : bool
}.

(** The field initialisers, for a component built with [master_mode]. *)
Definition create (master_mode : bool) : t :=
  mk master_mode false true [] fzero fzero fzero fzero
     (float_lit 1 1) (float_lit 10 1) (0x2a, 0xa8) "RGB Frequency" 0 0 0 false.

Definition set_levels (s : t) (vol bass mid treble : spec_float) : t :=
  mk (is_master s) (running s) (udp_enabled s) (vReal s) bass mid treble vol
     (sensitivity s) (update_rate s) (target_addr s) (color_mode s)
     (packet_count s) (last_packet_time s) (last_update s) (controller s).

Definition set_vReal (s : t) (spectrum : list spec_float) : t :=
  mk (is_master s) (running s) (udp_enabled s) spectrum
     (bass_level s) (mid_level s) (treble_level s) (volume s)
     (sensitivity s) (update_rate s) (target_addr s) (color_mode s)
     (packet_count s) (last_packet_time s) (last_update s) (controller s).

Definition set_packet_stats (s : t) (count time : Z) : t :=
  mk (is_master s) (running s) (udp_enabled s) (vReal s)
     (bass_level s) (mid_level s) (treble_level s) (volume s)
     (sensitivity s) (update_rate s) (target_addr s) (color_mode s)
     count time (last_update s) (controller s).

Definition set_last_update (s : t) (now : Z) : t :=
  mk (is_master s) (running s) (udp_enabled s) (vReal s)
     (bass_level s) (mid_level s) (treble_level s) (volume s)
     (sensitivity s) (update_rate s) (target_addr s) (color_mode s)
     (packet_count s) (last_packet_time s) now (controller s).

(** [start], [stop], [set_controller], [set_sensitivity], [set_color_mode]. *)
Definition set_running (s : t) (on : bool) : t :=
  mk (is_master s) on (udp_enabled s) (vReal s)
     (bass_level s) (mid_level s) (treble_level s) (volume s)
     (sensitivity s) (update_rate s) (target_addr s) (color_mode s)
     (packet_count s) (last_packet_time s) (last_update s) (controller s).

Definition start (s : t) : t := set_running s true.

Definition stop (s : t) : t := set_running s false.

Definition set_controller (s : t) : t :=
  mk (is_master s) (running s) (udp_enabled s) (vReal s)
     (bass_level s) (mid_level s) (treble_level s) (volume s)
     (sensitivity s) (update_rate s) (target_addr s) (color_mode s)
     (packet_count s) (last_packet_time s) (last_update s) true.

Definition set_sensitivity (s : t) (sens : spec_float) : t :=
  mk (is_master s) (running s) (udp_enabled s) (vReal s)
     (bass_level s) (mid_level s) (treble_level s) (volume s)
     sens (update_rate s) (target_addr s) (color_mode s)
     (packet_count s) (last_packet_time s) (last_update s) (controller s).

Definition set_color_mode (s : t) (mode : string) : t :=
  mk (is_master s) (running s) (udp_enabled s) (vReal s)
     (bass_level s) (mid_level s) (treble_level s) (volume s)
     (sensitivity s) (update_rate s) (target_addr s) mode
     (packet_count s) (last_packet_time s) (last_update s) (controller s).

(** [analyze_frequencies].  The three calls into the arduinoFFT library leave
    the magnitude spectrum of the sampled frame in [vReal]; [spectrum] is that
    array. *)
Definition analyze_frequencies (s : t) (spectrum : list spec_float) : t :=
  let bass := band_average spectrum 1 6 6 in
  let mid := band_average spectrum 6 18 18 in
  let treble := band_average spectrum 23 71 71 in
  let vol := to_float (ddiv (to_double (fadd (fadd bass mid) treble)) (double_of_Z 3)) in
  let bass := fmul bass (sensitivity s) in
  let mid := fmul mid (sensitivity s) in
  let treble := fmul treble (sensitivity s) in
  let vol := fmul vol (sensitivity s) in
  set_levels (set_vReal s spectrum)
    (clamp_level vol) (clamp_level bass) (clamp_level mid) (clamp_level treble).

(** The packet filled in by [broadcast_audio_data]. *)
Definition audio_packet (s : t) : AudioSyncPacket.t :=
  AudioSyncPacket.mk (65, 83)
    (scale_to_byte (volume s) 255)
    (scale_to_byte (bass_level s) 255)
    (scale_to_byte (mid_level s) 255)
    (scale_to_byte (treble_level s) 255)
    (map (fun i =>
            let fft_idx := Z.to_nat (Z.quot (Z.quot (i * SAMPLES) 2) 18) in
            to_uint8
              (constrain
                 (dmul (dmul (nth fft_idx (vReal s) (S754_zero false))
                             (to_double (sensitivity s)))
                       (double_of_Z 255))
                 (double_of_Z 0) (double_of_Z 255)))
         [0; 1; 2; 3; 4; 5; 6; 7; 8; 9; 10; 11; 12; 13; 14; 15; 16; 17]).

(** [broadcast_audio_data]. *)
Definition broadcast_audio_data (s : t) : list event :=
  [UdpBroadcast (AudioSyncPacket.to_bytes (audio_packet s))].

(** A level read back from its byte: [packet.volume / 255.0] stored in a
    [float]. *)
Definition level_of_byte (b : Z) : spec_float :=
  to_float (ddiv (double_of_Z b) (double_of_Z 255)).

(** [receive_audio_data]; [buf] is the datagram [udp.read] takes the packet
    from and [now] the value of [millis()]. *)
Definition receive_audio_data (s : t) (buf : list Z) (now : Z) : t * list event :=
  let packet := AudioSyncPacket.of_bytes buf in
  if negb (fst (AudioSyncPacket.header packet) =? 65)
     || negb (snd (AudioSyncPacket.header packet) =? 83)
  then (s, [LogW "Invalid packet header"])
  else
    let s1 :=
      set_levels s
        (level_of_byte (AudioSyncPacket.volume packet))
        (level_of_byte (AudioSyncPacket.bass packet))
        (level_of_byte (AudioSyncPacket.mid packet))
        (level_of_byte (AudioSyncPacket.treble packet)) in
    (set_packet_stats s1 (add32 (packet_count s1) 1) now, []).

(** The colour computed by [send_color_command], by mode. *)
Definition color_rgb (s : t) : Z * Z * Z :=
  if String.eqb (color_mode s) "RGB Frequency" then
    (scale_to_byte (bass_level s) 255,
     scale_to_byte (mid_level s) 255,
     scale_to_byte (treble_level s) 255)
  else if String.eqb (color_mode s) "Amplitude" then
    let v := scale_to_byte (volume s) 255 in (v, v, v)
  else if String.eqb (color_mode s) "Rainbow Cycle" then
    rainbow (bass_level s) (mid_level s) (treble_level s)
  else if String.eqb (color_mode s) "Bass Pulse" then
    bass_pulse (bass_level s) (mid_level s) (treble_level s)
  else (0, 0, 0).

(** [send_mesh_command]. *)
Definition send_mesh_command (s : t) (payload : list Z) : list event :=
  if controller s then [SendRawCommand 0xFFFF payload]
  else [LogW "Controller not set, cannot send mesh command"].

(** [send_color_command]. *)
Definition send_color_command (s : t) : list event :=
  send_mesh_command s (color_payload (target_addr s) (color_rgb s)).

(** [update_sensors]. *)
Definition update_sensors (s : t) : list event :=
  [PublishState bass_sensor (to_float (dmul (to_double (bass_level s)) (double_of_Z 100)));
   PublishState mid_sensor (to_float (dmul (to_double (mid_level s)) (double_of_Z 100)));
   PublishState treble_sensor (to_float (dmul (to_double (treble_level s)) (double_of_Z 100)))].

(** What one call of [loop] reads from the outside: the datagram waiting on
    the socket (empty when there is none), the three readings of [millis()]
    ([receive_audio_data], the rate limit, the timeout test; in the master role
    [now] is the only reading), and the spectrum the FFT would leave. *)
Record input : Type := mk_input {
  datagram : list Z;
  rx_time : Z;
  now : Z;
  check_time : Z;
  spectrum : list spec_float
}.

(** [master_loop]. *)
Definition master_loop (s : t) (i : input) : t * list event :=
  let interval := to_uint32 (ddiv (double_of_Z 1000) (to_double (update_rate s))) in
  if sub32 (now i) (last_update s) <? interval then (s, [])
  else
    let s1 := set_last_update s (now i) in
    let s2 := analyze_frequencies s1 (spectrum i) in
    (s2,
     (if udp_enabled s2 then broadcast_audio_data s2 else [])
     ++ send_color_command s2 ++ update_sensors s2).

(** [slave_loop]. *)
Definition slave_loop (s : t) (i : input) : t * list event :=
  let packet_size := Z.of_nat (List.length (datagram i)) in
  let '(s1, ev1) :=
    if UDP_PACKET_SIZE <=? packet_size then
      let '(s1, ev1) := receive_audio_data s (datagram i) (rx_time i) in
      if 50 <=? sub32 (now i) (last_update s1) then
        let s2 := set_last_update s1 (now i) in
        (s2, ev1 ++ send_color_command s2 ++ update_sensors s2)
      else (s1, ev1)
    else (s, []) in
  if (5000 <? sub32 (check_time i) (last_packet_time s1)) && (0 <? packet_count s1)
  then (s1, ev1 ++ [LogW "No UDP packets received for 5 seconds"])
  else (s1, ev1).

(** [loop]. *)
Definition loop (s : t) (i : input) : t * list event :=
  if negb (running s) then (s, [])
  else if is_master s then master_loop s i
  else slave_loop s i.

(** The text returned by [get_status], with the frame rate as the integer
    that [String((int)...)] prints; [None] where the conversion to [int] is
    undefined. *)
Inductive status : Type :=
| Broadcasting
| Receiving (fps : option Z)
| No_signal.

(** The quotient [1000.0 / (millis() - last_packet_time)]. *)
Definition fps_quotient (s : t) (now : Z) : spec_float :=
  ddiv (double_of_Z 1000) (double_of_Z (sub32 now (last_packet_time s))).

(** [get_status]; [now1] and [now2] are its two readings of [millis()]. *)
Definition get_status (s : t) (now1 now2 : Z) : status :=
  if is_master s then Broadcasting
  else if sub32 now1 (last_packet_time s) <? 2000 then
    Receiving (to_int (fps_quotient s now2))
  else No_signal.

(** *** Observing the slave loop *)

(** An event left by a call of [send_color_command]: the command handed to
    the controller, or the warning that there is no controller. *)
Definition is_color_command (e : event) : bool :=
  match e with
  | SendRawCommand _ _ => true
  | LogW msg => String.eqb msg "Controller not set, cannot send mesh command"
  | _ => false
  end.

Definition color_commands (evs : list event) : nat :=
  List.length (filter is_color_command evs).

(** A datagram that [slave_loop] accepts and [receive_audio_data] decodes. *)
Definition valid_packet (buf : list Z) : Prop :=
  UDP_PACKET_SIZE <= Z.of_nat (List.length buf) /\
  nth 0 buf 0 = 65 /\ nth 1 buf 0 = 83.

(** Successive calls of [loop], each paired with the time in milliseconds
    since start at which it reads the clock for the rate limit; the result is
    the list of the times at which a colour command was issued. *)
Fixpoint dispatch_times (s : t) (calls : list (Z * input)) : list Z :=
  match calls with
  | [] => []
  | (time, i) :: rest =>
      let '(s1, evs) := loop s i in
      (if (0 <? color_commands evs)%nat then [time] else [])
      ++ dispatch_times s1 rest
  end.

(** Neighbours in [l] are at least [d] apart. *)
Fixpoint spaced (d : Z) (l : list Z) : Prop :=
  match l with
  | a :: (b :: _) as rest => a + d <= b /\ spaced d rest
  | _ => True
  end.

End MusicReactiveEffectUDP.

(** *** Sequences of calls on the component *)

Module UdpSession.
Import Word Ieee Audio MusicReactiveEffectUDP.

(** [enable_udp_broadcast]. *)
Definition enable_udp_broadcast (s : t) (enable : bool) : t :=
  mk (is_master s) (running s) enable (vReal s)
     (bass_level s) (mid_level s) (treble_level s) (volume s)
     (sensitivity s) (update_rate s) (target_addr s) (color_mode s)
     (packet_count s) (last_packet_time s) (last_update s) (controller s).

(** The public methods, as the calls a configuration makes on the
    component. *)
Inductive call : Type :=
| Start
| Stop
| EnableUdpBroadcast (enable : bool)
| SetSensitivity (sens : spec_float)
| SetColorMode (mode : string)
| SetController
| Loop (i : input).

Definition step (s : t) (c : call) : t * list event :=
  match c with
  | Start => (start s, [])
  | Stop => (stop s, [])
  | EnableUdpBroadcast enable => (enable_udp_broadcast s enable, [])
  | SetSensitivity sens => (set_sensitivity s sens, [])
  | SetColorMode mode => (set_color_mode s mode, [])
  | SetController => (set_controller s, [])
  | Loop i => loop s i
  end.

(** A sequence of calls, each made at a time in milliseconds since start;
    the events come out with the time of the call that caused them. *)
Fixpoint run (s : t) (calls : list (Z * call)) : t * list (Z * event) :=
  match calls with
  | [] => (s, [])
  | (time, c) :: rest =>
      let '(s1, ev1) := step s c in
      let '(s2, ev2) := run s1 rest in
      (s2, map (pair time) ev1 ++ ev2)
  end.

(** The call reads [millis()] for the rate limit at its time. *)
Definition on_time (c : Z * call) : Prop :=
  match snd c with
  | Loop i => now i = wrap32 (fst c)
  | _ => True
  end.

Definition sends_color (e : Z * event) : bool := is_color_command (snd e).

Definition is_broadcast (e : Z * event) : bool :=
  match snd e with UdpBroadcast _ => true | _ => false end.

(** The call brings no packet that [slave_loop] would decode. *)
Definition no_valid_packet (c : Z * call) : Prop :=
  match snd c with
  | Loop i => ~ valid_packet (datagram i)
  | _ => True
  end.

Definition TIMEOUT_WARNING : event :=
  LogW "No UDP packets received for 5 seconds".

(** What only a decoded packet changes in a slave: the four levels and the
    packet statistics. *)
Definition received (s : t) :=
  (volume s, bass_level s, mid_level s, treble_level s,
   packet_count s, last_packet_time s).

(** No datagram is waiting and the last packet is more than five seconds
    old. *)
Definition stale (s : t) (c : Z * call) : Prop :=
  match snd c with
  | Loop i =>
      Z.of_nat (List.length (datagram i)) < UDP_PACKET_SIZE /\
      5000 < sub32 (check_time i) (last_packet_time s)
  | _ => False
  end.

Definition levels_in_unit (s : t) : Prop :=
  in_unit (volume s) /\ in_unit (bass_level s) /\
  in_unit (mid_level s) /\ in_unit (treble_level s).

(** What a call brings from outside is well formed: a datagram of bytes, a
    finite spectrum, a finite sensitivity. *)
Definition well_formed (c : Z * call) : Prop :=
  match snd c with
  | Loop i =>
      bounded_spectrum (spectrum i) /\
      Forall (fun b => 0 <= b <= 255) (datagram i)
  | SetSensitivity sens => is_finite sens = true
  | _ => True
  end.

End UdpSession.

(** ** Sequences of calls on MusicReactiveEffect ([fft_analyzer.h]) *)

Module EffectSession.
Import Word Ieee Audio MusicReactiveEffect.

(** What the effect does to the outside: [send_mesh_command] logs the colour
    of the payload it was given, and the sensors are published. *)
Inductive event : Type :=
| LogColor (r g b : Z)
| PublishState (which : MusicReactiveEffectUDP.sensor) (value : spec_float).

(** The field initialisers of the class declaration. *)
Definition create : t :=
  mk [] fzero fzero fzero (float_lit 1 1) (float_lit 10 1) false
     "RGB Frequency" (0x2a, 0xa8) 0.

Definition set_running (s : t) (on : bool) : t :=
  mk (vReal s) (bass_level s) (mid_level s) (treble_level s) (sensitivity s)
     (update_rate s) on (color_mode s) (target_addr s) (last_update s).

Definition start (s : t) : t := set_running s true.

Definition stop (s : t) : t := set_running s false.

Definition set_sensitivity (s : t) (sens : spec_float) : t :=
  mk (vReal s) (bass_level s) (mid_level s) (treble_level s) sens
     (update_rate s) (running s) (color_mode s) (target_addr s) (last_update s).

Definition set_update_rate (s : t) (rate : spec_float) : t :=
  mk (vReal s) (bass_level s) (mid_level s) (treble_level s) (sensitivity s)
     rate (running s) (color_mode s) (target_addr s) (last_update s).

Definition set_color_mode (s : t) (mode : string) : t :=
  mk (vReal s) (bass_level s) (mid_level s) (treble_level s) (sensitivity s)
     (update_rate s) (running s) mode (target_addr s) (last_update s).

Definition set_target_address (s : t) (addr1 addr2 : Z) : t :=
  mk (vReal s) (bass_level s) (mid_level s) (treble_level s) (sensitivity s)
     (update_rate s) (running s) (color_mode s) (addr1, addr2) (last_update s).

Definition set_last_update (s : t) (now : Z) : t :=
  mk (vReal s) (bass_level s) (mid_level s) (treble_level s) (sensitivity s)
     (update_rate s) (running s) (color_mode s) (target_addr s) now.

(** [send_mesh_command]: bytes 5 to 7 of the payload go to the log. *)
Definition send_mesh_command (payload : list Z) : list event :=
  [LogColor (nth 5 payload 0) (nth 6 payload 0) (nth 7 payload 0)].

(** [loop]; [now] is the value of [millis()] and [spectrum] what the FFT of
    the sampled frame leaves in [vReal]. *)
Definition loop (s : t) (now : Z) (spectrum : list spec_float) : t * list event :=
  if negb (running s) then (s, [])
  else
    let interval := to_uint32 (ddiv (double_of_Z 1000) (to_double (update_rate s))) in
    if sub32 now (last_update s) <? interval then (s, [])
    else
      let s1 := analyze_frequencies (set_last_update s now) spectrum in
      (s1,
       send_mesh_command (send_color_command s1)
       ++ [PublishState MusicReactiveEffectUDP.bass_sensor
             (to_float (dmul (to_double (bass_level s1)) (double_of_Z 100)));
           PublishState MusicReactiveEffectUDP.mid_sensor
             (to_float (dmul (to_double (mid_level s1)) (double_of_Z 100)));
           PublishState MusicReactiveEffectUDP.treble_sensor
             (to_float (dmul (to_double (treble_level s1)) (double_of_Z 100)))]).

(** The public methods, as the calls made on the effect. *)
Inductive call : Type :=
| Start
| Stop
| SetSensitivity (sens : spec_float)
| SetUpdateRate (rate : spec_float)
| SetColorMode (mode : string)
| SetTargetAddress (addr1 addr2 : Z)
| Loop (spectrum : list spec_float).

(** One call, made at [time] milliseconds since start. *)
Definition step (s : t) (c : Z * call) : t * list event :=
  match snd c with
  | Start => (start s, [])
  | Stop => (stop s, [])
  | SetSensitivity sens => (set_sensitivity s sens, [])
  | SetUpdateRate rate => (set_update_rate s rate, [])
  | SetColorMode mode => (set_color_mode s mode, [])
  | SetTargetAddress addr1 addr2 => (set_target_address s addr1 addr2, [])
  | Loop spectrum => loop s (wrap32 (fst c)) spectrum
  end.

(** The times of the calls that updated the colour, over a sequence of
    calls. *)
Fixpoint update_times (s : t) (calls : list (Z * call)) : list Z :=
  match calls with
  | [] => []
  | c :: rest =>
      (match snd (step s c) with [] => [] | _ => [fst c] end)
      ++ update_times (fst (step s c)) rest
  end.

(** The call leaves the update rate alone. *)
Definition keeps_rate (c : Z * call) : Prop :=
  match snd c with SetUpdateRate _ => False | _ => True end.

End EffectSession.

(** ** [Preferences]

    The key-value store of the Arduino core for the ESP32, kept in flash.
    A value is stored with its type; reading a key that is absent, or that
    holds a value of another type, gives the default passed to the getter.
    Keys are limited to 15 characters, which the keys written here respect up
    to ten million lights; failures of the flash are left out. *)

Module Preferences.
Import Word.

Inductive value : Type :=
| UInt (n : Z)
| UShort (n : Z)
| Str (s : string).

Definition t : Type := string -> option value.

Definition put (p : t) (key : string) (v : value) : t :=
  fun k => if String.eqb k key then Some v else p k.

Definition putUInt (p : t) (key : string) (n : Z) : t :=
  put p key (UInt (wrap32 n)).

Definition putUShort (p : t) (key : string) (n : Z) : t :=
  put p key (UShort (n mod 2 ^ 16)).

Definition putString (p : t) (key : string) (s : string) : t :=
  put p key (Str s).

Definition getUInt (p : t) (key : string) (default : Z) : Z :=
  match p key with Some (UInt n) => n | _ => default end.

Definition getUShort (p : t) (key : string) (default : Z) : Z :=
  match p key with Some (UShort n) => n | _ => default end.

Definition getString (p : t) (key : string) (default : string) : string :=
  match p key with Some (Str s) => s | _ => default end.

End Preferences.

(** ** [brmesh_pairing.h]

    A [const char*] argument is the text before its terminating zero, and
    [light_id] a [uint16_t]; logging is left out. *)

Module BRMeshPairing.
Import Word Preferences.

Record PairedLight : Type := mk_light {
  mac_address : string;
  device_id : string;
  light_id : Z;
  mesh_key : string;
  paired_time : Z;
  rssi : Z
}.

Record t : Type := mk {
  pairing_enabled : bool;
  paired_lights : list PairedLight;
  prefs : Preferences.t
}.

Definition PREF_COUNT_KEY : string := "light_count".

(** The component as constructed, over the flash it finds. *)
Definition create (flash : Preferences.t) : t := mk false [] flash.

Definition start_pairing (s : t) : t :=
  mk true (paired_lights s) (prefs s).

Definition stop_pairing (s : t) : t :=
  mk false (paired_lights s) (prefs s).

(** [sprintf(key, "<field>%d", i)]. *)
Definition key (field : string) (i : nat) : string :=
  field ++ NilEmpty.string_of_uint (Nat.to_uint i).

(** The fields kept in flash for each light. *)
Definition fields : list string :=
  ["mac_"; "devid_"; "lightid_"; "meshkey_"]%string.

(** The body of the loop of [save_paired_lights], for the light at index
    [i]. *)
Definition save_light (p : Preferences.t) (i : nat) (light : PairedLight)
    : Preferences.t :=
  let p := putString p (key "mac_" i) (mac_address light) in
  let p := putString p (key "devid_" i) (device_id light) in
  let p := putUShort p (key "lightid_" i) (light_id light) in
  putString p (key "meshkey_" i) (mesh_key light).

Fixpoint save_from (p : Preferences.t) (i : nat) (lights : list PairedLight)
    : Preferences.t :=
  match lights with
  | [] => p
  | light :: rest => save_from (save_light p i light) (S i) rest
  end.

(** [save_paired_lights]. *)
Definition save_paired_lights (s : t) : t :=
  let p := putUInt (prefs s) PREF_COUNT_KEY
             (Z.of_nat (List.length (paired_lights s))) in
  mk (pairing_enabled s) (paired_lights s) (save_from p 0 (paired_lights s)).

(** The body of the loop of [load_paired_lights]. *)
Definition load_light (p : Preferences.t) (i : nat) : PairedLight :=
  mk_light (getString p (key "mac_" i) EmptyString)
           (getString p (key "devid_" i) EmptyString)
           (getUShort p (key "lightid_" i) 0)
           (getString p (key "meshkey_" i) EmptyString)
           0 (-999).

(** [load_paired_lights]: the lights read are pushed onto the vector. *)
Definition load_paired_lights (s : t) : t :=
  let count := getUInt (prefs s) PREF_COUNT_KEY 0 in
  mk (pairing_enabled s)
     (paired_lights s ++ map (load_light (prefs s)) (seq 0 (Z.to_nat count)))
     (prefs s).

(** [setup]. *)
Definition setup (s : t) : t := load_paired_lights s.

(** [add_light]; [now] is the value of [millis()]. *)
Definition add_light (s : t) (mac device_id : string) (light_id : Z)
    (mesh_key : string) (now : Z) : t :=
  if existsb (fun light => String.eqb (mac_address light) mac) (paired_lights s)
  then s
  else
    save_paired_lights
      (mk (pairing_enabled s)
          (paired_lights s ++ [mk_light mac device_id light_id mesh_key now (-999)])
          (prefs s)).

(** [clear_all_lights]. *)
Definition clear_all_lights (s : t) : t :=
  mk (pairing_enabled s) [] (putUInt (prefs s) PREF_COUNT_KEY 0).

(** [get_next_light_id]: the sum is taken in [int] and returned as a
    [uint16_t]. *)
Definition get_next_light_id (s : t) : Z :=
  let max_id :=
    fold_left (fun max_id light =>
                 if max_id <? light_id light then light_id light else max_id)
              (paired_lights s) 0 in
  (max_id + 1) mod 2 ^ 16.

(** The calls made on the component once it is set up. *)
Inductive call : Type :=
| StartPairing
| StopPairing
| AddLight (mac device_id : string) (light_id : Z) (mesh_key : string) (now : Z)
| ClearAllLights.

Definition step (s : t) (c : call) : t :=
  match c with
  | StartPairing => start_pairing s
  | StopPairing => stop_pairing s
  | AddLight mac device_id light_id mesh_key now =>
      add_light s mac device_id light_id mesh_key now
  | ClearAllLights => clear_all_lights s
  end.

Definition run (s : t) (calls : list call) : t := fold_left step calls s.

(** A light as [load_paired_lights] gives it back: the time of pairing and
    the signal strength are not kept in flash. *)
Definition as_loaded (light : PairedLight) : PairedLight :=
  mk_light (mac_address light) (device_id light) (light_id light)
           (mesh_key light) 0 (-999).

End BRMeshPairing.

(** * Properties *)

(** ** Wrap-around arithmetic *)

Section WordFacts.
Import Word.

Lemma wrap32_range z : 0 <= wrap32 z < 2 ^ 32.
Proof. unfold wrap32. apply Z.mod_pos_bound. lia. Qed.

Lemma sub32_range a b : 0 <= sub32 a b < 2 ^ 32.
Proof. apply wrap32_range. Qed.

Lemma sub32_diag a : sub32 a a = 0.
Proof. unfold sub32, wrap32. rewrite Z.sub_diag. reflexivity. Qed.

(** A clock that only moves forward: when the wrapped difference of two
    readings is at least [d], so is the true distance. *)
Lemma sub32_lower (t t' d : Z) :
  t <= t' -> d <= sub32 (wrap32 t') (wrap32 t) -> d <= t' - t.
Proof.
  unfold sub32, wrap32. intros Hle Hd.
  rewrite <- Zminus_mod in Hd.
  assert (Hm : (t' - t) mod 2 ^ 32 <= t' - t) by (apply Z.mod_le; lia).
  lia.
Qed.

End WordFacts.

(** ** The command queue of a light *)

Section FastconLightFacts.
Import Word FastconLight.

(** What one call of [loop] does, by cases. *)
Lemma loop_idle l now :
  has_pending_command_ l = false -> loop l now = (l, []).
Proof. intros H. unfold loop. rewrite H. reflexivity. Qed.

Lemma loop_wait l now :
  windows_ok l now = false -> loop l now = (l, []).
Proof.
  unfold windows_ok, loop. intros H.
  destruct (has_pending_command_ l); [cbn | reflexivity].
  destruct (Z.ltb_spec (sub32 now (last_state_change_ l)) DEBOUNCE_MS); [reflexivity|].
  destruct (Z.ltb_spec (sub32 now (last_command_sent_ l)) MIN_INTERVAL_MS); [reflexivity|].
  apply andb_false_iff in H. destruct H as [H|H]; apply Z.leb_gt in H; lia.
Qed.

Lemma loop_drop l now :
  has_pending_command_ l = true -> windows_ok l now = true ->
  pending_data_ l = last_sent_data_ l ->
  loop l now =
    (mk (light_id_ l) (last_sent_data_ l) (pending_data_ l)
        (last_state_change_ l) (last_command_sent_ l) false, []).
Proof.
  unfold windows_ok, loop. intros Hp H Heq. rewrite Hp. cbn.
  apply andb_true_iff in H. destruct H as [H1 H2].
  apply Z.leb_le in H1, H2.
  destruct (Z.ltb_spec (sub32 now (last_state_change_ l)) DEBOUNCE_MS); [lia|].
  destruct (Z.ltb_spec (sub32 now (last_command_sent_ l)) MIN_INTERVAL_MS); [lia|].
  destruct (payload_eq_dec (pending_data_ l) (last_sent_data_ l)); [reflexivity|contradiction].
Qed.

Lemma loop_send l now :
  has_pending_command_ l = true -> windows_ok l now = true ->
  pending_data_ l <> last_sent_data_ l ->
  loop l now =
    (mk (light_id_ l) (pending_data_ l) (pending_data_ l)
        (last_state_change_ l) now false,
     [QueueCommand (light_id_ l) (pending_data_ l)]).
Proof.
  unfold windows_ok, loop. intros Hp H Hne. rewrite Hp. cbn.
  apply andb_true_iff in H. destruct H as [H1 H2].
  apply Z.leb_le in H1, H2.
  destruct (Z.ltb_spec (sub32 now (last_state_change_ l)) DEBOUNCE_MS); [lia|].
  destruct (Z.ltb_spec (sub32 now (last_command_sent_ l)) MIN_INTERVAL_MS); [lia|].
  destruct (payload_eq_dec (pending_data_ l) (last_sent_data_ l)); [contradiction|reflexivity].
Qed.

Lemma run_loop_cons l now rest :
  run_loop l (now :: rest) =
    (fst (run_loop (fst (loop l now)) rest),
     snd (loop l now) ++ snd (run_loop (fst (loop l now)) rest)).
Proof.
  cbn [run_loop]. destruct (loop l now) as [l1 s1]. cbn [fst snd].
  destruct (run_loop l1 rest). reflexivity.
Qed.

(** Nothing pending: any number of calls leaves the light as it is. *)
Lemma run_loop_idle ticks : forall l,
  has_pending_command_ l = false -> run_loop l ticks = (l, []).
Proof.
  induction ticks as [|now rest IH]; intros l H; [reflexivity|].
  rewrite run_loop_cons, (loop_idle l now H). cbn [fst snd].
  rewrite (IH l H). reflexivity.
Qed.

(** While a waiting period is still running, nothing is sent and nothing
    changes. *)
Lemma run_loop_wait ticks : forall l,
  forallb (fun now => negb (windows_ok l now)) ticks = true ->
  run_loop l ticks = (l, []).
Proof.
  induction ticks as [|now rest IH]; intros l H; [reflexivity|].
  cbn [forallb] in H. apply andb_true_iff in H. destruct H as [H1 H2].
  apply negb_true_iff in H1.
  rewrite run_loop_cons, (loop_wait l now H1). cbn [fst snd].
  rewrite (IH l H2). reflexivity.
Qed.

(** A pending payload that differs from the last one sent goes out exactly
    once, at the first call at which both periods are over. *)
Lemma run_loop_sends_once ticks : forall l,
  has_pending_command_ l = true ->
  pending_data_ l <> last_sent_data_ l ->
  existsb (windows_ok l) ticks = true ->
  snd (run_loop l ticks) = [QueueCommand (light_id_ l) (pending_data_ l)] /\
  last_sent_data_ (fst (run_loop l ticks)) = pending_data_ l /\
  has_pending_command_ (fst (run_loop l ticks)) = false /\
  light_id_ (fst (run_loop l ticks)) = light_id_ l.
Proof.
  induction ticks as [|now rest IH]; intros l Hp Hne Hex; [discriminate|].
  cbn [existsb] in Hex. rewrite run_loop_cons.
  destruct (windows_ok l now) eqn:Hw.
  - rewrite (loop_send l now Hp Hw Hne). cbn [fst snd].
    rewrite run_loop_idle by reflexivity. cbn. auto.
  - rewrite (loop_wait l now Hw). cbn [fst snd app].
    apply IH; assumption.
Qed.

(** A pending payload equal to the last one sent never goes out; it is
    dropped at the first call at which both periods are over. *)
Lemma run_loop_duplicate ticks : forall l,
  has_pending_command_ l = true ->
  pending_data_ l = last_sent_data_ l ->
  snd (run_loop l ticks) = [] /\
  (existsb (windows_ok l) ticks = true ->
   has_pending_command_ (fst (run_loop l ticks)) = false).
Proof.
  induction ticks as [|now rest IH]; intros l Hp Heq; [split; [reflexivity|discriminate]|].
  cbn [existsb]. rewrite run_loop_cons.
  destruct (windows_ok l now) eqn:Hw.
  - rewrite (loop_drop l now Hp Hw Heq). cbn [fst snd].
    rewrite run_loop_idle by reflexivity. cbn. auto.
  - rewrite (loop_wait l now Hw). cbn [fst snd app orb].
    apply IH; assumption.
Qed.

(** C3. After [write_state] stored a payload that differs from the last one
    sent: calls of [loop] made less than [DEBOUNCE_MS] after it send nothing;
    calls made while one of the two periods is still running send nothing and
    change nothing; and the first call at which [DEBOUNCE_MS] have passed since
    the change and [MIN_INTERVAL_MS] since the last command sends the payload,
    once. *)
Theorem debounce_then_one_send (l : t) (adv_data : payload) (t0 : Z) :
  adv_data <> last_sent_data_ l ->
  let l1 := write_state l adv_data t0 in
  (forall early,
     Forall (fun now => sub32 now t0 < DEBOUNCE_MS) early ->
     run_loop l1 early = (l1, [])) /\
  (forall waiting now,
     Forall (fun t => ~ (DEBOUNCE_MS <= sub32 t t0 /\
                         MIN_INTERVAL_MS <= sub32 t (last_command_sent_ l)))
            waiting ->
     DEBOUNCE_MS <= sub32 now t0 ->
     MIN_INTERVAL_MS <= sub32 now (last_command_sent_ l) ->
     run_loop l1 waiting = (l1, []) /\
     snd (run_loop l1 (waiting ++ [now])) = [QueueCommand (light_id_ l) adv_data] /\
     loop l1 now =
       (mk (light_id_ l) adv_data adv_data t0 now false,
        [QueueCommand (light_id_ l) adv_data])).
Proof.
  intros Hne l1.
  assert (Hwait : forall ticks,
            Forall (fun t => ~ (DEBOUNCE_MS <= sub32 t t0 /\
                                MIN_INTERVAL_MS <= sub32 t (last_command_sent_ l)))
                   ticks ->
            forallb (fun now => negb (windows_ok l1 now)) ticks = true).
  { intros ticks HF. apply forallb_forall. intros x Hx.
    rewrite Forall_forall in HF. specialize (HF x Hx).
    apply negb_true_iff. unfold windows_ok, l1. cbn.
    apply andb_false_iff.
    destruct (Z.leb_spec DEBOUNCE_MS (sub32 x t0)); [|now left].
    destruct (Z.leb_spec MIN_INTERVAL_MS (sub32 x (last_command_sent_ l))); [|now right].
    exfalso. apply HF. split; assumption. }
  split.
  - intros early HF. apply run_loop_wait, Hwait.
    eapply Forall_impl; [|exact HF]. cbn. intros a Ha [Hb _]. lia.
  - intros waiting now HF Hd Hm.
    assert (Hok : windows_ok l1 now = true).
    { unfold windows_ok, l1. cbn. apply andb_true_iff. split; apply Z.leb_le; assumption. }
    assert (Hsend : loop l1 now =
              (mk (light_id_ l) adv_data adv_data t0 now false,
               [QueueCommand (light_id_ l) adv_data])).
    { rewrite (loop_send l1 now); [reflexivity|reflexivity|exact Hok|exact Hne]. }
    split; [apply run_loop_wait, Hwait, HF|]. split; [|exact Hsend].
    induction waiting as [|w ws IH].
    + cbn [app]. rewrite run_loop_cons, Hsend. reflexivity.
    + inversion HF as [|? ? Hw Hws]; subst.
      change ((w :: ws) ++ [now]) with (w :: (ws ++ [now])).
      rewrite run_loop_cons.
      assert (Hlw : loop l1 w = (l1, [])).
      { apply loop_wait.
        assert (Hw1 : Forall (fun t => ~ (DEBOUNCE_MS <= sub32 t t0 /\
                         MIN_INTERVAL_MS <= sub32 t (last_command_sent_ l))) [w])
          by (constructor; [exact Hw|constructor]).
        specialize (Hwait [w] Hw1). cbn in Hwait. rewrite andb_true_r in Hwait.
        apply negb_true_iff in Hwait. exact Hwait. }
      rewrite Hlw. cbn [fst snd app]. apply IH. exact Hws.
Qed.

Lemma debounce_then_one_send_witness :
  [147; 1; 2] <> last_sent_data_ (create 7) /\
  snd (run_loop (write_state (create 7) [147; 1; 2] 1000)
                ([1010; 1050; 1099] ++ [1100])) = [QueueCommand 7 [147; 1; 2]].
Proof.
  split; [discriminate|].
  refine (proj1 (proj2 (proj2 (debounce_then_one_send (create 7) [147; 1; 2] 1000 _)
                          [1010; 1050; 1099] 1100 _ _ _))).
  - discriminate.
  - repeat constructor; vm_compute; intros [H1 H2]; apply H1; reflexivity.
  - vm_compute. discriminate.
  - vm_compute. discriminate.
Defined.

(** C4. The same payload handed to [write_state] twice, with calls of [loop]
    after each at which both periods are over, is sent exactly once: the first
    copy goes out, the second equals the last payload sent and is dropped with
    the pending flag cleared. *)
Theorem duplicate_sent_once (l : t) (adv_data : payload) (t0 t2 : Z)
    (ticks1 ticks2 : list Z) :
  adv_data <> last_sent_data_ l ->
  let l1 := write_state l adv_data t0 in
  existsb (windows_ok l1) ticks1 = true ->
  let l2 := fst (run_loop l1 ticks1) in
  let l3 := write_state l2 adv_data t2 in
  existsb (windows_ok l3) ticks2 = true ->
  snd (run_loop l1 ticks1) ++ snd (run_loop l3 ticks2)
    = [QueueCommand (light_id_ l) adv_data] /\
  has_pending_command_ (fst (run_loop l3 ticks2)) = false /\
  (forall l' now,
     has_pending_command_ l' = true -> windows_ok l' now = true ->
     pending_data_ l' = last_sent_data_ l' ->
     snd (loop l' now) = [] /\ has_pending_command_ (fst (loop l' now)) = false).
Proof.
  intros Hne l1 Hex1 l2 l3 Hex2.
  destruct (run_loop_sends_once ticks1 l1 eq_refl Hne Hex1) as (Hs & Hlast & _ & _).
  fold l2 in Hlast. cbn in Hs, Hlast.
  assert (Hdup : pending_data_ l3 = last_sent_data_ l3).
  { unfold l3. cbn. symmetry. exact Hlast. }
  destruct (run_loop_duplicate ticks2 l3 eq_refl Hdup) as [Hnone Hclr].
  rewrite Hs, Hnone. repeat split; auto.
  - rewrite (loop_drop l' now) by assumption. reflexivity.
  - rewrite (loop_drop l' now) by assumption. reflexivity.
Qed.

Lemma duplicate_sent_once_witness :
  [147; 1; 2] <> last_sent_data_ (create 7) /\
  snd (run_loop (write_state (create 7) [147; 1; 2] 1000) [1050; 1400; 1500]) ++
  snd (run_loop (write_state
                   (fst (run_loop (write_state (create 7) [147; 1; 2] 1000)
                                  [1050; 1400; 1500]))
                   [147; 1; 2] 2000) [2050; 2100; 2200])
    = [QueueCommand 7 [147; 1; 2]].
Proof.
  split; [discriminate|].
  refine (proj1 (duplicate_sent_once (create 7) [147; 1; 2] 1000 2000
                   [1050; 1400; 1500] [2050; 2100; 2200] _ _ _)).
  - discriminate.
  - vm_compute. reflexivity.
  - vm_compute. reflexivity.
Defined.

End FastconLightFacts.

(** ** Rounding

    Facts about [binary_round] and the operations built on it, for any
    format, then for [float] and [double]. *)

Section RoundingFacts.
Import Ieee.

Lemma pow2_pos n : 0 <= n -> 0 < 2 ^ n.
Proof. intros. apply Z.pow_pos_nonneg; lia. Qed.

Lemma pow2_nonneg n : 0 <= 2 ^ n.
Proof. apply Z.pow_nonneg. lia. Qed.

Ltac pow2 :=
  match goal with
  | |- 0 < 2 ^ _ => apply pow2_pos; lia
  | |- 0 <= 2 ^ _ => apply pow2_nonneg
  | |- 2 ^ ?n <> 0 => assert (0 < 2 ^ n) by (apply pow2_pos; lia); lia
  | |- _ => lia
  end.

Lemma digits2_size p : digits2_pos p = Pos.size p.
Proof. induction p; cbn; congruence. Qed.

Lemma digits_bounds p :
  2 ^ (Zpos (digits2_pos p) - 1) <= Zpos p < 2 ^ Zpos (digits2_pos p).
Proof.
  rewrite digits2_size. split.
  - pose proof (Pos.size_le p) as H.
    assert (H' : 2 ^ Zpos (Pos.size p) <= 2 * Zpos p).
    { rewrite <- Pos2Z.inj_pow. change (2 * Zpos p) with (Zpos p~0). exact H. }
    replace (Zpos (Pos.size p)) with (Zpos (Pos.size p) - 1 + 1) in H' by lia.
    rewrite Z.pow_add_r in H' by lia. lia.
  - pose proof (Pos.size_gt p) as H.
    rewrite <- Pos2Z.inj_pow. exact H.
Qed.

Lemma Zdigits2_nonneg m : 0 <= Zdigits2 m.
Proof. destruct m; cbn; lia. Qed.

(** A number below [2 ^ d] has at most [d] binary digits. *)
Lemma Zdigits2_le m d : 0 <= m -> 0 <= d -> m < 2 ^ d -> Zdigits2 m <= d.
Proof.
  intros Hm Hd Hlt. destruct m as [|p|p]; cbn; [lia| |lia].
  destruct (digits_bounds p) as [Hlo _].
  destruct (Z_le_gt_dec (Zpos (digits2_pos p)) d) as [|Hgt]; [assumption|exfalso].
  assert (2 ^ d <= 2 ^ (Zpos (digits2_pos p) - 1)) by (apply Z.pow_le_mono_r; lia).
  lia.
Qed.

Lemma Zdigits2_ge m d : 2 ^ (d - 1) <= m -> 0 < m -> d <= Zdigits2 m.
Proof.
  intros Hlo Hm. destruct m as [|p|p]; try lia. cbn.
  destruct (digits_bounds p) as [_ Hhi].
  destruct (Z_le_gt_dec d (Zpos (digits2_pos p))) as [|Hgt]; [assumption|exfalso].
  assert (2 ^ Zpos (digits2_pos p) <= 2 ^ (d - 1)) by (apply Z.pow_le_mono_r; lia).
  lia.
Qed.

Lemma Zdigits2_unique m d : 2 ^ (d - 1) <= m < 2 ^ d -> 0 < m -> Zdigits2 m = d.
Proof.
  intros [Hlo Hhi] Hm.
  assert (0 <= d).
  { destruct (Z_lt_le_dec d 0); [|assumption]. rewrite (Z.pow_neg_r 2 d) in Hhi by lia. lia. }
  apply Z.le_antisymm; [apply Zdigits2_le; lia|apply Zdigits2_ge; lia].
Qed.

Lemma Zdigits2_bounds m : 0 < m -> 2 ^ (Zdigits2 m - 1) <= m < 2 ^ Zdigits2 m.
Proof. destruct m; try lia. intros _. apply digits_bounds. Qed.

(** Shifting right keeps the remaining digits. *)
Lemma Zdigits2_div m n :
  0 <= n -> 2 ^ n <= m -> Zdigits2 (m / 2 ^ n) = Zdigits2 m - n.
Proof.
  intros Hn Hm.
  assert (Hp : 0 < 2 ^ n) by (apply Z.pow_pos_nonneg; lia).
  assert (Hm0 : 0 < m) by lia.
  destruct (Zdigits2_bounds m Hm0) as [Hlo Hhi].
  assert (Hd : n < Zdigits2 m).
  { destruct (Z_lt_le_dec n (Zdigits2 m)); [assumption|exfalso].
    assert (2 ^ Zdigits2 m <= 2 ^ n) by (apply Z.pow_le_mono_r; lia). lia. }
  apply Zdigits2_unique.
  - split.
    + apply Z.div_le_lower_bound; [lia|].
      rewrite <- Z.pow_add_r by lia.
      replace (n + (Zdigits2 m - n - 1)) with (Zdigits2 m - 1) by lia.
      exact Hlo.
    + apply Z.div_lt_upper_bound; [lia|].
      rewrite <- Z.pow_add_r by lia.
      replace (n + (Zdigits2 m - n)) with (Zdigits2 m) by lia.
      exact Hhi.
  - apply Z.div_str_pos. lia.
Qed.

Lemma Zdigits2_mono a b : 0 <= a <= b -> Zdigits2 a <= Zdigits2 b.
Proof.
  intros [Ha Hab]. destruct (Z.eq_dec a 0) as [->|Hne]; [apply Zdigits2_nonneg|].
  apply Zdigits2_le; [lia|apply Zdigits2_nonneg|].
  destruct (Zdigits2_bounds b) as [_ H]; lia.
Qed.

(** [fexp] *)
Lemma fexp_mono prec emax a b : a <= b -> fexp prec emax a <= fexp prec emax b.
Proof. unfold fexp. lia. Qed.

(** *** Shifting *)

Lemma shr_1_m mrs : 0 <= shr_m mrs -> shr_m (shr_1 mrs) = shr_m mrs / 2.
Proof.
  destruct mrs as [m r s]. cbn [shr_m]. intros Hm.
  destruct m as [|[p|p|]|p]; cbn [shr_1 shr_m]; try reflexivity.
  - apply Z.div_unique with 1; lia.
  - apply Z.div_unique with 0; lia.
  - lia.
Qed.

Lemma iter_shr_1_m p : forall mrs,
  0 <= shr_m mrs -> shr_m (iter_pos shr_1 p mrs) = shr_m mrs / 2 ^ Zpos p.
Proof.
  assert (Hnn : forall mrs, 0 <= shr_m mrs -> 0 <= shr_m (shr_1 mrs)).
  { intros mrs H. rewrite shr_1_m by assumption. apply Z.div_pos; lia. }
  induction p as [p IH|p IH|]; intros mrs Hm; cbn [iter_pos].
  - assert (H1 := Hnn mrs Hm).
    assert (H2 : 0 <= shr_m (iter_pos shr_1 p (shr_1 mrs))).
    { rewrite IH by assumption. apply Z.div_pos; [assumption|pow2]. }
    rewrite IH by assumption. rewrite IH by assumption. rewrite shr_1_m by assumption.
    rewrite !Z.div_div by pow2.
    f_equal. rewrite Pos2Z.inj_xI. rewrite Z.pow_add_r by lia.
    replace (2 * Zpos p) with (Zpos p + Zpos p) by lia.
    rewrite Z.pow_add_r by lia. change (2 ^ 1) with 2. lia.
  - assert (H2 : 0 <= shr_m (iter_pos shr_1 p mrs)).
    { rewrite IH by assumption. apply Z.div_pos; [assumption|pow2]. }
    rewrite IH by assumption. rewrite IH by assumption.
    rewrite Z.div_div by pow2.
    f_equal. rewrite Pos2Z.inj_xO. rewrite <- Z.pow_add_r by lia. f_equal. lia.
  - rewrite shr_1_m by assumption. reflexivity.
Qed.

Lemma pow2_divide_split a b m :
  0 <= a -> 0 <= b -> (2 ^ (a + b) | m) -> (2 ^ a | m) /\ (2 ^ b | m / 2 ^ a).
Proof.
  intros Ha Hb [k Hk]. rewrite Z.pow_add_r in Hk by lia.
  assert (Hp : 0 < 2 ^ a) by pow2.
  split.
  - exists (k * 2 ^ b). lia.
  - exists k. subst m. replace (k * (2 ^ a * 2 ^ b)) with (k * 2 ^ b * 2 ^ a) by lia.
    rewrite Z.div_mul by lia. reflexivity.
Qed.

Lemma shr_1_exact m :
  0 <= m -> (2 | m) ->
  shr_1 (Build_shr_record m false false) = Build_shr_record (m / 2) false false.
Proof.
  intros Hm [k Hk]. destruct m as [|[p|p|]|p]; cbn [shr_1 orb]; try lia.
  - reflexivity.
  - f_equal. apply Z.div_unique with 0; lia.
Qed.

(** Shifting out zero bits loses nothing. *)
Lemma iter_shr_1_exact p : forall m,
  0 <= m -> (2 ^ Zpos p | m) ->
  iter_pos shr_1 p (Build_shr_record m false false)
    = Build_shr_record (m / 2 ^ Zpos p) false false.
Proof.
  induction p as [p IH|p IH|]; intros m Hm Hd; cbn [iter_pos].
  - assert (E : Zpos p~1 = 1 + (Zpos p + Zpos p)) by lia.
    rewrite E in Hd |- *.
    apply pow2_divide_split in Hd; [|lia|lia]. destruct Hd as [H1 H2].
    change (2 ^ 1) with 2 in H1, H2.
    apply pow2_divide_split in H2; [|lia|lia]. destruct H2 as [H2 H3].
    rewrite shr_1_exact by assumption.
    assert (0 <= m / 2) by (apply Z.div_pos; lia).
    rewrite IH by assumption.
    assert (0 <= m / 2 / 2 ^ Zpos p) by (apply Z.div_pos; [lia|pow2]).
    rewrite IH by assumption.
    f_equal. rewrite !Z.div_div by pow2. f_equal.
    rewrite !Z.pow_add_r by lia. change (2 ^ 1) with 2. lia.
  - assert (E : Zpos p~0 = Zpos p + Zpos p) by lia.
    rewrite E in Hd |- *.
    apply pow2_divide_split in Hd; [|lia|lia]. destruct Hd as [H1 H2].
    rewrite IH by assumption.
    assert (0 <= m / 2 ^ Zpos p) by (apply Z.div_pos; [lia|pow2]).
    rewrite IH by assumption.
    f_equal. rewrite Z.div_div by pow2. f_equal.
    rewrite Z.pow_add_r by lia. reflexivity.
  - apply shr_1_exact; assumption.
Qed.

(** *** Rounding to nearest even *)

Lemma round_nearest_even_bounds m l :
  m <= round_nearest_even m l <= m + 1.
Proof.
  destruct l as [|[| |]]; cbn [round_nearest_even]; try lia.
  destruct (Z.even m); lia.
Qed.

Lemma shr_record_of_loc_m m l : shr_m (shr_record_of_loc m l) = m.
Proof. destruct l as [|[| |]]; reflexivity. Qed.

Lemma loc_of_shr_record_of_loc m l :
  loc_of_shr_record (shr_record_of_loc m l) = l.
Proof. destruct l as [|[| |]]; reflexivity. Qed.

Section Format.
Variables prec emax : Z.
Hypothesis Hprec : 0 < prec.
Hypothesis Hemax : prec < emax.

Local Abbreviation fexp := (SpecFloat.fexp prec emax).
Local Abbreviation emin := (SpecFloat.emin prec emax).

(** The first component of [shr_fexp]: the mantissa is divided by the power
    of two that brings the exponent up to [fexp]. *)
Lemma shr_fexp_spec m e l :
  0 <= m ->
  let n := Z.max (fexp (Zdigits2 m + e) - e) 0 in
  shr_m (fst (shr_fexp prec emax m e l)) = m / 2 ^ n /\
  snd (shr_fexp prec emax m e l) = e + n.
Proof.
  intros Hm n. unfold shr_fexp, shr. subst n.
  destruct (fexp (Zdigits2 m + e) - e) as [|p|p] eqn:Hn; cbn [fst snd Z.max].
  - rewrite shr_record_of_loc_m. cbn. rewrite Z.div_1_r. split; lia.
  - rewrite iter_shr_1_m by (rewrite shr_record_of_loc_m; assumption).
    rewrite shr_record_of_loc_m.
    replace (Z.max (Zpos p) 0) with (Zpos p) by lia. split; reflexivity.
  - rewrite shr_record_of_loc_m.
    replace (Z.max (Zneg p) 0) with 0 by lia. cbn. rewrite Z.div_1_r. split; lia.
Qed.

(** When nothing but zeros is shifted out, the result is exact. *)
Lemma shr_fexp_exact m e :
  0 <= m ->
  let n := Z.max (fexp (Zdigits2 m + e) - e) 0 in
  (2 ^ n | m) ->
  loc_of_shr_record (fst (shr_fexp prec emax m e loc_Exact)) = loc_Exact.
Proof.
  intros Hm n. unfold shr_fexp, shr. subst n.
  destruct (fexp (Zdigits2 m + e) - e) as [|p|p] eqn:Hn; cbn [fst snd Z.max]; try reflexivity.
  replace (Z.max (Zpos p) 0) with (Zpos p) by lia. intros Hd.
  cbn [shr_record_of_loc]. rewrite iter_shr_1_exact by assumption. reflexivity.
Qed.

Lemma binary_round_aux_unfold s m e l :
  binary_round_aux prec emax s m e l =
    let mrs1 := fst (shr_fexp prec emax m e l) in
    let e1 := snd (shr_fexp prec emax m e l) in
    let r := round_nearest_even (shr_m mrs1) (loc_of_shr_record mrs1) in
    let m2 := shr_m (fst (shr_fexp prec emax r e1 loc_Exact)) in
    let e2 := snd (shr_fexp prec emax r e1 loc_Exact) in
    match m2 with
    | Z0 => S754_zero s
    | Zpos p => if e2 <=? emax - prec then S754_finite s p e2 else S754_infinity s
    | Zneg _ => S754_nan
    end.
Proof.
  unfold binary_round_aux.
  destruct (shr_fexp prec emax m e l) as [mrs1 e1]. cbn [fst snd].
  destruct (shr_fexp prec emax _ e1 loc_Exact) as [mrs2 e2]. reflexivity.
Qed.

(** Numbers of magnitude at most [2 ^ J] have their exponent at most [J]
    after rounding, and within the format's range. *)
Lemma fexp_le_pow m e J :
  0 <= m -> m <= 2 ^ (J - e) -> e <= J -> emin <= J ->
  fexp (Zdigits2 m + e) <= J /\
  (J < emax -> fexp (Zdigits2 m + e) <= emax - prec).
Proof.
  intros Hm Hle HeJ Hmin.
  assert (Hd : Zdigits2 m <= J - e + 1).
  { apply Zdigits2_le; [lia|lia|].
    rewrite Z.pow_add_r by lia. change (2 ^ 1) with 2.
    assert (0 < 2 ^ (J - e)) by pow2. lia. }
  unfold SpecFloat.fexp, SpecFloat.emin in *. split; lia.
Qed.

(** Rounding never produces a NaN, and keeps the sign. *)
Lemma binary_round_aux_cases s m e l :
  0 <= m ->
  match binary_round_aux prec emax s m e l with
  | S754_zero s' => s' = s
  | S754_finite s' _ _ => s' = s
  | S754_infinity s' => s' = s
  | S754_nan => False
  end.
Proof.
  intros Hm. rewrite binary_round_aux_unfold. cbv zeta.
  destruct (shr_fexp_spec m e l Hm) as [Hm1 He1].
  set (r := round_nearest_even _ _).
  assert (Hr : 0 <= r).
  { subst r. pose proof (round_nearest_even_bounds
      (shr_m (fst (shr_fexp prec emax m e l)))
      (loc_of_shr_record (fst (shr_fexp prec emax m e l)))) as Hb.
    rewrite Hm1 in Hb. assert (0 <= m / 2 ^ Z.max (fexp (Zdigits2 m + e) - e) 0)
      by (apply Z.div_pos; [lia|pow2]). rewrite Hm1. lia. }
  destruct (shr_fexp_spec r (snd (shr_fexp prec emax m e l)) loc_Exact Hr) as [Hm2 He2].
  destruct (shr_m (fst (shr_fexp prec emax r _ loc_Exact))) as [|p|p] eqn:Hp.
  - reflexivity.
  - destruct (_ <=? _); reflexivity.
  - assert (0 <= r / 2 ^ Z.max (fexp (Zdigits2 r + snd (shr_fexp prec emax m e l))
                                  - snd (shr_fexp prec emax m e l)) 0)
      by (apply Z.div_pos; [lia|pow2]). lia.
Qed.

(** A number of magnitude at most [2 ^ J] rounds to one of magnitude at most
    [2 ^ J]: in particular it does not overflow. *)
Lemma binary_round_aux_mag_le s m e l J :
  0 <= m -> e <= J -> e <= emax - prec -> emin <= J < emax ->
  (m + 1 <= 2 ^ (J - e) \/ (m = 2 ^ (J - e) /\ l = loc_Exact)) ->
  mag_le J (binary_round_aux prec emax s m e l).
Proof.
  intros Hm HeJ Hee [HJ1 HJ2] Hcase.
  rewrite binary_round_aux_unfold. cbv zeta.
  destruct (shr_fexp_spec m e l Hm) as [Hm1 He1].
  set (n1 := Z.max (fexp (Zdigits2 m + e) - e) 0) in *.
  assert (Hn1 : 0 <= n1) by (subst n1; lia).
  assert (Hmle : m <= 2 ^ (J - e)) by (destruct Hcase as [?|[? _]]; lia).
  destruct (fexp_le_pow m e J Hm Hmle HeJ HJ1) as [Hf1 Hf1'].
  specialize (Hf1' HJ2).
  set (e1 := snd (shr_fexp prec emax m e l)) in *.
  assert (He1J : e1 <= J) by (rewrite He1; subst n1; lia).
  assert (He1m : e1 <= emax - prec) by (rewrite He1; subst n1; lia).
  set (r := round_nearest_even _ _).
  assert (Hsplit : 2 ^ (J - e) = 2 ^ (J - e1) * 2 ^ n1).
  { rewrite <- Z.pow_add_r by lia. f_equal. lia. }
  assert (Hr : 0 <= r <= 2 ^ (J - e1)).
  { subst r. rewrite Hm1.
    assert (Hq : 0 <= m / 2 ^ n1) by (apply Z.div_pos; [lia|pow2]).
    destruct Hcase as [Hlt|[Heq Hl]].
    - pose proof (round_nearest_even_bounds (m / 2 ^ n1)
        (loc_of_shr_record (fst (shr_fexp prec emax m e l)))) as Hb.
      assert (m / 2 ^ n1 < 2 ^ (J - e1)).
      { apply Z.div_lt_upper_bound; [pow2|]. lia. }
      lia.
    - subst l. rewrite shr_fexp_exact.
      + cbn [round_nearest_even]. split; [assumption|].
        rewrite Heq, Hsplit. rewrite Z.div_mul by pow2. lia.
      + assumption.
      + fold n1. rewrite Heq, Hsplit. exists (2 ^ (J - e1)). reflexivity. }
  destruct (shr_fexp_spec r e1 loc_Exact (proj1 Hr)) as [Hm2 He2].
  set (n2 := Z.max (fexp (Zdigits2 r + e1) - e1) 0) in *.
  assert (Hn2 : 0 <= n2) by (subst n2; lia).
  destruct (fexp_le_pow r e1 J (proj1 Hr) (proj2 Hr) He1J HJ1) as [Hf2 Hf2'].
  specialize (Hf2' HJ2).
  set (e2 := snd (shr_fexp prec emax r e1 loc_Exact)) in *.
  assert (He2J : e2 <= J) by (rewrite He2; subst n2; lia).
  assert (He2m : e2 <= emax - prec) by (rewrite He2; subst n2; lia).
  destruct (shr_m (fst (shr_fexp prec emax r e1 loc_Exact))) as [|p|p] eqn:Hp.
  - exact I.
  - apply Z.leb_le in He2m. rewrite He2m. cbn [mag_le].
    rewrite Hm2.
    assert (Hsplit2 : 2 ^ (J - e1) = 2 ^ (J - e2) * 2 ^ n2).
    { rewrite <- Z.pow_add_r by lia. f_equal. lia. }
    apply Z.div_le_upper_bound; [pow2|]. lia.
  - assert (0 <= r / 2 ^ n2) by (apply Z.div_pos; [lia|pow2]). lia.
Qed.

(** The result of rounding is in canonical form. *)
Lemma binary_round_aux_valid s m e l :
  0 <= m -> e <= fexp (Zdigits2 m + e) ->
  valid_binary prec emax (binary_round_aux prec emax s m e l) = true.
Proof.
  intros Hm Hpre.
  rewrite binary_round_aux_unfold. cbv zeta.
  destruct (shr_fexp_spec m e l Hm) as [Hm1 He1].
  replace (Z.max (fexp (Zdigits2 m + e) - e) 0) with (fexp (Zdigits2 m + e) - e) in * by lia.
  set (n1 := fexp (Zdigits2 m + e) - e) in *.
  set (e1 := snd (shr_fexp prec emax m e l)) in *.
  assert (He1' : e1 = fexp (Zdigits2 m + e)) by (subst n1; lia).
  set (r := round_nearest_even _ _).
  assert (Hn1 : 0 <= n1) by (subst n1; lia).
  assert (Hq : 0 <= m / 2 ^ n1) by (apply Z.div_pos; [lia|pow2]).
  assert (Hr : m / 2 ^ n1 <= r).
  { subst r. rewrite Hm1. apply round_nearest_even_bounds. }
  assert (Hpre2 : e1 <= fexp (Zdigits2 r + e1)).
  { destruct (Z_lt_le_dec m (2 ^ n1)) as [Hlt|Hge].
    - assert (Hd : Zdigits2 m <= n1) by (apply Zdigits2_le; lia).
      assert (e1 = emin) by (unfold SpecFloat.fexp in *; lia).
      unfold SpecFloat.fexp. lia.
    - assert (Hd : Zdigits2 (m / 2 ^ n1) = Zdigits2 m - n1) by (apply Zdigits2_div; lia).
      assert (Hmono := Zdigits2_mono (m / 2 ^ n1) r (conj Hq Hr)).
      rewrite He1' at 1. apply fexp_mono. lia. }
  destruct (shr_fexp_spec r e1 loc_Exact) as [Hm2 He2]; [lia|].
  replace (Z.max (fexp (Zdigits2 r + e1) - e1) 0) with (fexp (Zdigits2 r + e1) - e1) in * by lia.
  set (n2 := fexp (Zdigits2 r + e1) - e1) in *.
  set (e2 := snd (shr_fexp prec emax r e1 loc_Exact)) in *.
  destruct (shr_m (fst (shr_fexp prec emax r e1 loc_Exact))) as [|p|p] eqn:Hp;
    try reflexivity.
  destruct (e2 <=? emax - prec) eqn:Hle; [|reflexivity].
  cbn [valid_binary]. unfold bounded, canonical_mantissa. rewrite Hle, andb_true_r.
  apply Z.eqb_eq.
  assert (Hn2 : 0 <= n2) by (subst n2; lia).
  assert (Hrge : 2 ^ n2 <= r).
  { destruct (Z_lt_le_dec r (2 ^ n2)) as [Hlt|]; [exfalso|assumption].
    rewrite Z.div_small in Hm2 by lia. lia. }
  assert (Hd2 : Zdigits2 (r / 2 ^ n2) = Zdigits2 r - n2) by (apply Zdigits2_div; lia).
  rewrite <- Hm2 in Hd2. cbn [Zdigits2] in Hd2. rewrite Hd2.
  replace (Zdigits2 r - n2 + e2) with (Zdigits2 r + e1) by lia. lia.
Qed.

(** Rounding a mantissa whose low bits are zero only drops those bits. *)
Lemma binary_round_aux_exact s m e :
  0 < m ->
  let E := fexp (Zdigits2 m + e) in
  e <= E -> (2 ^ (E - e) | m) -> E <= emax - prec ->
  exists p, Zpos p = m / 2 ^ (E - e) /\
            binary_round_aux prec emax s m e loc_Exact = S754_finite s p E.
Proof.
  intros Hm E HeE Hdiv HE.
  rewrite binary_round_aux_unfold. cbv zeta.
  destruct (shr_fexp_spec m e loc_Exact) as [Hm1 He1]; [lia|].
  replace (Z.max (fexp (Zdigits2 m + e) - e) 0) with (E - e) in * by (subst E; lia).
  rewrite shr_fexp_exact;
    [|lia|replace (Z.max (fexp (Zdigits2 m + e) - e) 0) with (E - e) by (subst E; lia); exact Hdiv].
  cbn [round_nearest_even]. rewrite Hm1, He1.
  replace (e + (E - e)) with E by lia.
  destruct Hdiv as [k Hk].
  assert (Hp : 0 < 2 ^ (E - e)) by pow2.
  assert (Hq : m / 2 ^ (E - e) = k) by (rewrite Hk; apply Z.div_mul; lia).
  assert (Hk0 : 0 < k) by nia.
  assert (Hge : 2 ^ (E - e) <= m) by nia.
  assert (Hd : Zdigits2 (m / 2 ^ (E - e)) = Zdigits2 m - (E - e)) by (apply Zdigits2_div; lia).
  rewrite Hq in *.
  destruct (shr_fexp_spec k E loc_Exact) as [Hm2 He2]; [lia|].
  replace (Zdigits2 k + E) with (Zdigits2 m + e) in * by lia.
  fold E in Hm2, He2. rewrite Z.sub_diag in *. cbn [Z.max] in *.
  change (2 ^ 0) with 1 in Hm2. rewrite Z.div_1_r in Hm2. rewrite Hm2, He2.
  replace (E + 0) with E by lia.
  destruct k as [|p|p]; try lia.
  exists p. split; [reflexivity|].
  replace (E + Z.max 0 0) with E by lia.
  apply Z.leb_le in HE. rewrite HE. reflexivity.
Qed.

(** *** Alignment before rounding *)

Lemma iter_xO m d : Zpos (Pos.iter xO m d) = Zpos m * 2 ^ Zpos d.
Proof.
  induction d as [|d IH] using Pos.peano_ind.
  - cbn. lia.
  - rewrite Pos.iter_succ, Pos2Z.inj_xO, IH, Pos2Z.inj_succ, Z.pow_succ_r by lia. lia.
Qed.

Lemma shl_align_spec mx ex ex' :
  snd (shl_align mx ex ex') = Z.min ex ex' /\
  Zpos (fst (shl_align mx ex ex')) = Zpos mx * 2 ^ (ex - Z.min ex ex').
Proof.
  unfold shl_align. destruct (ex' - ex) as [|d|d] eqn:Hd; cbn [fst snd].
  - replace (Z.min ex ex') with ex by lia. rewrite Z.sub_diag. cbn. lia.
  - replace (Z.min ex ex') with ex by lia. rewrite Z.sub_diag. cbn. lia.
  - replace (Z.min ex ex') with ex' by lia. rewrite iter_xO.
    replace (ex - ex') with (Zpos d) by lia. split; reflexivity.
Qed.

Lemma Zdigits2_mul_pow2 m k : 0 < m -> 0 <= k -> Zdigits2 (m * 2 ^ k) = Zdigits2 m + k.
Proof.
  intros Hm Hk. destruct (Zdigits2_bounds m Hm) as [Hlo Hhi].
  assert (Hp : 0 < 2 ^ k) by pow2.
  assert (Hd : 0 < Zdigits2 m).
  { destruct m; try lia. cbn. lia. }
  apply Zdigits2_unique; [|nia].
  replace (Zdigits2 m + k - 1) with (Zdigits2 m - 1 + k) by lia.
  rewrite !Z.pow_add_r by lia. nia.
Qed.

(** [binary_round] is [binary_round_aux] on an aligned mantissa. *)
Lemma binary_round_aligned s m e :
  let E := fexp (Zdigits2 (Zpos m) + e) in
  let ez := Z.min e E in
  let mz := Zpos m * 2 ^ (e - ez) in
  binary_round prec emax s m e = binary_round_aux prec emax s mz ez loc_Exact /\
  Zdigits2 mz + ez = Zdigits2 (Zpos m) + e /\ 0 < mz.
Proof.
  intros E ez mz. unfold binary_round.
  destruct (shl_align_spec m e (fexp (Zpos (digits2_pos m) + e))) as [H1 H2].
  destruct (shl_align m e _) as [m' e']. cbn [fst snd] in H1, H2.
  change (Zpos (digits2_pos m)) with (Zdigits2 (Zpos m)) in *. fold E in H1, H2. fold ez in H1, H2.
  subst e'. rewrite H2. fold mz.
  assert (Hp : 0 < 2 ^ (e - ez)) by (subst ez; pow2).
  split; [reflexivity|]. split; [|subst mz; nia].
  subst mz. rewrite Zdigits2_mul_pow2 by (subst ez; lia). lia.
Qed.

Lemma binary_round_valid s m e :
  valid_binary prec emax (binary_round prec emax s m e) = true.
Proof.
  destruct (binary_round_aligned s m e) as (-> & Hd & Hpos).
  apply binary_round_aux_valid; [lia|]. rewrite Hd. lia.
Qed.

Lemma binary_round_cases s m e :
  match binary_round prec emax s m e with
  | S754_zero s' => s' = s
  | S754_finite s' _ _ => s' = s
  | S754_infinity s' => s' = s
  | S754_nan => False
  end.
Proof.
  destruct (binary_round_aligned s m e) as (-> & Hd & Hpos).
  apply binary_round_aux_cases. lia.
Qed.

Lemma binary_round_mag_le s m e J :
  Zpos m <= 2 ^ (J - e) -> emin <= J < emax ->
  mag_le J (binary_round prec emax s m e).
Proof.
  intros Hle HJ.
  assert (HeJ : e <= J).
  { destruct (Z_le_gt_dec e J); [assumption|]. rewrite Z.pow_neg_r in Hle by lia. lia. }
  destruct (binary_round_aligned s m e) as (-> & Hd & Hpos).
  set (ez := Z.min e (fexp (Zdigits2 (Zpos m) + e))) in *.
  set (mz := Zpos m * 2 ^ (e - ez)) in *.
  assert (Hmz : mz <= 2 ^ (J - ez)).
  { subst mz. replace (J - ez) with (J - e + (e - ez)) by lia.
    rewrite Z.pow_add_r by (subst ez; lia).
    apply Z.mul_le_mono_nonneg_r; [pow2|assumption]. }
  assert (Hez : ez <= emax - prec).
  { destruct (fexp_le_pow mz ez J) as [_ H]; [lia|assumption|subst ez; lia|lia|].
    rewrite Hd in H. subst ez. lia. }
  apply binary_round_aux_mag_le; [lia|subst ez; lia|exact Hez|lia|].
  destruct (Z.eq_dec mz (2 ^ (J - ez))); [right; auto|left; lia].
Qed.

(** A value that fits the format is converted without change. *)
Lemma binary_round_exact s m e :
  let E := fexp (Zdigits2 (Zpos m) + e) in
  E <= e -> E <= emax - prec ->
  exists p, Zpos p = Zpos m * 2 ^ (e - E) /\
            binary_round prec emax s m e = S754_finite s p E.
Proof.
  intros E HE Hmax.
  destruct (binary_round_aligned s m e) as (-> & Hd & Hpos).
  fold E in Hd, Hpos |- *.
  replace (Z.min e E) with E in * by lia.
  destruct (binary_round_aux_exact s (Zpos m * 2 ^ (e - E)) E Hpos) as (p & Hp & Hr).
  - rewrite Hd. fold E. lia.
  - rewrite Hd. fold E. rewrite Z.sub_diag. exists (Zpos m * 2 ^ (e - E)). cbn. lia.
  - rewrite Hd. fold E. lia.
  - rewrite Hd in Hp, Hr. fold E in Hp, Hr. rewrite Z.sub_diag in Hp.
    change (2 ^ 0) with 1 in Hp. rewrite Z.div_1_r in Hp.
    exists p. split; assumption.
Qed.

(** *** Operations *)

Lemma mag_le_mono J J' x : J <= J' -> mag_le J x -> mag_le J' x.
Proof.
  intros HJ. destruct x as [s|s| |s m e]; cbn [mag_le]; auto.
  intros H. assert (2 ^ (J - e) <= 2 ^ (J' - e)) by (apply Z.pow_le_mono_r; lia). lia.
Qed.

Lemma mag_le_exponent J s m e : mag_le J (S754_finite s m e) -> e <= J.
Proof.
  cbn [mag_le]. intros H. destruct (Z_le_gt_dec e J); [assumption|].
  rewrite Z.pow_neg_r in H by lia. lia.
Qed.

Lemma mag_le_finite J x : mag_le J x -> is_finite x = true.
Proof. destruct x; cbn; intros; auto; contradiction. Qed.

Lemma binary_normalize_mag_le m e szero J :
  Z.abs m <= 2 ^ (J - e) -> emin <= J < emax ->
  mag_le J (binary_normalize prec emax m e szero).
Proof.
  intros Hm HJ. destruct m as [|p|p]; cbn [binary_normalize].
  - exact I.
  - apply binary_round_mag_le; [exact Hm|exact HJ].
  - apply binary_round_mag_le; [exact Hm|exact HJ].
Qed.

(** The sum of two numbers of magnitude below [2 ^ (J - 1)] has magnitude at
    most [2 ^ J]. *)
Lemma SFadd_mag_le x y Jx Jy J :
  mag_le Jx x -> mag_le Jy y -> Jx < J -> Jy < J -> emin <= J < emax ->
  mag_le J (SFadd prec emax x y).
Proof.
  intros Hx Hy HJx HJy HJ.
  destruct x as [sx|sx| |sx mx ex]; try contradiction;
    destruct y as [sy|sy| |sy my ey]; try contradiction.
  - cbn. destruct sx, sy; exact I.
  - cbn [SFadd]. apply (mag_le_mono Jy); [lia|exact Hy].
  - cbn [SFadd]. apply (mag_le_mono Jx); [lia|exact Hx].
  - cbn [SFadd]. cbv zeta.
    assert (Hex := mag_le_exponent _ _ _ _ Hx).
    assert (Hey := mag_le_exponent _ _ _ _ Hy).
    cbn [mag_le] in Hx, Hy.
    set (ez := Z.min ex ey).
    destruct (shl_align_spec mx ex ez) as [_ Hax].
    destruct (shl_align_spec my ey ez) as [_ Hay].
    replace (Z.min ex ez) with ez in Hax by (subst ez; lia).
    replace (Z.min ey ez) with ez in Hay by (subst ez; lia).
    apply binary_normalize_mag_le; [|exact HJ].
    rewrite Hax, Hay.
    assert (Hpx : 0 < 2 ^ (ex - ez)) by (subst ez; pow2).
    assert (Hpy : 0 < 2 ^ (ey - ez)) by (subst ez; pow2).
    assert (Hbx : Zpos mx * 2 ^ (ex - ez) <= 2 ^ (J - 1 - ez)).
    { replace (J - 1 - ez) with (J - 1 - ex + (ex - ez)) by lia.
      rewrite Z.pow_add_r by (subst ez; lia).
      apply Z.mul_le_mono_nonneg_r; [lia|].
      assert (2 ^ (Jx - ex) <= 2 ^ (J - 1 - ex)) by (apply Z.pow_le_mono_r; lia). lia. }
    assert (Hby : Zpos my * 2 ^ (ey - ez) <= 2 ^ (J - 1 - ez)).
    { replace (J - 1 - ez) with (J - 1 - ey + (ey - ez)) by lia.
      rewrite Z.pow_add_r by (subst ez; lia).
      apply Z.mul_le_mono_nonneg_r; [lia|].
      assert (2 ^ (Jy - ey) <= 2 ^ (J - 1 - ey)) by (apply Z.pow_le_mono_r; lia). lia. }
    replace (J - ez) with (J - 1 - ez + 1) by lia.
    rewrite Z.pow_add_r by (subst ez; lia). change (2 ^ 1) with 2.
    destruct sx, sy; cbn [cond_Zopp]; lia.
Qed.

(** Dividing by a number that is at least 2 does not increase the
    magnitude bound. *)
Lemma SFdiv_mag_le x sy my ey J :
  mag_le J x -> ey <= 0 -> 2 ^ (1 - ey) <= Zpos my -> emin < J < emax ->
  mag_le J (SFdiv prec emax x (S754_finite sy my ey)).
Proof.
  intros Hx Hey Hmy HJ.
  destruct x as [sx|sx| |sx mx ex]; try contradiction; [exact I|].
  assert (Hex := mag_le_exponent _ _ _ _ Hx). cbn [mag_le] in Hx.
  cbn [SFdiv]. unfold SFdiv_core_binary.
  set (d1 := Zdigits2 (Zpos mx)). set (d2 := Zdigits2 (Zpos my)).
  set (e' := Z.min (fexp (d1 + ex - (d2 + ey))) (ex - ey)).
  set (sh := ex - ey - e').
  assert (Hsh : 0 <= sh) by (subst sh e'; lia).
  set (m' := match sh with Z0 => Zpos mx | Zpos _ => Z.shiftl (Zpos mx) sh | Zneg _ => 0 end).
  assert (Hm' : m' = Zpos mx * 2 ^ sh).
  { subst m'. destruct sh as [|p|p] eqn:E; [cbn; lia| |lia].
    rewrite Z.shiftl_mul_pow2 by lia. reflexivity. }
  assert (Hq : fst (Z.div_eucl m' (Zpos my)) = m' / Zpos my) by reflexivity.
  destruct (Z.div_eucl m' (Zpos my)) as [q r]. cbn [fst] in Hq.
  assert (Hd1 : d1 <= J - ex + 1).
  { subst d1. apply Zdigits2_le; [lia|lia|].
    rewrite Z.pow_add_r by lia. change (2 ^ 1) with 2.
    assert (0 < 2 ^ (J - ex)) by pow2. lia. }
  assert (Hd2 : 2 - ey <= d2).
  { subst d2. apply Zdigits2_ge; [|lia].
    replace (2 - ey - 1) with (1 - ey) by lia. exact Hmy. }
  assert (He'1 : e' <= J - 1).
  { subst e'. unfold SpecFloat.fexp, SpecFloat.emin in *. lia. }
  assert (He'2 : e' <= emax - prec).
  { subst e'. unfold SpecFloat.fexp, SpecFloat.emin in *. lia. }
  assert (Hp1 : 0 < 2 ^ sh) by pow2.
  assert (Hq0 : 0 <= q) by (rewrite Hq; apply Z.div_pos; nia).
  assert (Hqle : q <= 2 ^ (J - e' - 1)).
  { assert (H1 : q * Zpos my <= m') by (rewrite Hq, Z.mul_comm; apply Z.mul_div_le; lia).
    assert (H2 : m' <= 2 ^ (J - e' - 1) * 2 ^ (1 - ey)).
    { rewrite Hm'. rewrite <- Z.pow_add_r by lia.
      replace (J - e' - 1 + (1 - ey)) with (J - ex + sh) by (subst sh; lia).
      rewrite Z.pow_add_r by lia.
      apply Z.mul_le_mono_nonneg_r; [lia|exact Hx]. }
    assert (Hp2 : 0 < 2 ^ (1 - ey)) by pow2.
    assert (H3 : q * 2 ^ (1 - ey) <= 2 ^ (J - e' - 1) * 2 ^ (1 - ey)) by nia.
    apply Z.mul_le_mono_pos_r in H3; assumption. }
  apply binary_round_aux_mag_le; [exact Hq0|lia|exact He'2|lia|].
  left. replace (J - e') with (J - e' - 1 + 1) by lia.
  rewrite Z.pow_add_r by lia. change (2 ^ 1) with 2.
  assert (0 < 2 ^ (J - e' - 1)) by pow2. lia.
Qed.

(** A product of finite numbers is never a NaN. *)
Lemma SFmul_not_nan x y :
  is_finite x = true -> is_finite y = true ->
  is_nan (SFmul prec emax x y) = false.
Proof.
  destruct x as [sx|sx| |sx mx ex]; try discriminate;
    destruct y as [sy|sy| |sy my ey]; try discriminate; intros _ _; try reflexivity.
  cbn [SFmul].
  pose proof (binary_round_aux_cases (xorb sx sy) (Zpos (mx * my)) (ex + ey) loc_Exact) as H.
  destruct (binary_round_aux _ _ _ _ _ _); try reflexivity.
  exfalso. apply H. lia.
Qed.

Lemma SFmul_exact sa ma ea sb mb eb :
  let P := Zpos (ma * mb) in
  let e := ea + eb in
  let E := fexp (Zdigits2 P + e) in
  e <= E -> (2 ^ (E - e) | P) -> E <= emax - prec ->
  exists p, Zpos p = P / 2 ^ (E - e) /\
            SFmul prec emax (S754_finite sa ma ea) (S754_finite sb mb eb)
              = S754_finite (xorb sa sb) p E.
Proof.
  intros P e E H1 H2 H3. cbn [SFmul].
  apply binary_round_aux_exact; [lia|assumption|assumption|assumption].
Qed.

End Format.

(** *** Values *)

Lemma Qpow2_pos e : (0 < 2 ^ e)%Q.
Proof. apply Qpower_0_lt. reflexivity. Qed.

Lemma Qpow2_add a b : (2 ^ (a + b) == 2 ^ a * 2 ^ b)%Q.
Proof. apply Qpower_plus. discriminate. Qed.

Lemma Qpow2_inject k : 0 <= k -> (inject_Z (2 ^ k) == 2 ^ k)%Q.
Proof. intros. rewrite Zpower_Qpower by assumption. reflexivity. Qed.

Lemma inject_Z_pos z : 0 < z -> (0 < inject_Z z)%Q.
Proof. intros H. change 0%Q with (inject_Z 0). rewrite <- Zlt_Qlt. exact H. Qed.

Lemma inject_Z_ge_1 z : 1 <= z -> (1 <= inject_Z z)%Q.
Proof. intros H. change 1%Q with (inject_Z 1). rewrite <- Zle_Qle. exact H. Qed.

Lemma inject_cond_Zopp s m :
  (inject_Z (cond_Zopp s m) == if s then - inject_Z m else inject_Z m)%Q.
Proof. destruct s; cbn [cond_Zopp]; [rewrite inject_Z_opp|]; reflexivity. Qed.

(** The value does not depend on how mantissa and exponent share the
    powers of two. *)
Lemma to_Q_shift s p m e k :
  Zpos p = Zpos m * 2 ^ k -> 0 <= k ->
  (to_Q (S754_finite s p (e - k)) == to_Q (S754_finite s m e))%Q.
Proof.
  intros Hp Hk. cbn [to_Q]. rewrite Hp.
  replace e with (e - k + k) at 2 by lia. rewrite (Qpow2_add (e - k) k).
  destruct s; cbn [cond_Zopp]; rewrite ?inject_Z_opp, inject_Z_mult, Qpow2_inject by assumption;
    ring.
Qed.

Lemma to_Q_mul sa ma ea sb mb eb :
  (to_Q (S754_finite (xorb sa sb) (ma * mb) (ea + eb))
   == to_Q (S754_finite sa ma ea) * to_Q (S754_finite sb mb eb))%Q.
Proof.
  cbn [to_Q]. rewrite Pos2Z.inj_mul, Qpow2_add.
  destruct sa, sb; cbn [xorb cond_Zopp]; rewrite ?inject_Z_opp, inject_Z_mult; ring.
Qed.

Lemma to_Q_sign (s : bool) m e :
  (if s then to_Q (S754_finite s m e) < 0 else 0 < to_Q (S754_finite s m e))%Q.
Proof.
  cbn [to_Q].
  assert (H1 : (0 < inject_Z (Zpos m))%Q) by (apply inject_Z_pos; lia).
  pose proof (Qpow2_pos e) as H2.
  destruct s; cbn [cond_Zopp]; rewrite ?inject_Z_opp.
  - setoid_replace (- inject_Z (Zpos m) * 2 ^ e)%Q with (- (inject_Z (Zpos m) * 2 ^ e))%Q by ring.
    assert (0 < inject_Z (Zpos m) * 2 ^ e)%Q by (apply Qmult_lt_0_compat; assumption). lra.
  - apply Qmult_lt_0_compat; assumption.
Qed.

(** Truncation of a non-negative number is the floor of its value. *)
Lemma Qfloor_unique z q : (inject_Z z <= q < inject_Z (z + 1))%Q -> Qfloor q = z.
Proof.
  intros [H1 H2].
  pose proof (Qfloor_le q) as H3. pose proof (Qlt_floor q) as H4.
  assert (H5 : (inject_Z z < inject_Z (Qfloor q + 1))%Q) by lra.
  assert (H6 : (inject_Z (Qfloor q) < inject_Z (z + 1))%Q) by lra.
  rewrite <- Zlt_Qlt in H5, H6. lia.
Qed.

Lemma trunc_floor m e :
  trunc (S754_finite false m e) = Some (Qfloor (to_Q (S754_finite false m e))).
Proof.
  cbn [trunc cond_Zopp to_Q]. f_equal. symmetry. apply Qfloor_unique.
  destruct (Z_le_gt_dec 0 e) as [He|He].
  - rewrite Z.shiftl_mul_pow2 by assumption.
    rewrite !inject_Z_plus, inject_Z_mult, Qpow2_inject by assumption.
    change (inject_Z 1) with 1%Q. lra.
  - rewrite Z.shiftl_div_pow2 by lia.
    set (d := 2 ^ (- e)).
    assert (Hd : 0 < d) by (subst d; pow2).
    assert (Hinv : (2 ^ e * inject_Z d == 1)%Q).
    { subst d. rewrite Qpow2_inject by lia. rewrite <- Qpow2_add.
      replace (e + - e) with 0 by lia. reflexivity. }
    pose proof (Z.mul_div_le (Zpos m) d Hd) as Hlo.
    pose proof (Z.mul_succ_div_gt (Zpos m) d Hd) as Hhi.
    set (q := Zpos m / d) in *.
    assert (Hlo' : (inject_Z (d * q) <= inject_Z (Zpos m))%Q)
      by (rewrite <- Zle_Qle; exact Hlo).
    assert (Hhi' : (inject_Z (Zpos m) < inject_Z (d * Z.succ q))%Q)
      by (rewrite <- Zlt_Qlt; exact Hhi).
    rewrite inject_Z_mult in Hlo', Hhi'. unfold Z.succ in Hhi'.
    rewrite inject_Z_plus in Hhi' |- *. change (inject_Z 1) with 1%Q in *.
    pose proof (Qpow2_pos e) as Hpe.
    assert (HdQ : (0 < inject_Z d)%Q) by (apply inject_Z_pos; exact Hd).
    split.
    + apply Qmult_le_r with (z := inject_Z d); [exact HdQ|].
      setoid_replace (inject_Z (Zpos m) * 2 ^ e * inject_Z d)%Q
        with (inject_Z (Zpos m) * (2 ^ e * inject_Z d))%Q by ring.
      rewrite Hinv. lra.
    + apply Qmult_lt_r with (z := inject_Z d); [exact HdQ|].
      setoid_replace (inject_Z (Zpos m) * 2 ^ e * inject_Z d)%Q
        with (inject_Z (Zpos m) * (2 ^ e * inject_Z d))%Q by ring.
      rewrite Hinv. lra.
Qed.

(** [mag_le] is a bound on the value. *)
Lemma mag_le_to_Q J s m e :
  mag_le J (S754_finite s m e) <-> (Qabs (to_Q (S754_finite s m e)) <= 2 ^ J)%Q.
Proof.
  assert (Habs : (Qabs (to_Q (S754_finite s m e)) == inject_Z (Zpos m) * 2 ^ e)%Q).
  { pose proof (to_Q_sign s m e) as Hs. cbn [to_Q] in *.
    destruct s; cbn [cond_Zopp] in *; rewrite ?inject_Z_opp in *.
    - rewrite Qabs_neg by lra. ring.
    - rewrite Qabs_pos by lra. reflexivity. }
  rewrite Habs. cbn [mag_le].
  pose proof (Qpow2_pos e) as Hpe.
  split.
  - intros H. assert (HeJ : e <= J).
    { destruct (Z_le_gt_dec e J); [assumption|]. rewrite Z.pow_neg_r in H by lia. lia. }
    rewrite Zle_Qle in H. rewrite Qpow2_inject in H by lia.
    replace J with (J - e + e) at 1 by lia. rewrite Qpow2_add.
    apply Qmult_le_compat_r; [exact H|lra].
  - intros H.
    destruct (Z_le_gt_dec e J) as [HeJ|HeJ].
    + rewrite Zle_Qle, Qpow2_inject by lia.
      replace J with (J - e + e) in H by lia. rewrite Qpow2_add in H.
      apply Qmult_le_r in H; assumption.
    + exfalso.
      replace e with (J + (e - J)) in H by lia. rewrite Qpow2_add in H.
      assert (H1 : (1 <= inject_Z (Zpos m))%Q) by (apply inject_Z_ge_1; lia).
      assert (H2 : (2 <= 2 ^ (e - J))%Q).
      { replace (e - J) with (1 + (e - J - 1)) by lia. rewrite Qpow2_add.
        assert (1 <= 2 ^ (e - J - 1))%Q.
        { rewrite <- Qpow2_inject by lia. apply inject_Z_ge_1.
          assert (0 < 2 ^ (e - J - 1)) by pow2. lia. }
        change (2 ^ 1)%Q with 2%Q. lra. }
      pose proof (Qpow2_pos J) as HpJ.
      assert (H3 : (2 ^ J * 2 <= 2 ^ J * 2 ^ (e - J))%Q).
      { apply Qmult_le_l; assumption. }
      assert (H4 : (1 * (2 ^ J * 2 ^ (e - J)) <= inject_Z (Zpos m) * (2 ^ J * 2 ^ (e - J)))%Q).
      { apply Qmult_le_compat_r; [exact H1|]. lra. }
      lra.
Qed.

(** *** binary32 numbers seen as doubles *)

Lemma valid_float_bounds s m e :
  valid_binary 24 128 (S754_finite s m e) = true ->
  Zdigits2 (Zpos m) <= 24 /\ -149 <= e <= 104.
Proof.
  cbn [valid_binary]. unfold bounded, canonical_mantissa, SpecFloat.fexp, SpecFloat.emin.
  intros H. apply andb_true_iff in H. destruct H as [H1 H2].
  apply Z.eqb_eq in H1. apply Z.leb_le in H2. cbn [Zdigits2]. lia.
Qed.

Lemma Zdigits2_mul a b :
  0 < a -> 0 < b ->
  Zdigits2 a + Zdigits2 b - 1 <= Zdigits2 (a * b) <= Zdigits2 a + Zdigits2 b.
Proof.
  intros Ha Hb.
  destruct (Zdigits2_bounds a Ha) as [Ha1 Ha2].
  destruct (Zdigits2_bounds b Hb) as [Hb1 Hb2].
  assert (Hda : 0 < Zdigits2 a) by (destruct a; cbn; lia).
  assert (Hdb : 0 < Zdigits2 b) by (destruct b; cbn; lia).
  assert (0 < 2 ^ (Zdigits2 a - 1)) by pow2.
  assert (0 < 2 ^ (Zdigits2 b - 1)) by pow2.
  split.
  - apply Zdigits2_ge; [|nia].
    replace (Zdigits2 a + Zdigits2 b - 1 - 1) with (Zdigits2 a - 1 + (Zdigits2 b - 1)) by lia.
    rewrite Z.pow_add_r by lia. nia.
  - apply Zdigits2_le; [nia|lia|]. rewrite Z.pow_add_r by lia. nia.
Qed.

(** A [float] promoted to [double] keeps its value: the mantissa is only
    shifted to 53 digits. *)
Lemma to_double_float s m e :
  valid_binary 24 128 (S754_finite s m e) = true ->
  exists p, Zpos p = Zpos m * 2 ^ (53 - Zdigits2 (Zpos m)) /\
            to_double (S754_finite s m e)
              = S754_finite s p (e + Zdigits2 (Zpos m) - 53).
Proof.
  intros Hv. destruct (valid_float_bounds s m e Hv) as [Hd He].
  assert (Hd0 : 0 < Zdigits2 (Zpos m)) by (cbn; lia).
  unfold to_double, round_to.
  destruct (binary_round_exact 53 1024 s m e) as (p & Hp & Hr).
  - unfold SpecFloat.fexp, SpecFloat.emin. lia.
  - unfold SpecFloat.fexp, SpecFloat.emin. lia.
  - exists p. rewrite Hr, Hp. unfold SpecFloat.fexp, SpecFloat.emin.
    replace (Z.max (Zdigits2 (Zpos m) + e - 53) (3 - 1024 - 53))
      with (e + Zdigits2 (Zpos m) - 53) by lia.
    split; [f_equal; f_equal; lia|reflexivity].
Qed.

Lemma double_of_Z_pos k :
  0 < k < 2 ^ 53 ->
  exists p, Zpos p = k * 2 ^ (53 - Zdigits2 k) /\
            double_of_Z k = S754_finite false p (Zdigits2 k - 53).
Proof.
  intros [Hk0 Hk]. destruct k as [|pk|pk]; try lia.
  assert (Hd0 : 0 < Zdigits2 (Zpos pk)) by (cbn; lia).
  assert (Hd : Zdigits2 (Zpos pk) <= 53) by (apply Zdigits2_le; lia).
  unfold double_of_Z, binary_normalize.
  destruct (binary_round_exact 53 1024 false pk 0) as (p & Hp & Hr).
  - unfold SpecFloat.fexp, SpecFloat.emin. lia.
  - unfold SpecFloat.fexp, SpecFloat.emin. lia.
  - exists p. rewrite Hr, Hp. unfold SpecFloat.fexp, SpecFloat.emin.
    replace (Z.max (Zdigits2 (Zpos pk) + 0 - 53) (3 - 1024 - 53))
      with (Zdigits2 (Zpos pk) - 53) by lia.
    split; [f_equal; f_equal; lia|reflexivity].
Qed.

(** [level * k] for a [float] level and a small integer constant [k] is
    computed without rounding error. *)
Lemma scale_exact s m e k :
  valid_binary 24 128 (S754_finite s m e) = true -> 0 < k < 2 ^ 29 ->
  exists p E,
    dmul (to_double (S754_finite s m e)) (double_of_Z k) = S754_finite s p E /\
    (to_Q (S754_finite s p E) == inject_Z k * to_Q (S754_finite s m e))%Q.
Proof.
  intros Hv [Hk0 Hk].
  destruct (valid_float_bounds s m e Hv) as [Hdm He].
  destruct (to_double_float s m e Hv) as (pa & Hpa & Ha).
  destruct (double_of_Z_pos k) as (pb & Hpb & Hb); [lia|].
  assert (Hdk : Zdigits2 k <= 29) by (apply Zdigits2_le; lia).
  assert (Hdm0 : 0 < Zdigits2 (Zpos m)) by (cbn; lia).
  assert (Hdk0 : 0 < Zdigits2 k) by (destruct k; cbn; lia).
  set (dm := Zdigits2 (Zpos m)) in *. set (dk := Zdigits2 k) in *.
  set (D := Zdigits2 (Zpos m * k)).
  assert (HD : dm + dk - 1 <= D <= dm + dk) by (apply Zdigits2_mul; lia).
  assert (HP : Zpos (pa * pb) = Zpos m * k * 2 ^ (53 - D) * 2 ^ (D + 53 - dm - dk)).
  { rewrite Pos2Z.inj_mul, Hpa, Hpb.
    assert (E1 : 2 ^ (53 - dm) * 2 ^ (53 - dk) = 2 ^ (53 - D) * 2 ^ (D + 53 - dm - dk)).
    { rewrite <- !Z.pow_add_r by lia. f_equal. lia. }
    replace (Zpos m * 2 ^ (53 - dm) * (k * 2 ^ (53 - dk)))
      with (Zpos m * k * (2 ^ (53 - dm) * 2 ^ (53 - dk))) by ring.
    rewrite E1. ring. }
  assert (HdP : Zdigits2 (Zpos (pa * pb)) = 106 + D - dm - dk).
  { rewrite HP.
    assert (0 < 2 ^ (53 - D)) by pow2.
    rewrite Zdigits2_mul_pow2 by nia. rewrite Zdigits2_mul_pow2 by nia. fold D. lia. }
  rewrite Ha, Hb. unfold dmul.
  destruct (SFmul_exact 53 1024 s pa (e + dm - 53) false pb (dk - 53)) as (p & Hp & Hr).
  - rewrite HdP. unfold SpecFloat.fexp, SpecFloat.emin. lia.
  - rewrite HdP. unfold SpecFloat.fexp, SpecFloat.emin.
    replace (Z.max (106 + D - dm - dk + (e + dm - 53 + (dk - 53)) - 53) (3 - 1024 - 53)
             - (e + dm - 53 + (dk - 53))) with (D + 53 - dm - dk) by lia.
    rewrite HP. exists (Zpos m * k * 2 ^ (53 - D)). reflexivity.
  - rewrite HdP. unfold SpecFloat.fexp, SpecFloat.emin. lia.
  - rewrite HdP in Hp, Hr. unfold SpecFloat.fexp, SpecFloat.emin in Hp, Hr.
    replace (Z.max (106 + D - dm - dk + (e + dm - 53 + (dk - 53)) - 53) (3 - 1024 - 53))
      with (e + D - 53) in Hp, Hr by lia.
    replace (e + D - 53 - (e + dm - 53 + (dk - 53))) with (D + 53 - dm - dk) in Hp by lia.
    rewrite HP in Hp. rewrite Z.div_mul in Hp by pow2.
    rewrite xorb_false_r in Hr.
    exists p, (e + D - 53). split; [exact Hr|].
    destruct k as [|pk|pk]; try lia.
    assert (Hp' : Zpos p = Zpos (m * pk) * 2 ^ (53 - D)) by (rewrite Hp; reflexivity).
    replace (e + D - 53) with (e - (53 - D)) by lia.
    rewrite (to_Q_shift s p (m * pk) e (53 - D) Hp') by lia.
    cbn [to_Q]. rewrite Pos2Z.inj_mul.
    destruct s; cbn [cond_Zopp]; rewrite ?inject_Z_opp, inject_Z_mult; ring.
Qed.

(** The byte written for a non-negative level is the integer part of
    [level * k], reduced to eight bits. *)
Lemma scale_to_byte_floor v k :
  is_float v = true -> (0 <= to_Q v)%Q -> 0 < k < 2 ^ 29 ->
  Audio.scale_to_byte v k = Word.wrap8 (Qfloor (inject_Z k * to_Q v)).
Proof.
  intros Hf Hnn Hk. unfold Audio.scale_to_byte, to_uint8.
  destruct v as [s|s| |s m e]; try discriminate.
  - destruct (double_of_Z_pos k) as (pb & _ & Hb); [lia|]. rewrite Hb.
    unfold to_double, round_to, dmul. cbn [SFmul trunc to_Q].
    rewrite Qmult_0_r. reflexivity.
  - unfold is_float in Hf. apply andb_true_iff in Hf. destruct Hf as [_ Hv].
    destruct (scale_exact s m e k Hv Hk) as (p & E & Hr & Hq).
    pose proof (to_Q_sign s m e) as Hs. destruct s; [lra|].
    rewrite Hr, trunc_floor, Hq. reflexivity.
Qed.

Lemma scale_value v k :
  is_float v = true -> 0 < k < 2 ^ 29 ->
  (to_Q (dmul (to_double v) (double_of_Z k)) == inject_Z k * to_Q v)%Q.
Proof.
  intros Hf Hk. destruct v as [s|s| |s m e]; try discriminate.
  - destruct (double_of_Z_pos k) as (pb & _ & Hb); [lia|]. rewrite Hb.
    unfold to_double, round_to, dmul. cbn [SFmul to_Q]. rewrite Qmult_0_r. reflexivity.
  - unfold is_float in Hf. apply andb_true_iff in Hf. destruct Hf as [_ Hv].
    destruct (scale_exact s m e k Hv Hk) as (p & E & Hr & Hq).
    rewrite Hr. exact Hq.
Qed.

(** For a level in [0, 1] and a constant up to 255 the byte needs no
    reduction: it is the integer part of the product. *)
Lemma scale_to_byte_unit v k :
  in_unit v -> 0 < k <= 255 ->
  Audio.scale_to_byte v k = Qfloor (inject_Z k * to_Q v) /\
  0 <= Audio.scale_to_byte v k <= k /\
  (inject_Z (Audio.scale_to_byte v k) <= inject_Z k * to_Q v
   < inject_Z (Audio.scale_to_byte v k) + 1)%Q.
Proof.
  intros [Hf [H0 H1]] Hk.
  rewrite scale_to_byte_floor by (try assumption; lia).
  assert (HkQ : (0 < inject_Z k)%Q) by (apply inject_Z_pos; lia).
  assert (Hlo : (inject_Z 0 <= inject_Z k * to_Q v)%Q).
  { change (inject_Z 0) with 0%Q. apply Qmult_le_0_compat; lra. }
  assert (Hhi : (inject_Z k * to_Q v <= inject_Z k)%Q).
  { setoid_replace (inject_Z k) with (inject_Z k * 1)%Q at 2 by ring.
    apply Qmult_le_l; assumption. }
  apply Qfloor_resp_le in Hlo, Hhi. rewrite Qfloor_Z in Hlo, Hhi.
  set (z := Qfloor (inject_Z k * to_Q v)) in *.
  assert (Hw : Word.wrap8 z = z) by (unfold Word.wrap8; apply Z.mod_small; lia).
  rewrite Hw. split; [reflexivity|]. split; [lia|].
  pose proof (Qfloor_le (inject_Z k * to_Q v)) as Ha.
  pose proof (Qlt_floor (inject_Z k * to_Q v)) as Hb.
  fold z in Ha, Hb. rewrite inject_Z_plus in Hb. change (inject_Z 1) with 1%Q in Hb.
  split; assumption.
Qed.

End RoundingFacts.

(** ** The sync packet: quantisation and round trip *)

Section CodecFacts.
Import Word Ieee Audio MusicReactiveEffectUDP.

(** Every byte decodes to a level in range, which lies between the byte and
    the next one on the scale of 255.  Checked for the 256 bytes. *)
Lemma level_of_byte_table :
  forallb (fun b =>
             is_float (level_of_byte b)
             && Qle_bool 0 (to_Q (level_of_byte b))
             && Qle_bool (to_Q (level_of_byte b)) 1
             && Qle_bool (inject_Z b) (255 * to_Q (level_of_byte b))
             && Qle_bool (255 * to_Q (level_of_byte b)) (inject_Z (b + 1)))
          (map Z.of_nat (seq 0 256)) = true.
Proof. vm_compute. reflexivity. Qed.

Lemma level_of_byte_bounds b :
  0 <= b <= 255 ->
  in_unit (level_of_byte b) /\
  (inject_Z b <= 255 * to_Q (level_of_byte b) <= inject_Z (b + 1))%Q.
Proof.
  intros Hb. pose proof level_of_byte_table as H.
  rewrite forallb_forall in H. specialize (H b).
  assert (Hin : In b (map Z.of_nat (seq 0 256))).
  { replace b with (Z.of_nat (Z.to_nat b)) by lia. apply in_map, in_seq. lia. }
  specialize (H Hin).
  repeat (apply andb_true_iff in H; destruct H as [H ?]).
  repeat match goal with Hq : Qle_bool _ _ = true |- _ => apply Qle_bool_iff in Hq end.
  unfold in_unit, is_float.
  repeat split; try assumption. apply andb_true_iff. split; assumption.
Qed.

End CodecFacts.

(** ** The sync packet and the slave loop *)

Section SlaveFacts.
Import Word Ieee Audio MusicReactiveEffectUDP.

(** C2. A datagram of at least 24 bytes whose first two bytes are not 'A',
    'S' is refused by [receive_audio_data] with the warning "Invalid packet
    header", and the component is left as it was: levels, [packet_count] and
    [last_packet_time] included.  They are still the same after the call of
    [slave_loop] that found the datagram. *)
Theorem invalid_header_leaves_state (s : t) (buf : list Z) (now : Z) :
  UDP_PACKET_SIZE <= Z.of_nat (List.length buf) ->
  (nth 0 buf 0, nth 1 buf 0) <> (65, 83) ->
  receive_audio_data s buf now = (s, [LogW "Invalid packet header"]) /\
  (forall i, datagram i = buf -> rx_time i = now ->
     let s1 := fst (slave_loop s i) in
     volume s1 = volume s /\ bass_level s1 = bass_level s /\
     mid_level s1 = mid_level s /\ treble_level s1 = treble_level s /\
     packet_count s1 = packet_count s /\
     last_packet_time s1 = last_packet_time s).
Proof.
  intros Hlen Hne.
  assert (Hrx : receive_audio_data s buf now = (s, [LogW "Invalid packet header"])).
  { unfold receive_audio_data.
    cbn [AudioSyncPacket.of_bytes AudioSyncPacket.header fst snd].
    destruct (Z.eqb_spec (nth 0 buf 0) 65) as [H0|H0];
      destruct (Z.eqb_spec (nth 1 buf 0) 83) as [H1|H1]; cbn [negb orb];
      try reflexivity.
    exfalso. apply Hne. rewrite H0, H1. reflexivity. }
  split; [exact Hrx|].
  intros i Hd Ht. unfold slave_loop. rewrite Hd, Ht, Hrx.
  apply Z.leb_le in Hlen. rewrite Hlen.
  destruct (50 <=? sub32 (MusicReactiveEffectUDP.now i) (last_update s));
    match goal with |- context [if ?c then _ else _] => destruct c end;
    cbn; auto 10.
Qed.

Lemma invalid_header_leaves_state_witness :
  UDP_PACKET_SIZE <= Z.of_nat (List.length (66 :: 83 :: repeat 200 22)) /\
  receive_audio_data (create false) (66 :: 83 :: repeat 200 22) 5
    = (create false, [LogW "Invalid packet header"]).
Proof.
  split; [vm_compute; discriminate|].
  apply (invalid_header_leaves_state (create false) (66 :: 83 :: repeat 200 22) 5).
  - vm_compute. discriminate.
  - cbn. intros H. discriminate H.
Defined.

Lemma receive_valid s buf now :
  nth 0 buf 0 = 65 -> nth 1 buf 0 = 83 ->
  receive_audio_data s buf now =
    (set_packet_stats
       (set_levels s (level_of_byte (nth 2 buf 0)) (level_of_byte (nth 3 buf 0))
                     (level_of_byte (nth 4 buf 0)) (level_of_byte (nth 5 buf 0)))
       (add32 (packet_count s) 1) now, []).
Proof.
  intros H0 H1. unfold receive_audio_data.
  cbn [AudioSyncPacket.of_bytes AudioSyncPacket.header AudioSyncPacket.volume
       AudioSyncPacket.bass AudioSyncPacket.mid AudioSyncPacket.treble fst snd].
  rewrite H0, H1. reflexivity.
Qed.

Lemma receive_last_update s buf now :
  last_update (fst (receive_audio_data s buf now)) = last_update s /\
  is_master (fst (receive_audio_data s buf now)) = is_master s /\
  color_commands (snd (receive_audio_data s buf now)) = 0%nat.
Proof.
  unfold receive_audio_data.
  destruct (negb _ || negb _); cbn; auto.
Qed.

Lemma color_commands_app a b :
  color_commands (a ++ b) = (color_commands a + color_commands b)%nat.
Proof. unfold color_commands. rewrite filter_app, length_app. reflexivity. Qed.

Lemma send_color_command_once s : color_commands (send_color_command s) = 1%nat.
Proof.
  unfold send_color_command, send_mesh_command. destruct (controller s); reflexivity.
Qed.

Lemma update_sensors_none s : color_commands (update_sensors s) = 0%nat.
Proof. reflexivity. Qed.

(** What [slave_loop] does to the rate limiter. *)
Lemma slave_loop_dispatch s i :
  let go := (UDP_PACKET_SIZE <=? Z.of_nat (List.length (datagram i)))
            && (50 <=? sub32 (now i) (last_update s)) in
  color_commands (snd (slave_loop s i)) = (if go then 1 else 0)%nat /\
  last_update (fst (slave_loop s i)) = (if go then now i else last_update s) /\
  is_master (fst (slave_loop s i)) = is_master s.
Proof.
  unfold slave_loop.
  destruct (UDP_PACKET_SIZE <=? Z.of_nat (List.length (datagram i))); cbn [andb].
  - destruct (receive_last_update s (datagram i) (rx_time i)) as (Hl & Hm & Hc).
    destruct (receive_audio_data s (datagram i) (rx_time i)) as [s1 ev1].
    cbn [fst snd] in Hl, Hm, Hc. rewrite Hl.
    destruct (50 <=? sub32 (now i) (last_update s));
      match goal with |- context [if ?c then _ else _] => destruct c end;
      cbn [fst snd]; rewrite ?color_commands_app, ?send_color_command_once,
        ?update_sensors_none, ?Hc; cbn; auto.
  - match goal with |- context [if ?c then _ else _] => destruct c end; cbn; auto.
Qed.

Lemma loop_dispatch s i :
  is_master s = false ->
  let go := running s
            && (UDP_PACKET_SIZE <=? Z.of_nat (List.length (datagram i)))
            && (50 <=? sub32 (now i) (last_update s)) in
  color_commands (snd (loop s i)) = (if go then 1 else 0)%nat /\
  last_update (fst (loop s i)) = (if go then now i else last_update s) /\
  is_master (fst (loop s i)) = false.
Proof.
  intros Hm. unfold loop. rewrite Hm.
  destruct (running s); cbn [negb andb]; [|cbn; auto].
  destruct (slave_loop_dispatch s i) as (H1 & H2 & H3).
  rewrite H1, H2, H3. auto.
Qed.

(** Once a command went out at [t0], later ones come no sooner than 50 ms
    after it, and no closer than 50 ms to each other. *)
Lemma dispatch_times_after calls : forall s t0,
  is_master s = false ->
  last_update s = wrap32 t0 ->
  StronglySorted Z.le (t0 :: map fst calls) ->
  Forall (fun c => now (snd c) = wrap32 (fst c)) calls ->
  Forall (fun time => t0 + 50 <= time) (dispatch_times s calls) /\
  spaced 50 (dispatch_times s calls).
Proof.
  induction calls as [|[time i] rest IH]; intros s t0 Hm Hlu Hs Hn.
  - cbn. auto.
  - cbn [dispatch_times].
    destruct (loop_dispatch s i Hm) as (Hc & Hl & Hm').
    destruct (loop s i) as [s1 evs]. cbn [fst snd] in Hc, Hl, Hm'.
    inversion Hn as [|? ? Hni Hnr]; subst. cbn [fst snd] in Hni.
    inversion Hs as [|? ? Hs' Hall]; subst.
    cbn [map fst] in Hs', Hall.
    inversion Hall as [|? ? Hle Hall']; subst.
    inversion Hs' as [|? ? Hs'' Hall'']; subst.
    destruct (running s && (UDP_PACKET_SIZE <=? Z.of_nat (List.length (datagram i)))
              && (50 <=? sub32 (now i) (last_update s))) eqn:Hgo.
    + rewrite Hc. cbn [Nat.ltb Nat.leb app].
      apply andb_true_iff in Hgo. destruct Hgo as [_ Hgo]. apply Z.leb_le in Hgo.
      rewrite Hni, Hlu in Hgo. apply sub32_lower in Hgo; [|exact Hle].
      destruct (IH s1 time Hm') as [Hafter Hsp].
      * rewrite Hl. exact Hni.
      * constructor; assumption.
      * exact Hnr.
      * split.
        -- constructor; [lia|]. eapply Forall_impl; [|exact Hafter]. cbn. intros; lia.
        -- destruct (dispatch_times s1 rest) as [|b tl] eqn:Hd; [exact I|].
           split; [|exact Hsp]. inversion Hafter; subst. assumption.
    + rewrite Hc. cbn [Nat.ltb Nat.leb app].
      apply (IH s1 t0 Hm').
      * rewrite Hl. exact Hlu.
      * constructor; assumption.
      * exact Hnr.
Qed.

Lemma dispatch_times_spaced calls : forall s,
  is_master s = false ->
  StronglySorted Z.le (map fst calls) ->
  Forall (fun c => now (snd c) = wrap32 (fst c)) calls ->
  spaced 50 (dispatch_times s calls).
Proof.
  induction calls as [|[time i] rest IH]; intros s Hm Hs Hn.
  - exact I.
  - cbn [dispatch_times].
    destruct (loop_dispatch s i Hm) as (Hc & Hl & Hm').
    destruct (loop s i) as [s1 evs]. cbn [fst snd] in Hc, Hl, Hm'.
    inversion Hn as [|? ? Hni Hnr]; subst. cbn [fst snd] in Hni.
    cbn [map fst] in Hs.
    destruct (running s && (UDP_PACKET_SIZE <=? Z.of_nat (List.length (datagram i)))
              && (50 <=? sub32 (now i) (last_update s))) eqn:Hgo.
    + rewrite Hc. cbn [Nat.ltb Nat.leb app].
      destruct (dispatch_times_after rest s1 time Hm') as [Hafter Hsp].
      * rewrite Hl. exact Hni.
      * exact Hs.
      * exact Hnr.
      * destruct (dispatch_times s1 rest) as [|b tl] eqn:Hd; [exact I|].
        split; [|exact Hsp]. inversion Hafter; subst. assumption.
    + rewrite Hc. cbn [Nat.ltb Nat.leb app].
      inversion Hs; subst. apply (IH s1 Hm'); assumption.
Qed.

(** C7. In the slave role every call of [loop] that finds a valid packet
    stores the four decoded levels, adds one to [packet_count] and records the
    time of receipt in [last_packet_time]; a call issues at most one colour
    command; and over any sequence of calls, with any packets arriving at any
    rate, two successive colour commands are at least 50 ms apart. *)
Theorem slave_updates_and_rate_limit (s : t) :
  is_master s = false ->
  (forall i,
     running s = true -> valid_packet (datagram i) ->
     let s1 := fst (loop s i) in
     volume s1 = level_of_byte (nth 2 (datagram i) 0) /\
     bass_level s1 = level_of_byte (nth 3 (datagram i) 0) /\
     mid_level s1 = level_of_byte (nth 4 (datagram i) 0) /\
     treble_level s1 = level_of_byte (nth 5 (datagram i) 0) /\
     packet_count s1 = add32 (packet_count s) 1 /\
     last_packet_time s1 = rx_time i) /\
  (forall i, (color_commands (snd (loop s i)) <= 1)%nat) /\
  (forall calls,
     StronglySorted Z.le (map fst calls) ->
     Forall (fun c => now (snd c) = wrap32 (fst c)) calls ->
     spaced 50 (dispatch_times s calls)).
Proof.
  intros Hm. split; [|split].
  - intros i Hr (Hlen & H0 & H1). unfold loop. rewrite Hr, Hm. cbn [negb].
    unfold slave_loop. apply Z.leb_le in Hlen. rewrite Hlen.
    rewrite (receive_valid s (datagram i) (rx_time i) H0 H1).
    match goal with |- context [if 50 <=? ?x then _ else _] => destruct (50 <=? x) end;
      match goal with |- context [if ?c then _ else _] => destruct c end;
      cbn; auto 10.
  - intros i. destruct (loop_dispatch s i Hm) as (Hc & _). rewrite Hc.
    match goal with |- context [if ?c then _ else _] => destruct c end; lia.
  - intros calls Hs Hn. apply dispatch_times_spaced; assumption.
Qed.

Lemma slave_updates_and_rate_limit_witness :
  is_master (start (set_controller (create false))) = false /\
  spaced 50
    (dispatch_times (start (set_controller (create false)))
       [(100, mk_input (65 :: 83 :: repeat 128 22) 100 100 100 []);
        (120, mk_input (65 :: 83 :: repeat 255 22) 120 120 120 []);
        (160, mk_input (65 :: 83 :: repeat 0 22) 160 160 160 [])]).
Proof.
  split; [reflexivity|].
  apply (proj2 (proj2 (slave_updates_and_rate_limit
                         (start (set_controller (create false))) eq_refl))).
  - repeat first [apply SSorted_nil | apply SSorted_cons
                 | apply Forall_nil | apply Forall_cons | cbn; lia].
  - repeat first [apply Forall_nil | apply Forall_cons | reflexivity].
Defined.

End SlaveFacts.

(** ** Round trip and quantisation *)

Ltac in_unit_by_computation :=
  split; [vm_compute; reflexivity|split; vm_compute; discriminate].

Section CodecTheorems.
Import Word Ieee Audio MusicReactiveEffectUDP.

Lemma audio_packet_bytes s :
  exists bins,
    AudioSyncPacket.to_bytes (audio_packet s) =
      65 :: 83 :: scale_to_byte (volume s) 255 :: scale_to_byte (bass_level s) 255
         :: scale_to_byte (mid_level s) 255 :: scale_to_byte (treble_level s) 255
         :: bins /\
    List.length bins = 18%nat.
Proof.
  unfold AudioSyncPacket.to_bytes, audio_packet.
  cbn [AudioSyncPacket.header AudioSyncPacket.volume AudioSyncPacket.bass
       AudioSyncPacket.mid AudioSyncPacket.treble AudioSyncPacket.fft_bins fst snd app].
  eexists. split; [reflexivity|].
  rewrite length_firstn, length_app, length_map, repeat_length. reflexivity.
Qed.

Lemma round_trip_level v :
  in_unit v ->
  (Qabs (to_Q (level_of_byte (scale_to_byte v 255)) - to_Q v) <= 1 # 255)%Q.
Proof.
  intros Hv. destruct (scale_to_byte_unit v 255 Hv) as (_ & Hb & Hq); [lia|].
  destruct (level_of_byte_bounds (scale_to_byte v 255) Hb) as [_ Hl].
  rewrite inject_Z_plus in Hl. change (inject_Z 1) with 1%Q in Hl.
  change (inject_Z 255) with 255%Q in Hq.
  apply Qabs_Qle_condition. split; lra.
Qed.

(** C1. A component whose four levels are in [0, 1] broadcasts a packet of
    24 bytes that [receive_audio_data] accepts, and each of the levels it
    stores is within 1/255 of the level that was sent. *)
Theorem sync_round_trip (s r : t) (now : Z) :
  in_unit (volume s) -> in_unit (bass_level s) ->
  in_unit (mid_level s) -> in_unit (treble_level s) ->
  let packet := AudioSyncPacket.to_bytes (audio_packet s) in
  let r1 := fst (receive_audio_data r packet now) in
  List.length packet = 24%nat /\
  snd (receive_audio_data r packet now) = [] /\
  (Qabs (to_Q (volume r1) - to_Q (volume s)) <= 1 # 255)%Q /\
  (Qabs (to_Q (bass_level r1) - to_Q (bass_level s)) <= 1 # 255)%Q /\
  (Qabs (to_Q (mid_level r1) - to_Q (mid_level s)) <= 1 # 255)%Q /\
  (Qabs (to_Q (treble_level r1) - to_Q (treble_level s)) <= 1 # 255)%Q.
Proof.
  intros Hv Hb Hm Ht packet r1. subst r1 packet.
  destruct (audio_packet_bytes s) as (bins & -> & Hlen).
  rewrite receive_valid by reflexivity.
  cbn [fst snd nth List.length volume bass_level mid_level treble_level
       set_packet_stats set_levels].
  rewrite Hlen. split; [reflexivity|]. split; [reflexivity|].
  repeat split; apply round_trip_level; assumption.
Qed.


Lemma sync_round_trip_witness :
  in_unit (float_lit 1 2) /\ in_unit (float_lit 9 10) /\
  in_unit (float_lit 1 10) /\ in_unit (float_lit 1 3) /\
  (Qabs (to_Q (bass_level
                 (fst (receive_audio_data (create false)
                         (AudioSyncPacket.to_bytes
                            (audio_packet
                               (set_levels (create true) (float_lit 1 2) (float_lit 9 10)
                                  (float_lit 1 10) (float_lit 1 3))))
                         40)))
         - to_Q (float_lit 9 10)) <= 1 # 255)%Q.
Proof.
  assert (H1 : in_unit (float_lit 1 2)) by in_unit_by_computation.
  assert (H2 : in_unit (float_lit 9 10)) by in_unit_by_computation.
  assert (H3 : in_unit (float_lit 1 10)) by in_unit_by_computation.
  assert (H4 : in_unit (float_lit 1 3)) by in_unit_by_computation.
  refine (conj H1 (conj H2 (conj H3 (conj H4 _)))).
  exact (proj1 (proj2 (proj2 (proj2
    (sync_round_trip
       (set_levels (create true) (float_lit 1 2) (float_lit 9 10)
          (float_lit 1 10) (float_lit 1 3))
       (create false) 40 H1 H2 H3 H4))))).
Defined.

(** C5 (as amended). The byte written for a level in [0, 1] is the integer
    part of [level * 255]: the conversion to [uint8_t] truncates, it does not
    round to the nearest integer. *)
Theorem quantize_truncates (s : t) :
  in_unit (volume s) -> in_unit (bass_level s) ->
  in_unit (mid_level s) -> in_unit (treble_level s) ->
  let p := audio_packet s in
  AudioSyncPacket.header p = (65, 83) /\
  AudioSyncPacket.volume p = Qfloor (255 * to_Q (volume s)) /\
  AudioSyncPacket.bass p = Qfloor (255 * to_Q (bass_level s)) /\
  AudioSyncPacket.mid p = Qfloor (255 * to_Q (mid_level s)) /\
  AudioSyncPacket.treble p = Qfloor (255 * to_Q (treble_level s)) /\
  0 <= AudioSyncPacket.volume p <= 255 /\ 0 <= AudioSyncPacket.bass p <= 255 /\
  0 <= AudioSyncPacket.mid p <= 255 /\ 0 <= AudioSyncPacket.treble p <= 255.
Proof.
  intros Hv Hb Hm Ht p. subst p. unfold audio_packet.
  cbn [AudioSyncPacket.header AudioSyncPacket.volume AudioSyncPacket.bass
       AudioSyncPacket.mid AudioSyncPacket.treble].
  destruct (scale_to_byte_unit _ 255 Hv) as (E1 & R1 & _); [lia|].
  destruct (scale_to_byte_unit _ 255 Hb) as (E2 & R2 & _); [lia|].
  destruct (scale_to_byte_unit _ 255 Hm) as (E3 & R3 & _); [lia|].
  destruct (scale_to_byte_unit _ 255 Ht) as (E4 & R4 & _); [lia|].
  change (inject_Z 255) with 255%Q in *.
  repeat split; try assumption; lia.
Qed.

Lemma quantize_truncates_witness :
  in_unit (float_lit 1 2) /\ in_unit (float_lit 3 8) /\
  in_unit (float_lit 1 10) /\ in_unit (float_lit 1 3) /\
  AudioSyncPacket.bass
    (audio_packet (set_levels (create true) (float_lit 1 2) (float_lit 3 8)
                     (float_lit 1 10) (float_lit 1 3)))
  = Qfloor (255 * to_Q (float_lit 3 8)).
Proof.
  assert (H1 : in_unit (float_lit 1 2)) by in_unit_by_computation.
  assert (H2 : in_unit (float_lit 3 8)) by in_unit_by_computation.
  assert (H3 : in_unit (float_lit 1 10)) by in_unit_by_computation.
  assert (H4 : in_unit (float_lit 1 3)) by in_unit_by_computation.
  refine (conj H1 (conj H2 (conj H3 (conj H4 _)))).
  exact (proj1 (proj2 (proj2
    (quantize_truncates
       (set_levels (create true) (float_lit 1 2) (float_lit 3 8)
          (float_lit 1 10) (float_lit 1 3)) H1 H2 H3 H4)))).
Defined.

(** C5 as stated fails: the level 0.375 is in range, [0.375 * 255] is
    95.625, whose nearest integer is 96, and the byte written is 95. *)
Lemma quantize_not_nearest :
  in_unit (float_lit 3 8) /\
  (to_Q (float_lit 3 8) == 3 # 8)%Q /\
  AudioSyncPacket.volume
    (audio_packet (set_levels (create true) (float_lit 3 8) fzero fzero fzero)) = 95 /\
  (Qabs (255 * to_Q (float_lit 3 8) - 96) < Qabs (255 * to_Q (float_lit 3 8) - 95))%Q.
Proof.
  split; [in_unit_by_computation|].
  split; [vm_compute; reflexivity|].
  split; vm_compute; reflexivity.
Qed.

End CodecTheorems.

(** ** Colour mapping *)

Section ColorFacts.
Import Word Ieee Audio.

Lemma scaled_level_le v k :
  in_unit v -> 0 < k < 2 ^ 29 ->
  (to_Q (dmul (to_double v) (double_of_Z k)) <= inject_Z k)%Q.
Proof.
  intros [Hf [H0 H1]] Hk. rewrite scale_value by assumption.
  assert (HkQ : (0 < inject_Z k)%Q) by (apply inject_Z_pos; lia).
  setoid_replace (inject_Z k) with (inject_Z k * 1)%Q at 2 by ring.
  apply Qmult_le_l; assumption.
Qed.

(** C8 (as amended). With levels in [0, 1] and the bass at most 0.6, the
    Bass Pulse products [mid * 50] and [treble * 150] are at most 50 and 150:
    neither exceeds 255, and the three bytes are the integer parts of
    [bass * 100], [mid * 50] and [treble * 150] with no reduction modulo 256. *)
Theorem bass_pulse_channels_fit (bass mid treble : spec_float) :
  in_unit bass -> in_unit mid -> in_unit treble ->
  gt (to_double bass) (double_lit 6 10) = false ->
  (to_Q (dmul (to_double mid) (double_of_Z 50)) <= 50)%Q /\
  (to_Q (dmul (to_double treble) (double_of_Z 150)) <= 150)%Q /\
  bass_pulse bass mid treble =
    (Qfloor (100 * to_Q bass), Qfloor (50 * to_Q mid), Qfloor (150 * to_Q treble)) /\
  0 <= Qfloor (100 * to_Q bass) <= 100 /\
  0 <= Qfloor (50 * to_Q mid) <= 50 /\
  0 <= Qfloor (150 * to_Q treble) <= 150.
Proof.
  intros Hb Hm Ht Hgt. unfold bass_pulse. rewrite Hgt.
  destruct (scale_to_byte_unit bass 100 Hb) as (E1 & R1 & _); [lia|].
  destruct (scale_to_byte_unit mid 50 Hm) as (E2 & R2 & _); [lia|].
  destruct (scale_to_byte_unit treble 150 Ht) as (E3 & R3 & _); [lia|].
  pose proof (scaled_level_le mid 50 Hm) as L2.
  pose proof (scaled_level_le treble 150 Ht) as L3.
  change (inject_Z 100) with 100%Q in *. change (inject_Z 50) with 50%Q in *.
  change (inject_Z 150) with 150%Q in *.
  rewrite E1, E2, E3 in *.
  repeat split; try lia; [apply L2; lia|apply L3; lia].
Qed.

Lemma bass_pulse_channels_fit_witness :
  in_unit (float_lit 1 2) /\ in_unit (float_lit 1 1) /\ in_unit (float_lit 1 1) /\
  gt (to_double (float_lit 1 2)) (double_lit 6 10) = false /\
  bass_pulse (float_lit 1 2) (float_lit 1 1) (float_lit 1 1) =
    (Qfloor (100 * to_Q (float_lit 1 2)), Qfloor (50 * to_Q (float_lit 1 1)),
     Qfloor (150 * to_Q (float_lit 1 1))).
Proof.
  assert (H1 : in_unit (float_lit 1 2)) by in_unit_by_computation.
  assert (H2 : in_unit (float_lit 1 1)) by in_unit_by_computation.
  assert (H3 : gt (to_double (float_lit 1 2)) (double_lit 6 10) = false)
    by (vm_compute; reflexivity).
  refine (conj H1 (conj H2 (conj H2 (conj H3 _)))).
  exact (proj1 (proj2 (proj2
    (bass_pulse_channels_fit (float_lit 1 2) (float_lit 1 1) (float_lit 1 1)
       H1 H2 H2 H3)))).
Defined.

(** C8 as stated fails: no levels in [0, 1] make [mid * 50] or
    [treble * 150] exceed 255. *)
Lemma bass_pulse_never_exceeds_255 :
  ~ exists bass mid treble : spec_float,
      in_unit bass /\ in_unit mid /\ in_unit treble /\
      gt (to_double bass) (double_lit 6 10) = false /\
      ((255 < to_Q (dmul (to_double mid) (double_of_Z 50)))%Q \/
       (255 < to_Q (dmul (to_double treble) (double_of_Z 150)))%Q).
Proof.
  intros (bass & mid & treble & Hb & Hm & Ht & _ & [H|H]).
  - pose proof (scaled_level_le mid 50 Hm) as L. change (inject_Z 50) with 50%Q in L.
    assert (0 < 50 < 2 ^ 29) by lia. specialize (L H0). lra.
  - pose proof (scaled_level_le treble 150 Ht) as L. change (inject_Z 150) with 150%Q in L.
    assert (0 < 150 < 2 ^ 29) by lia. specialize (L H0). lra.
Qed.

(** C9. With bass 0.9, mid 0.1 and treble 0.1 the RGB Frequency mode of
    both effects computes (229, 25, 25): each channel is the integer part of
    its level times 255, which is within one unit of the targets
    (230, 26, 26). *)
Theorem rgb_frequency_scenario
    (s : MusicReactiveEffectUDP.t) (s0 : MusicReactiveEffect.t) :
  MusicReactiveEffectUDP.color_mode s = "RGB Frequency"%string ->
  MusicReactiveEffectUDP.bass_level s = float_lit 9 10 ->
  MusicReactiveEffectUDP.mid_level s = float_lit 1 10 ->
  MusicReactiveEffectUDP.treble_level s = float_lit 1 10 ->
  MusicReactiveEffect.color_mode s0 = "RGB Frequency"%string ->
  MusicReactiveEffect.bass_level s0 = float_lit 9 10 ->
  MusicReactiveEffect.mid_level s0 = float_lit 1 10 ->
  MusicReactiveEffect.treble_level s0 = float_lit 1 10 ->
  approx_rgb (MusicReactiveEffectUDP.color_rgb s) (230, 26, 26) /\
  approx_rgb (MusicReactiveEffect.color_rgb s0) (230, 26, 26) /\
  MusicReactiveEffectUDP.color_rgb s = (229, 25, 25) /\
  MusicReactiveEffect.color_rgb s0 = (229, 25, 25) /\
  229 = Qfloor (255 * to_Q (float_lit 9 10)) /\
  25 = Qfloor (255 * to_Q (float_lit 1 10)).
Proof.
  intros Hmode Hb Hm Ht Hmode0 Hb0 Hm0 Ht0.
  assert (H1 : MusicReactiveEffectUDP.color_rgb s = (229, 25, 25)).
  { unfold MusicReactiveEffectUDP.color_rgb. rewrite Hmode, Hb, Hm, Ht.
    vm_compute. reflexivity. }
  assert (H2 : MusicReactiveEffect.color_rgb s0 = (229, 25, 25)).
  { unfold MusicReactiveEffect.color_rgb. rewrite Hmode0, Hb0, Hm0, Ht0.
    vm_compute. reflexivity. }
  rewrite H1, H2.
  repeat split; vm_compute; try reflexivity; discriminate.
Qed.

Lemma rgb_frequency_scenario_witness :
  approx_rgb
    (MusicReactiveEffectUDP.color_rgb
       (MusicReactiveEffectUDP.set_levels (MusicReactiveEffectUDP.create true)
          (float_lit 1 2) (float_lit 9 10) (float_lit 1 10) (float_lit 1 10)))
    (230, 26, 26) /\
  approx_rgb
    (MusicReactiveEffect.color_rgb
       (MusicReactiveEffect.mk [] (float_lit 9 10) (float_lit 1 10) (float_lit 1 10)
          (float_lit 1 1) (float_lit 10 1) true "RGB Frequency" (42, 168) 0))
    (230, 26, 26).
Proof.
  pose proof (rgb_frequency_scenario
    (MusicReactiveEffectUDP.set_levels (MusicReactiveEffectUDP.create true)
       (float_lit 1 2) (float_lit 9 10) (float_lit 1 10) (float_lit 1 10))
    (MusicReactiveEffect.mk [] (float_lit 9 10) (float_lit 1 10) (float_lit 1 10)
       (float_lit 1 1) (float_lit 10 1) true "RGB Frequency" (42, 168) 0)
    eq_refl eq_refl eq_refl eq_refl eq_refl eq_refl eq_refl eq_refl) as H.
  split; [exact (proj1 H)|exact (proj1 (proj2 H))].
Defined.

End ColorFacts.

(** ** Link status *)

Section StatusFacts.
Import Word Ieee Audio MusicReactiveEffectUDP.

(** C10. In the slave role, asking for the status in the millisecond in
    which [last_packet_time] was recorded passes the "< 2000" test with an
    elapsed time of 0 and divides 1000.0 by it: the quotient is +infinity,
    whose conversion to [int] is undefined.  This happens right after any
    valid packet. *)
Theorem status_divides_by_zero (s : t) :
  is_master s = false ->
  sub32 (last_packet_time s) (last_packet_time s) = 0 /\
  fps_quotient s (last_packet_time s) = S754_infinity false /\
  get_status s (last_packet_time s) (last_packet_time s) = Receiving None /\
  (forall buf now,
     nth 0 buf 0 = 65 -> nth 1 buf 0 = 83 ->
     get_status (fst (receive_audio_data s buf now)) now now = Receiving None).
Proof.
  intros Hm.
  assert (Hq : forall s' : t, fps_quotient s' (last_packet_time s') = S754_infinity false).
  { intros s'. unfold fps_quotient. rewrite sub32_diag. vm_compute. reflexivity. }
  assert (Hs : forall s' : t, is_master s' = false ->
             get_status s' (last_packet_time s') (last_packet_time s') = Receiving None).
  { intros s' Hm'. unfold get_status. rewrite Hm', sub32_diag, Hq. reflexivity. }
  split; [apply sub32_diag|]. split; [apply Hq|]. split; [apply Hs; exact Hm|].
  intros buf now H0 H1. rewrite receive_valid by assumption. cbn [fst].
  apply (Hs (set_packet_stats _ _ now)). exact Hm.
Qed.

Lemma status_divides_by_zero_witness :
  is_master (create false) = false /\
  get_status (create false) 0 0 = Receiving None.
Proof.
  split; [reflexivity|].
  exact (proj1 (proj2 (proj2 (status_divides_by_zero (create false) eq_refl)))).
Defined.

End StatusFacts.

(** ** Spectral analysis *)

Section AnalysisFacts.
Import Word Ieee Audio.

Lemma round_to_mag_le prec emax J x :
  0 < prec -> prec < emax ->
  mag_le J x -> SpecFloat.emin prec emax <= J < emax ->
  mag_le J (round_to prec emax x).
Proof.
  intros Hp He Hx HJ. destruct x as [s|s| |s m e]; try contradiction; [exact I|].
  cbn [round_to]. apply binary_round_mag_le; assumption.
Qed.

Lemma round_to_not_nan prec emax x :
  is_nan x = false -> is_nan (round_to prec emax x) = false.
Proof.
  destruct x as [s|s| |s m e]; try discriminate; try reflexivity. intros _.
  cbn [round_to]. pose proof (binary_round_cases prec emax s m e) as H.
  destruct (binary_round prec emax s m e); try reflexivity. contradiction.
Qed.

(** A band sum of [count] entries of magnitude at most [2 ^ K] has
    magnitude at most [2 ^ (K + count)]. *)
Lemma accumulate_mag_le vReal K :
  (forall i, mag_le K (nth i vReal (S754_zero false))) ->
  forall count first acc J,
    mag_le J acc -> K <= J -> -149 <= J -> J + Z.of_nat count < 128 ->
    mag_le (J + Z.of_nat count) (accumulate vReal first count acc).
Proof.
  intros Hv. induction count as [|n IH]; intros first acc J Hacc HK Hlo Hhi.
  - cbn. replace (J + 0) with J by lia. exact Hacc.
  - unfold accumulate in *. cbn [seq fold_left].
    replace (J + Z.of_nat (S n)) with (J + 1 + Z.of_nat n) by lia.
    apply IH; try lia.
    apply round_to_mag_le; try lia; [|unfold SpecFloat.emin; lia].
    apply (SFadd_mag_le 53 1024) with (Jx := J) (Jy := K); try lia.
    + apply round_to_mag_le; try lia; [exact Hacc|unfold SpecFloat.emin; lia].
    + apply Hv.
    + unfold SpecFloat.emin; lia.
Qed.

Lemma band_average_mag_le vReal K first count n :
  (forall i, mag_le K (nth i vReal (S754_zero false))) ->
  2 <= n < 2 ^ 53 -> -149 < K -> K + Z.of_nat count < 128 ->
  mag_le (K + Z.of_nat count) (band_average vReal first count n).
Proof.
  intros Hv Hn Hlo Hhi. unfold band_average.
  destruct (double_of_Z_pos n) as (p & Hp & ->); [lia|].
  assert (Hdn : 2 <= Zdigits2 n) by (apply Zdigits2_ge; cbn; lia).
  assert (Hdn' : Zdigits2 n <= 53) by (apply Zdigits2_le; lia).
  apply round_to_mag_le; try lia; [|unfold SpecFloat.emin; lia].
  apply (SFdiv_mag_le 53 1024); try lia.
  - apply round_to_mag_le; try lia; [|unfold SpecFloat.emin; lia].
    apply (accumulate_mag_le vReal K Hv); try lia. exact I.
  - rewrite Hp. replace (1 - (Zdigits2 n - 53)) with (1 + (53 - Zdigits2 n)) by lia.
    rewrite Z.pow_add_r by lia. change (2 ^ 1) with 2.
    apply Z.mul_le_mono_nonneg_r; [apply Z.pow_nonneg|]; lia.
  - unfold SpecFloat.emin; lia.
Qed.

Lemma compare_finite x y :
  is_finite x = true -> is_finite y = true ->
  compare x y = Some (to_Q x ?= to_Q y)%Q.
Proof.
  destruct x as [sx|sx| |sx mx ex]; try discriminate;
    destruct y as [sy|sy| |sy my ey]; try discriminate; reflexivity.
Qed.

Lemma lt_false x y :
  is_finite x = true -> is_finite y = true ->
  lt x y = false -> (to_Q y <= to_Q x)%Q.
Proof.
  intros Hx Hy. unfold lt. rewrite (compare_finite x y Hx Hy).
  destruct (Qcompare _ _) eqn:Hc; try discriminate; intros _.
  - apply Qeq_alt in Hc. lra.
  - apply Qgt_alt in Hc. lra.
Qed.

(** The result of rounding a value in [0, 1] to [float] is a level in
    range. *)
Lemma to_float_in_unit m e :
  (to_Q (S754_finite false m e) <= 1)%Q ->
  in_unit (to_float (S754_finite false m e)).
Proof.
  intros Hle.
  pose proof (to_Q_sign false m e) as Hpos. cbv beta iota in Hpos.
  assert (Hmag : mag_le 0 (S754_finite false m e)).
  { apply mag_le_to_Q. rewrite Qabs_pos by lra. exact Hle. }
  unfold to_float, round_to.
  pose proof (binary_round_cases 24 128 false m e) as Hc.
  assert (Hv : valid_binary 24 128 (binary_round 24 128 false m e) = true)
    by (apply binary_round_valid; lia).
  assert (Hm : mag_le 0 (binary_round 24 128 false m e)).
  { apply binary_round_mag_le; [lia|lia|exact Hmag|unfold SpecFloat.emin; lia]. }
  destruct (binary_round 24 128 false m e) as [s'|s'| |s' m' e']; try contradiction.
  - split; [reflexivity|]. cbn [to_Q]. lra.
  - subst s'. split; [unfold is_float; rewrite Hv; reflexivity|].
    pose proof (to_Q_sign false m' e') as Hp'. cbv beta iota in Hp'.
    apply mag_le_to_Q in Hm. rewrite Qabs_pos in Hm by lra.
    change (2 ^ 0)%Q with 1%Q in Hm. lra.
Qed.

(** Clamping gives a level in range for anything but a NaN. *)
Lemma clamp_level_in_unit x : is_nan x = false -> in_unit (clamp_level x).
Proof.
  intros Hx. unfold clamp_level, constrain, gt.
  pose proof (round_to_not_nan 53 1024 x Hx) as Hy. fold to_double in Hy.
  set (y := to_double x) in *.
  destruct (lt y (double_of_Z 0)) eqn:H0; [in_unit_by_computation|].
  destruct (lt (double_of_Z 1) y) eqn:H1; [in_unit_by_computation|].
  destruct y as [s|s| |s m e]; try discriminate.
  - split; [reflexivity|]. cbn [to_float round_to to_Q]. lra.
  - destruct s; vm_compute in H0, H1; discriminate.
  - apply lt_false in H0; [|reflexivity|reflexivity].
    apply lt_false in H1; [|reflexivity|reflexivity].
    change (to_Q (double_of_Z 0)) with 0%Q in H0.
    assert (H1' : (to_Q (S754_finite s m e) <= 1)%Q).
    { eapply Qle_trans; [exact H1|]. vm_compute. discriminate. }
    pose proof (to_Q_sign s m e) as Hs. destruct s; [lra|].
    apply to_float_in_unit. exact H1'.
Qed.

Lemma bounded_spectrum_nth spectrum :
  bounded_spectrum spectrum ->
  forall i, mag_le 32 (nth i spectrum (S754_zero false)).
Proof.
  intros H i. destruct (nth_in_or_default i spectrum (S754_zero false)) as [Hin| ->]; [|exact I].
  unfold bounded_spectrum in H. rewrite Forall_forall in H.
  destruct (H _ Hin) as [Hf Hq].
  destruct (nth i spectrum (S754_zero false)) as [s|s| |s m e]; try discriminate; [exact I|].
  apply mag_le_to_Q. exact Hq.
Qed.

Lemma scaled_level_not_nan level sens J :
  mag_le J level -> is_finite sens = true -> is_nan (fmul level sens) = false.
Proof.
  intros Hl Hs. apply SFmul_not_nan; [|exact Hs]. exact (mag_le_finite J level Hl).
Qed.

(** C6. When the magnitude spectrum left by the FFT is finite (a frame of
    256 samples in [-1, 1] gives magnitudes of at most 256; any bound up to
    2^32 will do) and the sensitivity is a number in [0, 10], the levels
    stored by [analyze_frequencies] -- bass, mid, treble and volume in
    [music_reactive.h], bass, mid and treble in [fft_analyzer.h] -- are
    numbers in [0, 1]: finite, not NaN, not negative. *)
Theorem analysis_levels_in_unit
    (s : MusicReactiveEffectUDP.t) (s0 : MusicReactiveEffect.t)
    (spectrum : list spec_float) :
  bounded_spectrum spectrum ->
  sensitivity_in_range (MusicReactiveEffectUDP.sensitivity s) ->
  sensitivity_in_range (MusicReactiveEffect.sensitivity s0) ->
  let s1 := MusicReactiveEffectUDP.analyze_frequencies s spectrum in
  let s2 := MusicReactiveEffect.analyze_frequencies s0 spectrum in
  in_unit (MusicReactiveEffectUDP.bass_level s1) /\
  in_unit (MusicReactiveEffectUDP.mid_level s1) /\
  in_unit (MusicReactiveEffectUDP.treble_level s1) /\
  in_unit (MusicReactiveEffectUDP.volume s1) /\
  in_unit (MusicReactiveEffect.bass_level s2) /\
  in_unit (MusicReactiveEffect.mid_level s2) /\
  in_unit (MusicReactiveEffect.treble_level s2).
Proof.
  intros Hsp [Hs _] [Hs0 _] s1 s2. subst s1 s2.
  pose proof (bounded_spectrum_nth spectrum Hsp) as Hv.
  assert (Hb : mag_le (32 + Z.of_nat 6) (band_average spectrum 1 6 6))
    by (apply band_average_mag_le; try lia; exact Hv).
  assert (Hm : mag_le (32 + Z.of_nat 18) (band_average spectrum 6 18 18))
    by (apply band_average_mag_le; try lia; exact Hv).
  assert (Ht : mag_le (32 + Z.of_nat 71) (band_average spectrum 23 71 71))
    by (apply band_average_mag_le; try lia; exact Hv).
  assert (Hvol : mag_le 104
            (to_float (ddiv (to_double
               (fadd (fadd (band_average spectrum 1 6 6) (band_average spectrum 6 18 18))
                     (band_average spectrum 23 71 71))) (double_of_Z 3)))).
  { destruct (double_of_Z_pos 3) as (p & Hp & ->); [lia|].
    apply round_to_mag_le; try lia; [|unfold SpecFloat.emin; lia].
    apply (SFdiv_mag_le 53 1024); try lia.
    - apply round_to_mag_le; try lia; [|unfold SpecFloat.emin; lia].
      apply (SFadd_mag_le 24 128) with (Jx := 51) (Jy := 103); try lia.
      + apply (SFadd_mag_le 24 128) with (Jx := 38) (Jy := 50); try lia;
          [exact Hb|exact Hm|unfold SpecFloat.emin; lia].
      + exact Ht.
      + unfold SpecFloat.emin; lia.
    - vm_compute. discriminate.
    - rewrite Hp. vm_compute. discriminate.
    - unfold SpecFloat.emin; lia. }
  unfold MusicReactiveEffectUDP.analyze_frequencies, MusicReactiveEffect.analyze_frequencies.
  cbn [MusicReactiveEffectUDP.set_levels MusicReactiveEffectUDP.set_vReal
       MusicReactiveEffectUDP.bass_level MusicReactiveEffectUDP.mid_level
       MusicReactiveEffectUDP.treble_level MusicReactiveEffectUDP.volume
       MusicReactiveEffectUDP.sensitivity
       MusicReactiveEffect.bass_level MusicReactiveEffect.mid_level
       MusicReactiveEffect.treble_level].
  repeat split; apply clamp_level_in_unit;
    eapply scaled_level_not_nan; eassumption.
Qed.

Lemma analysis_levels_in_unit_witness :
  bounded_spectrum (repeat (double_lit 3 4) 256) /\
  sensitivity_in_range (float_lit 2 1) /\
  in_unit
    (MusicReactiveEffectUDP.volume
       (MusicReactiveEffectUDP.analyze_frequencies
          (MusicReactiveEffectUDP.set_sensitivity
             (MusicReactiveEffectUDP.create true) (float_lit 2 1))
          (repeat (double_lit 3 4) 256))).
Proof.
  assert (H1 : bounded_spectrum (repeat (double_lit 3 4) 256)).
  { apply Forall_forall. intros x Hx. apply repeat_spec in Hx. subst x.
    split; [reflexivity|]. vm_compute. discriminate. }
  assert (H2 : sensitivity_in_range (float_lit 2 1)).
  { split; [reflexivity|]. split; vm_compute; discriminate. }
  refine (conj H1 (conj H2 _)).
  exact (proj1 (proj2 (proj2 (proj2
    (analysis_levels_in_unit
       (MusicReactiveEffectUDP.set_sensitivity
          (MusicReactiveEffectUDP.create true) (float_lit 2 1))
       (MusicReactiveEffect.mk [] fzero fzero fzero (float_lit 2 1) (float_lit 10 1)
          true "RGB Frequency" (42, 168) 0)
       (repeat (double_lit 3 4) 256) H1 H2 H2))))).
Defined.

End AnalysisFacts.

(** ** Sequences of calls on a light *)

Section FastconScheduleFacts.
Import Word FastconLight FastconSchedule.

(** What a call does, in the four cases of [loop]. *)
Lemma step_cases l c :
  (step l c = (fst (step l c), []) /\
   last_sent_data_ (fst (step l c)) = last_sent_data_ l /\
   last_command_sent_ (fst (step l c)) = last_command_sent_ l) \/
  (snd c = Loop /\
   has_pending_command_ l = true /\
   pending_data_ l <> last_sent_data_ l /\
   MIN_INTERVAL_MS <= sub32 (wrap32 (fst c)) (last_command_sent_ l) /\
   DEBOUNCE_MS <= sub32 (wrap32 (fst c)) (last_state_change_ l) /\
   step l c =
     (mk (light_id_ l) (pending_data_ l) (pending_data_ l)
         (last_state_change_ l) (wrap32 (fst c)) false,
      [QueueCommand (light_id_ l) (pending_data_ l)])).
Proof.
  unfold step. destruct (snd c) as [d|].
  - left. cbn. auto.
  - destruct (windows_ok l (wrap32 (fst c))) eqn:Hw.
    + destruct (has_pending_command_ l) eqn:Hp.
      * destruct (payload_eq_dec (pending_data_ l) (last_sent_data_ l)) as [He|Hne].
        -- left. rewrite (loop_drop l _ Hp Hw He). cbn. auto.
        -- right. unfold windows_ok in Hw. apply andb_true_iff in Hw.
           destruct Hw as [H1 H2]. apply Z.leb_le in H1, H2.
           rewrite (loop_send l _ Hp); [auto 10| |exact Hne].
           unfold windows_ok. apply andb_true_iff. split; apply Z.leb_le; assumption.
      * left. rewrite (loop_idle l _ Hp). cbn. auto.
    + left. rewrite (loop_wait l _ Hw). cbn. auto.
Qed.

(** After a command went out at [t0] with payload [p0], the next ones come
    at least [MIN_INTERVAL_MS] later, at least that far apart, and each
    differs from the one before. *)
Lemma sent_after calls : forall l t0,
  last_command_sent_ l = wrap32 t0 ->
  StronglySorted Z.le (t0 :: map fst calls) ->
  Forall (fun a => t0 + MIN_INTERVAL_MS <= fst a) (sent l calls) /\
  Sorted (fun a b => fst a + MIN_INTERVAL_MS <= fst b) (sent l calls).
Proof.
  induction calls as [|c rest IH]; intros l t0 Hl Hs; [cbn; auto|].
  cbn [sent]. inversion Hs as [|? ? Hs' Hall]; subst. cbn [map] in Hs', Hall.
  inversion Hall as [|? ? Hle Hall']; subst.
  inversion Hs' as [|? ? Hs'' Hall'']; subst.
  destruct (step_cases l c) as [(Hst & _ & Hlc)|(_ & _ & _ & Hmin & _ & Hst)].
  - rewrite Hst. cbn [snd map app fst].
    apply IH; [rewrite Hlc; exact Hl|constructor; assumption].
  - rewrite Hst. cbn [snd map app fst].
    rewrite Hl in Hmin. apply sub32_lower in Hmin; [|exact Hle].
    destruct (IH (mk (light_id_ l) (pending_data_ l) (pending_data_ l)
                     (last_state_change_ l) (wrap32 (fst c)) false) (fst c))
      as [Hafter Hsorted]; [reflexivity|constructor; assumption|].
    split.
    + constructor; [cbn; lia|].
      eapply Forall_impl; [|exact Hafter]. cbn. intros a Ha. lia.
    + constructor; [exact Hsorted|].
      destruct (sent _ rest) as [|b tl]; constructor.
      inversion Hafter; subst. cbn. assumption.
Qed.

(** X1. On a clock that moves forward, two successive commands of a light
    are queued at least [MIN_INTERVAL_MS] apart, whatever the order and the
    timing of the calls of [write_state] and [loop]. *)
Theorem commands_min_interval (l : t) (calls : list (Z * call)) :
  StronglySorted Z.le (map fst calls) ->
  Sorted (fun a b => fst a + MIN_INTERVAL_MS <= fst b) (sent l calls).
Proof.
  revert l. induction calls as [|c rest IH]; intros l Hs; [constructor|].
  cbn [sent]. cbn [map] in Hs. inversion Hs as [|? ? Hs' Hall]; subst.
  destruct (step_cases l c) as [(Hst & _ & _)|(_ & _ & _ & _ & _ & Hst)].
  - rewrite Hst. cbn [snd map app fst]. apply IH. exact Hs'.
  - rewrite Hst. cbn [snd map app fst].
    destruct (sent_after rest
                (mk (light_id_ l) (pending_data_ l) (pending_data_ l)
                    (last_state_change_ l) (wrap32 (fst c)) false) (fst c))
      as [Hafter Hsorted]; [reflexivity|exact Hs|].
    constructor; [exact Hsorted|].
    destruct (sent _ rest) as [|b tl]; constructor.
    inversion Hafter; subst. cbn. assumption.
Qed.

Lemma commands_min_interval_witness :
  StronglySorted Z.le [0; 350; 360; 500; 700] /\
  sent (create 3)
       [(0, WriteState [1]); (350, Loop); (360, WriteState [2]); (500, Loop);
        (700, Loop)]
  = [(350, [1]); (700, [2])] /\
  Sorted (fun a b => fst a + MIN_INTERVAL_MS <= fst b)
    (sent (create 3)
       [(0, WriteState [1]); (350, Loop); (360, WriteState [2]); (500, Loop);
        (700, Loop)]).
Proof.
  assert (H : StronglySorted Z.le [0; 350; 360; 500; 700]).
  { repeat first [apply SSorted_nil | apply SSorted_cons
                 | apply Forall_nil | apply Forall_cons | lia]. }
  split; [exact H|]. split; [vm_compute; reflexivity|].
  exact (commands_min_interval (create 3)
           [(0, WriteState [1]); (350, Loop); (360, WriteState [2]); (500, Loop);
            (700, Loop)] H).
Defined.

(** The same payload is never queued twice in a row. *)
Lemma sent_distinct calls : forall l,
  Forall (fun a => True) (sent l calls) ->
  match sent l calls with
  | [] => True
  | a :: _ => snd a <> last_sent_data_ l
  end /\
  Sorted (fun a b => snd a <> snd b) (sent l calls).
Proof.
  induction calls as [|c rest IH]; intros l _; [cbn; auto|].
  cbn [sent].
  destruct (step_cases l c) as [(Hst & Hls & _)|(_ & _ & Hne & _ & _ & Hst)].
  - rewrite Hst. cbn [snd map app fst].
    destruct (IH (fst (step l c))) as [H1 H2]; [apply Forall_forall; auto|].
    rewrite Hls in H1. split; assumption.
  - rewrite Hst. cbn [snd map app fst].
    destruct (IH (mk (light_id_ l) (pending_data_ l) (pending_data_ l)
                     (last_state_change_ l) (wrap32 (fst c)) false)) as [H1 H2];
      [apply Forall_forall; auto|].
    cbn [last_sent_data_] in H1.
    split; [exact Hne|].
    constructor; [exact H2|].
    destruct (sent _ rest) as [|b tl]; constructor. cbn. congruence.
Qed.

(** X2. A light never queues the same payload twice in a row: each command
    differs from the one queued before it, and the first differs from the
    payload recorded as last sent. *)
Theorem commands_never_repeat (l : t) (calls : list (Z * call)) :
  Sorted (fun a b => snd a <> snd b) (sent l calls) /\
  (forall a rest, sent l calls = a :: rest -> snd a <> last_sent_data_ l).
Proof.
  destruct (sent_distinct calls l) as [H1 H2]; [apply Forall_forall; auto|].
  split; [exact H2|]. intros a rest E. rewrite E in H1. exact H1.
Qed.

Lemma after_light_id calls : forall l, light_id_ (after l calls) = light_id_ l.
Proof.
  induction calls as [|c rest IH]; intros l; [reflexivity|].
  cbn [after]. rewrite IH.
  destruct (step_cases l c) as [(Hst & _)|(_ & _ & _ & _ & _ & Hst)].
  - unfold step in *. destruct (snd c); [reflexivity|].
    unfold loop. repeat match goal with |- context [if ?b then _ else _] =>
      destruct b end; reflexivity.
  - rewrite Hst. reflexivity.
Qed.

(** A call of [loop] that leaves a command pending has changed nothing. *)
Lemma loop_still_pending l now :
  has_pending_command_ (fst (loop l now)) = true ->
  has_pending_command_ l = true /\ fst (loop l now) = l.
Proof.
  unfold loop. destruct (has_pending_command_ l) eqn:Hp; cbn [negb].
  - repeat match goal with |- context [if ?b then _ else _] =>
      destruct b end; cbn; intros H; try discriminate; auto.
  - cbn. congruence.
Qed.

(** A pending payload is the latest one written, or the one that was
    pending at the start when nothing has been written since. *)
Lemma pending_is_latest calls : forall l,
  has_pending_command_ (after l calls) = true ->
  last_written calls = Some (pending_data_ (after l calls)) \/
  (last_written calls = None /\ has_pending_command_ l = true /\
   pending_data_ (after l calls) = pending_data_ l).
Proof.
  induction calls as [|[time [d|]] rest IH]; intros l Hp.
  - right. cbn in *. auto.
  - cbn [after last_written] in *. unfold step in *. cbn [snd fst] in *.
    destruct (IH _ Hp) as [H|(H1 & _ & H3)].
    + left. rewrite H. reflexivity.
    + left. rewrite H1, H3. reflexivity.
  - cbn [after last_written] in *.
    destruct (IH _ Hp) as [H|(H1 & H2 & H3)]; [left; exact H|].
    right. split; [exact H1|].
    unfold step in H2, H3. cbn [snd fst] in H2, H3.
    destruct (loop_still_pending l (wrap32 time) H2) as [Hp' E].
    split; [exact Hp'|]. unfold step. cbn [snd fst]. rewrite H3, E. reflexivity.
Qed.

(** X3. The latest change wins: starting with nothing pending, a command
    that [loop] queues carries the payload of the most recent call of
    [write_state], and the identifier of the light. *)
Theorem command_is_latest_write (l : t) (pre : list (Z * call))
    (time : Z) (id : Z) (p : payload) :
  has_pending_command_ l = false ->
  In (QueueCommand id p) (snd (step (after l pre) (time, Loop))) ->
  last_written pre = Some p /\ id = light_id_ l.
Proof.
  intros Hl Hin.
  destruct (step_cases (after l pre) (time, Loop))
    as [(Hst & _)|(_ & Hp & _ & _ & _ & Hst)].
  - rewrite Hst in Hin. destruct Hin.
  - rewrite Hst in Hin. cbn in Hin. destruct Hin as [E|[]].
    injection E as E1 E2. subst id p.
    split; [|apply after_light_id].
    destruct (pending_is_latest pre l Hp) as [H|(_ & H & _)];
      [exact H|congruence].
Qed.

Lemma command_is_latest_write_witness :
  has_pending_command_ (create 3) = false /\
  In (QueueCommand 3 [2])
     (snd (step (after (create 3) [(0, WriteState [1]); (10, WriteState [2])])
                (450, Loop))) /\
  last_written [(0, WriteState [1]); (10, WriteState [2])] = Some [2] /\
  3 = light_id_ (create 3).
Proof.
  assert (H : In (QueueCommand 3 [2])
     (snd (step (after (create 3) [(0, WriteState [1]); (10, WriteState [2])])
                (450, Loop)))) by (vm_compute; left; reflexivity).
  split; [reflexivity|]. split; [exact H|].
  exact (command_is_latest_write (create 3)
           [(0, WriteState [1]); (10, WriteState [2])] 450 3 [2]
           eq_refl H).
Defined.

(** X4. Changes that keep coming restart the debounce window each time:
    as long as every call of [loop] comes less than [DEBOUNCE_MS] after the
    latest [write_state], no command is queued, however long this lasts. *)
Theorem changing_state_sends_nothing (calls : list (Z * call)) :
  forall (l : t) (tw : Z),
  last_state_change_ l = wrap32 tw ->
  changing tw calls ->
  sent l calls = [] /\ last_sent_data_ (after l calls) = last_sent_data_ l.
Proof.
  induction calls as [|[time [d|]] rest IH]; intros l tw Hl Hc; [cbn; auto|..].
  - cbn [sent after changing] in *. unfold step. cbn [snd fst map app].
    destruct (IH (write_state l d (wrap32 time)) time eq_refl Hc) as [H1 H2].
    split; [exact H1|rewrite H2; reflexivity].
  - cbn [sent after changing] in *. destruct Hc as [Hlt Hc].
    destruct (step_cases l (time, Loop))
      as [(Hst & Hls & _)|(_ & _ & _ & _ & Hdeb & _)].
    + assert (Hsc : last_state_change_ (fst (step l (time, Loop))) = wrap32 tw).
      { rewrite <- Hl. unfold step. cbn [snd fst]. unfold loop.
        repeat match goal with |- context [if ?b then _ else _] =>
          destruct b end; reflexivity. }
      destruct (IH _ tw Hsc Hc) as [H1 H2].
      rewrite Hst at 1. cbn [snd map app].
      split; [exact H1|rewrite H2; exact Hls].
    + cbn [fst] in Hdeb. rewrite Hl in Hdeb. lia.
Qed.

Lemma changing_state_sends_nothing_witness :
  last_state_change_ (create 3) = wrap32 0 /\
  changing 0 [(0, WriteState [1]); (90, Loop); (95, WriteState [2]);
              (190, Loop); (191, WriteState [3]); (290, Loop)] /\
  sent (create 3) [(0, WriteState [1]); (90, Loop); (95, WriteState [2]);
                   (190, Loop); (191, WriteState [3]); (290, Loop)] = [] /\
  last_sent_data_
    (after (create 3) [(0, WriteState [1]); (90, Loop); (95, WriteState [2]);
                       (190, Loop); (191, WriteState [3]); (290, Loop)])
  = last_sent_data_ (create 3).
Proof.
  assert (H : changing 0 [(0, WriteState [1]); (90, Loop); (95, WriteState [2]);
              (190, Loop); (191, WriteState [3]); (290, Loop)])
    by (cbn; repeat split; vm_compute; reflexivity).
  split; [reflexivity|]. split; [exact H|].
  exact (changing_state_sends_nothing _ (create 3) 0 eq_refl H).
Defined.

End FastconScheduleFacts.

(** ** Sequences of calls on the UDP component *)

Section UdpSessionFacts.
Import Word Ieee Audio MusicReactiveEffectUDP UdpSession.

Lemma run_cons s time c rest :
  run s ((time, c) :: rest) =
    (fst (run (fst (step s c)) rest),
     map (pair time) (snd (step s c)) ++ snd (run (fst (step s c)) rest)).
Proof.
  cbn [run]. destruct (step s c) as [s1 ev1]. cbn [fst snd].
  destruct (run s1 rest). reflexivity.
Qed.

(** The interval of the master at the update rate the class sets. *)
Lemma master_interval :
  to_uint32 (ddiv (double_of_Z 1000) (to_double (float_lit 10 1))) = 100.
Proof. vm_compute. reflexivity. Qed.

(** What a call does to the rate limiter of a master. *)
Lemma master_step s c :
  is_master s = true -> update_rate s = float_lit 10 1 ->
  is_master (fst (step s c)) = true /\
  update_rate (fst (step s c)) = float_lit 10 1 /\
  ((snd (step s c) = [] /\ last_update (fst (step s c)) = last_update s) \/
   (exists i, c = Loop i /\ 100 <= sub32 (now i) (last_update s) /\
      last_update (fst (step s c)) = now i /\
      snd (step s c) = snd (master_loop s i))).
Proof.
  intros Hm Hr.
  assert (Hidle : forall s', is_master s' = true -> update_rate s' = float_lit 10 1 ->
            last_update s' = last_update s ->
            is_master (fst (s', @nil event)) = true /\
            update_rate (fst (s', @nil event)) = float_lit 10 1 /\
            ((snd (s', @nil event) = [] /\
              last_update (fst (s', @nil event)) = last_update s) \/
             (exists i, c = Loop i /\ 100 <= sub32 (now i) (last_update s) /\
                last_update (fst (s', @nil event)) = now i /\
                snd (s', @nil event) = snd (master_loop s i)))).
  { intros s' H1 H2 H3. cbn [fst snd]. auto. }
  destruct c; cbn [step]; try (apply Hidle; first [assumption|reflexivity]).
  unfold loop. rewrite Hm. destruct (running s); cbn [negb]; [|apply Hidle; auto].
  assert (Hml : master_loop s i = (s, []) \/
            (100 <= sub32 (now i) (last_update s) /\
             last_update (fst (master_loop s i)) = now i /\
             is_master (fst (master_loop s i)) = true /\
             update_rate (fst (master_loop s i)) = float_lit 10 1)).
  { unfold master_loop. rewrite Hr, master_interval.
    destruct (sub32 (now i) (last_update s) <? 100) eqn:Hlt; [left; reflexivity|].
    apply Z.ltb_ge in Hlt. right. cbn. auto. }
  destruct Hml as [E|(Hgo & Hl & Hm' & Hr')].
  - rewrite E. apply Hidle; auto.
  - split; [exact Hm'|]. split; [exact Hr'|]. right. exists i. auto.
Qed.

Section Spacing.
Variable f : Z * event -> bool.
Hypothesis f_once : forall s i time,
  (List.length (filter f (map (pair time) (snd (master_loop s i)))) <= 1)%nat.

Lemma filter_at_time time evs :
  Forall (fun e => fst e = time) (filter f (map (pair time) evs)).
Proof.
  apply Forall_forall. intros e He. apply filter_In in He. destruct He as [He _].
  apply in_map_iff in He. destruct He as (x & <- & _). reflexivity.
Qed.

Lemma master_after calls : forall s t0,
  is_master s = true -> update_rate s = float_lit 10 1 ->
  last_update s = wrap32 t0 ->
  StronglySorted Z.le (t0 :: map fst calls) ->
  Forall on_time calls ->
  Forall (fun e => t0 + 100 <= fst e) (filter f (snd (run s calls))) /\
  Sorted (fun a b => fst a + 100 <= fst b) (filter f (snd (run s calls))).
Proof.
  induction calls as [|[time c] rest IH]; intros s t0 Hm Hr Hlu Hs Hn.
  - cbn. auto.
  - rewrite run_cons. cbn [snd]. rewrite filter_app.
    inversion Hn as [|? ? Hni Hnr]; subst. unfold on_time in Hni. cbn [fst snd] in Hni.
    inversion Hs as [|? ? Hs' Hall]; subst. cbn [map fst] in Hs', Hall.
    inversion Hall as [|? ? Hle Hall']; subst.
    inversion Hs' as [|? ? Hs'' Hall'']; subst.
    destruct (master_step s c Hm Hr) as (Hm' & Hr' & [(Hev & Hl)|(i & -> & Hgo & Hl & Hev)]).
    + rewrite Hev. cbn [map filter app].
      apply IH; try assumption; [rewrite Hl; exact Hlu|constructor; assumption].
    + rewrite Hni, Hlu in Hgo. apply sub32_lower in Hgo; [|exact Hle].
      destruct (IH (fst (step s (Loop i))) time Hm' Hr') as [Hafter Hsorted];
        [rewrite Hl; exact Hni|constructor; assumption|exact Hnr|].
      rewrite Hev.
      pose proof (f_once s i time) as Hlen.
      pose proof (filter_at_time time (snd (master_loop s i))) as Hat.
      destruct (filter f (map (pair time) (snd (master_loop s i)))) as [|x [|y tl]];
        [| |cbn in Hlen; lia].
      * cbn [app]. split; [|exact Hsorted].
        eapply Forall_impl; [|exact Hafter]. cbn. intros; lia.
      * inversion Hat as [|? ? Hx _]; subst. cbn [app]. split.
        -- constructor; [lia|]. eapply Forall_impl; [|exact Hafter]. cbn. intros; lia.
        -- constructor; [exact Hsorted|].
           destruct (filter f (snd (run _ rest))) as [|b tl']; constructor.
           inversion Hafter; subst. assumption.
Qed.

Lemma master_spaced calls : forall s,
  is_master s = true -> update_rate s = float_lit 10 1 ->
  StronglySorted Z.le (map fst calls) ->
  Forall on_time calls ->
  Sorted (fun a b => fst a + 100 <= fst b) (filter f (snd (run s calls))).
Proof.
  induction calls as [|[time c] rest IH]; intros s Hm Hr Hs Hn.
  - constructor.
  - rewrite run_cons. cbn [snd]. rewrite filter_app.
    inversion Hn as [|? ? Hni Hnr]; subst. unfold on_time in Hni. cbn [fst snd] in Hni.
    cbn [map fst] in Hs.
    destruct (master_step s c Hm Hr) as (Hm' & Hr' & [(Hev & Hl)|(i & -> & Hgo & Hl & Hev)]).
    + rewrite Hev. cbn [map filter app]. inversion Hs; subst. apply IH; assumption.
    + destruct (master_after rest (fst (step s (Loop i))) time Hm' Hr') as [Hafter Hsorted];
        [rewrite Hl; exact Hni|exact Hs|exact Hnr|].
      rewrite Hev.
      pose proof (f_once s i time) as Hlen.
      pose proof (filter_at_time time (snd (master_loop s i))) as Hat.
      destruct (filter f (map (pair time) (snd (master_loop s i)))) as [|x [|y tl]];
        [exact Hsorted| |cbn in Hlen; lia].
      inversion Hat as [|? ? Hx _]; subst. cbn [app].
      constructor; [exact Hsorted|].
      destruct (filter f (snd (run _ rest))) as [|b tl']; constructor.
      inversion Hafter; subst. assumption.
Qed.

End Spacing.

Lemma filter_map_pair (g : event -> bool) time evs :
  List.length (filter (fun e : Z * event => g (snd e)) (map (pair time) evs))
  = List.length (filter g evs).
Proof.
  induction evs as [|e evs IH]; [reflexivity|].
  cbn [map filter snd]. destruct (g e); cbn [List.length]; rewrite IH; reflexivity.
Qed.

Lemma master_loop_colors s i : (color_commands (snd (master_loop s i)) <= 1)%nat.
Proof.
  unfold master_loop.
  match goal with |- context [if ?c then _ else _] => destruct c end; [cbn; lia|].
  cbn [snd]. rewrite !color_commands_app, send_color_command_once, update_sensors_none.
  match goal with |- context [if ?c then _ else _] => destruct c end; cbn; lia.
Qed.

Lemma master_loop_broadcasts s i :
  (List.length (filter (fun e => match e with UdpBroadcast _ => true | _ => false end)
                  (snd (master_loop s i))) <= 1)%nat.
Proof.
  unfold master_loop.
  match goal with |- context [if ?c then _ else _] => destruct c end; [cbn; lia|].
  cbn [snd]. rewrite !filter_app, !length_app.
  unfold send_color_command, send_mesh_command, update_sensors, broadcast_audio_data.
  repeat match goal with |- context [if ?c then _ else _] => destruct c end; cbn; lia.
Qed.

(** X5. A master never floods the mesh or the network: with the update
    rate of 10 Hz that the class sets, two successive colour commands, and
    two successive broadcasts, are at least 100 ms apart, whatever calls of
    [start], [stop] and the setters come in between. *)
Theorem master_rate_limit (s : t) (calls : list (Z * call)) :
  is_master s = true -> update_rate s = float_lit 10 1 ->
  StronglySorted Z.le (map fst calls) ->
  Forall on_time calls ->
  Sorted (fun a b => fst a + 100 <= fst b) (filter sends_color (snd (run s calls))) /\
  Sorted (fun a b => fst a + 100 <= fst b) (filter is_broadcast (snd (run s calls))).
Proof.
  intros Hm Hr Hs Hn. split.
  - apply master_spaced; try assumption.
    intros s' i time. unfold sends_color.
    rewrite (filter_map_pair is_color_command). apply master_loop_colors.
  - apply master_spaced; try assumption.
    intros s' i time. unfold is_broadcast.
    rewrite (filter_map_pair (fun e => match e with UdpBroadcast _ => true | _ => false end)).
    apply master_loop_broadcasts.
Qed.

Lemma master_rate_limit_witness :
  is_master (start (set_controller (create true))) = true /\
  map fst
    (filter is_broadcast
       (snd (run (start (set_controller (create true)))
               [(0, Loop (mk_input [] 0 0 0 []));
                (100, Loop (mk_input [] 0 100 100 []));
                (150, EnableUdpBroadcast true);
                (160, Loop (mk_input [] 0 160 160 []));
                (230, Loop (mk_input [] 0 230 230 []))])))
  = [100; 230] /\
  Sorted (fun a b => fst a + 100 <= fst b)
    (filter is_broadcast
       (snd (run (start (set_controller (create true)))
               [(0, Loop (mk_input [] 0 0 0 []));
                (100, Loop (mk_input [] 0 100 100 []));
                (150, EnableUdpBroadcast true);
                (160, Loop (mk_input [] 0 160 160 []));
                (230, Loop (mk_input [] 0 230 230 []))]))).
Proof.
  split; [reflexivity|]. split; [vm_compute; reflexivity|].
  apply (master_rate_limit (start (set_controller (create true)))); [reflexivity|reflexivity| |].
  - repeat first [apply SSorted_nil | apply SSorted_cons
                 | apply Forall_nil | apply Forall_cons | cbn; lia].
  - repeat first [apply Forall_nil | apply Forall_cons | exact I | reflexivity].
Defined.


(** A slave that finds no valid packet keeps what it received. *)
Lemma slave_step_no_packet s c :
  is_master s = false -> no_valid_packet c ->
  is_master (fst (step s (snd c))) = false /\
  received (fst (step s (snd c))) = received s /\
  (packet_count s = 0 -> ~ In TIMEOUT_WARNING (snd (step s (snd c)))).
Proof.
  intros Hm Hc. unfold no_valid_packet in Hc.
  destruct (snd c) as [| | | | | |i]; cbn [step]; try (cbn; intuition; fail).
  unfold loop. rewrite Hm. destruct (running s); cbn [negb]; [|cbn; intuition].
  unfold slave_loop, valid_packet in *.
  destruct (UDP_PACKET_SIZE <=? Z.of_nat (List.length (datagram i))) eqn:Hlen.
  - apply Z.leb_le in Hlen. unfold receive_audio_data.
    cbn [AudioSyncPacket.of_bytes AudioSyncPacket.header fst snd].
    destruct (nth 0 (datagram i) 0 =? 65) eqn:H0;
      [destruct (nth 1 (datagram i) 0 =? 83) eqn:H1|]; cbn [negb orb].
    + apply Z.eqb_eq in H0, H1. exfalso. apply Hc. auto.
    + destruct (50 <=? _);
        match goal with |- context [if ?b then _ else _] => destruct b eqn:Hw end;
        cbn [fst snd]; (split; [exact Hm|]); (split; [reflexivity|]); intros Hp;
        cbn in Hw; rewrite Hp in Hw; try (rewrite andb_false_r in Hw; discriminate);
        unfold TIMEOUT_WARNING, send_color_command, send_mesh_command, update_sensors;
        repeat match goal with |- context [if controller ?x then _ else _] =>
          destruct (controller x) end; cbn; intuition discriminate.
    + destruct (50 <=? _);
        match goal with |- context [if ?b then _ else _] => destruct b eqn:Hw end;
        cbn [fst snd]; (split; [exact Hm|]); (split; [reflexivity|]); intros Hp;
        cbn in Hw; rewrite Hp in Hw; try (rewrite andb_false_r in Hw; discriminate);
        unfold TIMEOUT_WARNING, send_color_command, send_mesh_command, update_sensors;
        repeat match goal with |- context [if controller ?x then _ else _] =>
          destruct (controller x) end; cbn; intuition discriminate.
  - match goal with |- context [if ?b then _ else _] => destruct b eqn:Hw end;
      cbn [fst snd]; (split; [exact Hm|]); (split; [reflexivity|]); intros Hp;
      rewrite Hp in Hw; try (rewrite andb_false_r in Hw; discriminate).
    intros [].
Qed.

(** X6. In a slave only a valid packet changes the levels and the packet
    statistics: over calls that bring none they stay as they were, and a
    slave that has not yet counted a packet never reports the timeout. *)
Theorem slave_without_packets (s : t) (calls : list (Z * call)) :
  is_master s = false ->
  Forall no_valid_packet calls ->
  received (fst (run s calls)) = received s /\
  (packet_count s = 0 -> ~ In TIMEOUT_WARNING (map snd (snd (run s calls)))).
Proof.
  revert s. induction calls as [|[time c] rest IH]; intros s Hm Hall.
  - cbn. auto.
  - rewrite run_cons. cbn [fst snd].
    inversion Hall as [|? ? Hc Hrest]; subst.
    destruct (slave_step_no_packet s (time, c) Hm Hc) as (Hm' & Hrec & Hw).
    cbn [snd] in Hm', Hrec, Hw.
    destruct (IH (fst (step s c)) Hm' Hrest) as [H1 H2].
    split; [rewrite H1; exact Hrec|].
    intros Hp. rewrite map_app, map_map. cbn [snd]. rewrite map_id.
    intros Hin. apply in_app_or in Hin. destruct Hin as [Hin|Hin].
    + exact (Hw Hp Hin).
    + apply H2; [|exact Hin].
      unfold received in Hrec. injection Hrec as _ _ _ _ Hpc _. congruence.
Qed.

Lemma slave_without_packets_witness :
  is_master (start (create false)) = false /\
  received
    (fst (run (start (create false))
            [(10, Loop (mk_input [] 0 10 10 []));
             (6000, Loop (mk_input (repeat 7 24) 6000 6000 6000 []))]))
  = received (start (create false)).
Proof.
  split; [reflexivity|].
  apply (slave_without_packets (start (create false))); [reflexivity|].
  repeat first [apply Forall_nil | apply Forall_cons];
    unfold no_valid_packet, valid_packet; cbn; intros (H1 & H2 & H3); lia.
Defined.


(** X7. While no packet arrives and the last one is more than five seconds
    old, a running slave that has counted a packet logs the timeout at every
    call of [loop], and does nothing else: the state, with the last levels
    received, stays as it is. *)
Theorem timeout_logged_at_every_call (s : t) (calls : list (Z * call)) :
  running s = true -> is_master s = false -> 0 < packet_count s ->
  Forall (stale s) calls ->
  run s calls = (s, map (fun c => (fst c, TIMEOUT_WARNING)) calls).
Proof.
  intros Hr Hm Hp. induction calls as [|[time c] rest IH]; intros Hall.
  - reflexivity.
  - inversion Hall as [|? ? Hc Hrest]; subst.
    unfold stale in Hc. cbn [snd] in Hc. destruct c; try contradiction.
    destruct Hc as [Hlen Hold].
    assert (E : step s (Loop i) = (s, [TIMEOUT_WARNING])).
    { cbn [step]. unfold loop. rewrite Hr, Hm. cbn [negb]. unfold slave_loop.
      apply Z.leb_gt in Hlen. rewrite Hlen.
      apply Z.ltb_lt in Hold, Hp. rewrite Hold, Hp. reflexivity. }
    rewrite run_cons, E. cbn [fst snd]. rewrite (IH Hrest). reflexivity.
Qed.

Lemma timeout_logged_at_every_call_witness :
  running (set_packet_stats (start (create false)) 3 1000) = true /\
  0 < packet_count (set_packet_stats (start (create false)) 3 1000) /\
  snd (run (set_packet_stats (start (create false)) 3 1000)
         [(7000, Loop (mk_input [] 0 7000 7000 []));
          (7016, Loop (mk_input [] 0 7016 7016 []))])
  = [(7000, TIMEOUT_WARNING); (7016, TIMEOUT_WARNING)].
Proof.
  split; [reflexivity|]. split; [reflexivity|].
  rewrite (timeout_logged_at_every_call
             (set_packet_stats (start (create false)) 3 1000)
             [(7000, Loop (mk_input [] 0 7000 7000 []));
              (7016, Loop (mk_input [] 0 7016 7016 []))]
             eq_refl eq_refl eq_refl).
  - reflexivity.
  - repeat first [apply Forall_nil | apply Forall_cons];
      unfold stale; cbn; split; vm_compute; reflexivity.
Defined.


(** X8. A datagram of 24 bytes or more with a wrong header is not ignored
    by the rate limiter: when 50 ms have passed since the last update,
    [slave_loop] logs the header, then still issues a colour command and
    publishes the sensors, both computed from the levels it already had. *)
Theorem bad_header_still_sends (s : t) (i : input) :
  UDP_PACKET_SIZE <= Z.of_nat (List.length (datagram i)) ->
  nth 0 (datagram i) 0 <> 65 \/ nth 1 (datagram i) 0 <> 83 ->
  50 <= sub32 (now i) (last_update s) ->
  exists rest,
    slave_loop s i =
      (set_last_update s (now i),
       LogW "Invalid packet header"
         :: send_color_command s ++ update_sensors s ++ rest) /\
    (rest = [] \/ rest = [TIMEOUT_WARNING]).
Proof.
  intros Hlen Hbad Hgo. unfold slave_loop.
  apply Z.leb_le in Hlen. rewrite Hlen.
  unfold receive_audio_data.
  cbn [AudioSyncPacket.of_bytes AudioSyncPacket.header fst snd].
  assert (E : negb (nth 0 (datagram i) 0 =? 65) || negb (nth 1 (datagram i) 0 =? 83)
              = true).
  { apply orb_true_iff. destruct Hbad as [H|H]; [left|right];
      apply negb_true_iff, Z.eqb_neq; exact H. }
  rewrite E. apply Z.leb_le in Hgo. rewrite Hgo.
  match goal with |- context [if ?b then _ else _] => destruct b end.
  - exists [TIMEOUT_WARNING]. split; [|right; reflexivity].
    cbn [app]. rewrite <- app_assoc. reflexivity.
  - exists []. split; [|left; reflexivity].
    cbn [app]. rewrite app_nil_r. reflexivity.
Qed.

Lemma bad_header_still_sends_witness :
  UDP_PACKET_SIZE <= Z.of_nat (List.length (repeat 0 24)) /\
  50 <= sub32 60 (last_update (set_controller (create false))) /\
  exists rest,
    slave_loop (set_controller (create false)) (mk_input (repeat 0 24) 60 60 60 [])
    = (set_last_update (set_controller (create false)) 60,
       LogW "Invalid packet header"
         :: send_color_command (set_controller (create false))
         ++ update_sensors (set_controller (create false)) ++ rest) /\
    (rest = [] \/ rest = [TIMEOUT_WARNING]).
Proof.
  assert (H1 : UDP_PACKET_SIZE <= Z.of_nat (List.length (repeat 0 24)))
    by (vm_compute; discriminate).
  assert (H2 : 50 <= sub32 60 (last_update (set_controller (create false))))
    by (vm_compute; discriminate).
  refine (conj H1 (conj H2 _)).
  apply (bad_header_still_sends (set_controller (create false))
           (mk_input (repeat 0 24) 60 60 60 []) H1); [|exact H2].
  left. cbn. discriminate.
Defined.


(** The levels computed by the analysis of a finite spectrum. *)
Lemma analyze_levels_in_unit s spectrum :
  bounded_spectrum spectrum -> is_finite (sensitivity s) = true ->
  levels_in_unit (analyze_frequencies s spectrum).
Proof.
  intros Hsp Hs.
  pose proof (bounded_spectrum_nth spectrum Hsp) as Hv.
  assert (Hb : mag_le (32 + Z.of_nat 6) (band_average spectrum 1 6 6))
    by (apply band_average_mag_le; try lia; exact Hv).
  assert (Hm : mag_le (32 + Z.of_nat 18) (band_average spectrum 6 18 18))
    by (apply band_average_mag_le; try lia; exact Hv).
  assert (Ht : mag_le (32 + Z.of_nat 71) (band_average spectrum 23 71 71))
    by (apply band_average_mag_le; try lia; exact Hv).
  assert (Hvol : mag_le 104
            (to_float (ddiv (to_double
               (fadd (fadd (band_average spectrum 1 6 6) (band_average spectrum 6 18 18))
                     (band_average spectrum 23 71 71))) (double_of_Z 3)))).
  { destruct (double_of_Z_pos 3) as (p & Hp & ->); [lia|].
    apply round_to_mag_le; try lia; [|unfold SpecFloat.emin; lia].
    apply (SFdiv_mag_le 53 1024); try lia.
    - apply round_to_mag_le; try lia; [|unfold SpecFloat.emin; lia].
      apply (SFadd_mag_le 24 128) with (Jx := 51) (Jy := 103); try lia.
      + apply (SFadd_mag_le 24 128) with (Jx := 38) (Jy := 50); try lia;
          [exact Hb|exact Hm|unfold SpecFloat.emin; lia].
      + exact Ht.
      + unfold SpecFloat.emin; lia.
    - vm_compute. discriminate.
    - rewrite Hp. vm_compute. discriminate.
    - unfold SpecFloat.emin; lia. }
  unfold levels_in_unit, analyze_frequencies.
  cbn [set_levels set_vReal bass_level mid_level treble_level volume sensitivity].
  repeat split; apply clamp_level_in_unit;
    eapply scaled_level_not_nan; eassumption.
Qed.

Lemma datagram_byte buf k :
  Forall (fun b => 0 <= b <= 255) buf -> 0 <= nth k buf 0 <= 255.
Proof.
  intros H. destruct (nth_in_or_default k buf 0) as [Hin| ->]; [|lia].
  rewrite Forall_forall in H. exact (H _ Hin).
Qed.

Lemma receive_levels_in_unit s buf now :
  Forall (fun b => 0 <= b <= 255) buf -> levels_in_unit s ->
  levels_in_unit (fst (receive_audio_data s buf now)) /\
  sensitivity (fst (receive_audio_data s buf now)) = sensitivity s.
Proof.
  intros Hb Hs. unfold receive_audio_data.
  match goal with |- context [if ?b then _ else _] => destruct b end;
    cbn [fst]; [auto|].
  split; [|reflexivity]. unfold levels_in_unit.
  cbn [set_packet_stats set_levels volume bass_level mid_level treble_level
       AudioSyncPacket.of_bytes AudioSyncPacket.volume AudioSyncPacket.bass
       AudioSyncPacket.mid AudioSyncPacket.treble].
  repeat split; apply level_of_byte_bounds, datagram_byte; exact Hb.
Qed.

Lemma step_levels_in_unit s c :
  levels_in_unit s -> is_finite (sensitivity s) = true -> well_formed c ->
  levels_in_unit (fst (step s (snd c))) /\
  is_finite (sensitivity (fst (step s (snd c)))) = true.
Proof.
  intros Hs Hf Hc. unfold well_formed in Hc.
  destruct (snd c) as [| | | | | |i]; cbn [step fst]; try (split; assumption).
  destruct Hc as [Hsp Hb]. unfold loop.
  destruct (running s); cbn [negb fst]; [|auto].
  destruct (is_master s).
  - unfold master_loop.
    match goal with |- context [if ?b then _ else _] => destruct b end;
      cbn [fst]; [auto|].
    split; [apply analyze_levels_in_unit; assumption|exact Hf].
  - unfold slave_loop.
    destruct (receive_levels_in_unit s (datagram i) (rx_time i) Hb Hs) as [H1 H2].
    destruct (receive_audio_data s (datagram i) (rx_time i)) as [s1 ev1].
    cbn [fst] in H1, H2.
    repeat match goal with |- context [if ?b then _ else _] => destruct b end;
      cbn [fst]; (split; [exact H1 + exact Hs|]);
      cbn [set_last_update sensitivity]; rewrite ?H2; exact Hf.
Qed.

(** X9. The four levels stay numbers in [0, 1] for the whole life of the
    component, in either role: each call of [loop] that analyses a finite
    spectrum or decodes a datagram of bytes leaves them in range, and no
    other method touches them. *)
Theorem levels_stay_in_unit (s : t) (calls : list (Z * call)) :
  levels_in_unit s -> is_finite (sensitivity s) = true ->
  Forall well_formed calls ->
  levels_in_unit (fst (run s calls)).
Proof.
  revert s. induction calls as [|[time c] rest IH]; intros s Hs Hf Hall.
  - exact Hs.
  - rewrite run_cons. cbn [fst].
    inversion Hall as [|? ? Hc Hrest]; subst.
    destruct (step_levels_in_unit s (time, c) Hs Hf Hc) as [H1 H2].
    apply IH; assumption.
Qed.

Lemma levels_stay_in_unit_witness :
  levels_in_unit (create true) /\
  levels_in_unit
    (fst (run (create true)
            [(0, Start);
             (100, Loop (mk_input [] 0 100 100 (repeat (double_lit 3 4) 256)));
             (120, SetSensitivity (float_lit 2 1));
             (200, Loop (mk_input [] 0 200 200 (repeat (double_lit 3 4) 256)))])).
Proof.
  assert (H0 : levels_in_unit (create true))
    by (repeat split; vm_compute; reflexivity || discriminate).
  assert (Hsp : bounded_spectrum (repeat (double_lit 3 4) 256)).
  { apply Forall_forall. intros x Hx. apply repeat_spec in Hx. subst x.
    split; [reflexivity|]. vm_compute. discriminate. }
  split; [exact H0|].
  apply (levels_stay_in_unit (create true)); [exact H0|reflexivity|].
  repeat first [apply Forall_nil | apply Forall_cons];
    unfold well_formed; cbn [snd];
    first [exact I | reflexivity | split; [exact Hsp|constructor]].
Defined.


End UdpSessionFacts.

(** ** Hue and saturation *)

Section ColorSpaceFacts.
Import Word Ieee Audio.

(** Multiplying one of the format's numbers by [1.0f] gives it back. *)
Lemma fmul_one v : is_float v = true -> is_nan v = false -> fmul v (float_lit 1 1) = v.
Proof.
  intros Hv _. change (float_lit 1 1) with (S754_finite false 8388608 (-23)).
  destruct v as [s|s| |s m e]; try discriminate.
  - cbn. rewrite xorb_false_r. reflexivity.
  - unfold is_float in Hv. cbn [is_finite andb] in Hv.
    destruct (valid_float_bounds s m e Hv) as [Hd He].
    cbn [valid_binary] in Hv. unfold bounded, canonical_mantissa in Hv.
    apply andb_true_iff in Hv. destruct Hv as [Hc Hb].
    apply Z.eqb_eq in Hc. apply Z.leb_le in Hb.
    change (Z.pos (digits2_pos m)) with (Zdigits2 (Zpos m)) in Hc.
    assert (HP : Zpos (m * 8388608) = Zpos m * 2 ^ 23) by (rewrite Pos2Z.inj_mul; reflexivity).
    assert (HdP : Zdigits2 (Zpos (m * 8388608)) = Zdigits2 (Zpos m) + 23).
    { rewrite HP. apply Zdigits2_mul_pow2; lia. }
    unfold fmul.
    destruct (SFmul_exact 24 128 s m e false 8388608 (-23))
      as (p & Hp & Hr).
    + rewrite HdP. replace (Zdigits2 (Zpos m) + 23 + (e + -23)) with (Zdigits2 (Zpos m) + e) by lia.
      rewrite Hc. lia.
    + rewrite HdP. replace (Zdigits2 (Zpos m) + 23 + (e + -23)) with (Zdigits2 (Zpos m) + e) by lia.
      rewrite Hc. replace (e - (e + -23)) with 23 by lia.
      rewrite HP. exists (Zpos m). reflexivity.
    + rewrite HdP. replace (Zdigits2 (Zpos m) + 23 + (e + -23)) with (Zdigits2 (Zpos m) + e) by lia.
      rewrite Hc. lia.
    + rewrite HdP in Hp, Hr.
      replace (Zdigits2 (Zpos m) + 23 + (e + -23)) with (Zdigits2 (Zpos m) + e) in Hp, Hr by lia.
      rewrite Hc in Hp, Hr. replace (e - (e + -23)) with 23 in Hp by lia.
      rewrite HP, Z.div_mul in Hp by lia.
      rewrite Hr, xorb_false_r. f_equal. lia.
Qed.

Lemma eqb_refl_finite x : is_finite x = true -> eqb x x = true.
Proof.
  intros Hx. unfold eqb. rewrite (compare_finite x x Hx Hx).
  assert (E : (to_Q x ?= to_Q x)%Q = Eq) by (apply Qeq_alt; reflexivity).
  rewrite E. reflexivity.
Qed.

(** [hsv_to_rgb] at hue 0 and full saturation: red alone, scaled by the
    value. *)
Lemma hsv_red v :
  in_unit v ->
  hsv_to_rgb (float_lit 0 1) (float_lit 1 1) v = (scale_to_byte v 255, 0, 0).
Proof.
  intros [Hf [H0 H1]]. unfold hsv_to_rgb.
  rewrite (fmul_one v Hf) by (destruct v; try discriminate; reflexivity).
  change (float_lit 0 1) with (S754_zero false).
  change (dsub (double_of_Z 1)
            (dabs (dsub (dfmod (dmul (to_double (S754_zero false)) (double_of_Z 6))
                               (double_of_Z 2))
                        (double_of_Z 1))))
    with (S754_zero false).
  change (lt (to_double (S754_zero false)) (double_lit 166 1000)) with true.
  cbv iota beta.
  destruct v as [s|s| |s m e]; try discriminate.
  - destruct s; vm_compute; reflexivity.
  - assert (Hs : s = false).
    { destruct s; [|reflexivity]. pose proof (to_Q_sign true m e) as Hneg.
      cbv beta iota in Hneg. lra. }
    subst s. unfold is_float in Hf. cbn [is_finite andb] in Hf.
    destruct (to_double_float false m e Hf) as (p & _ & Hd).
    assert (Hm : fsub (S754_finite false m e) (S754_finite false m e) = S754_zero false).
    { unfold fsub, SFsub. rewrite Z.sub_diag. reflexivity. }
    rewrite Hm, Hd. cbn [dmul SFmul xorb to_float round_to fadd SFadd fzero].
    reflexivity.
Qed.

(** X10. Rainbow Cycle with the bass on top: when the bass level is in
    [0, 1] and neither the mid nor the treble level is greater (ties
    included), the colour is pure red, with the integer part of
    [255 * bass] as its brightness. *)
Theorem rainbow_bass_is_red (bass mid treble : spec_float) :
  in_unit bass -> lt bass mid = false -> lt bass treble = false ->
  rainbow bass mid treble = (Qfloor (255 * to_Q bass), 0, 0).
Proof.
  intros Hb Hm Ht. unfold rainbow.
  assert (Hmax : fmax bass (fmax mid treble) = bass).
  { unfold fmax. destruct (lt mid treble); [rewrite Ht|rewrite Hm]; reflexivity. }
  rewrite Hmax.
  assert (Hfin : is_finite bass = true).
  { destruct Hb as [Hf _]. unfold is_float in Hf.
    apply andb_true_iff in Hf. exact (proj1 Hf). }
  rewrite (eqb_refl_finite bass Hfin).
  rewrite (hsv_red bass Hb).
  destruct (scale_to_byte_unit bass 255 Hb) as [E _]; [lia|].
  rewrite E. reflexivity.
Qed.

Lemma rainbow_bass_is_red_witness :
  in_unit (float_lit 7 10) /\
  lt (float_lit 7 10) (float_lit 7 10) = false /\
  lt (float_lit 7 10) (float_lit 3 10) = false /\
  rainbow (float_lit 7 10) (float_lit 7 10) (float_lit 3 10)
  = (Qfloor (255 * to_Q (float_lit 7 10)), 0, 0).
Proof.
  assert (H : in_unit (float_lit 7 10)) by in_unit_by_computation.
  refine (conj H (conj eq_refl (conj eq_refl _))).
  exact (rainbow_bass_is_red (float_lit 7 10) (float_lit 7 10) (float_lit 3 10)
           H eq_refl eq_refl).
Defined.

Lemma in_unit_cases v :
  in_unit v ->
  (exists s, v = S754_zero s) \/
  (exists m e, v = S754_finite false m e /\
               valid_binary 24 128 (S754_finite false m e) = true).
Proof.
  intros [Hf [H0 _]]. destruct v as [s|s| |s m e]; try discriminate.
  - left. exists s. reflexivity.
  - right. exists m, e.
    assert (Hs : s = false).
    { destruct s; [|reflexivity]. pose proof (to_Q_sign true m e) as Hneg.
      cbv beta iota in Hneg. lra. }
    subst s. split; [reflexivity|]. unfold is_float in Hf. exact Hf.
Qed.

(** [hsv_to_rgb] at the hues 0.33 and 0.66 with full saturation: green,
    or blue, carries the value; blue, or red, is off. *)
Lemma hsv_green v :
  in_unit v ->
  exists r, hsv_to_rgb (float_lit 33 100) (float_lit 1 1) v
            = (r, scale_to_byte v 255, 0).
Proof.
  intros Hv. unfold hsv_to_rgb.
  rewrite (fmul_one v (proj1 Hv))
    by (destruct Hv as [Hf _]; destruct v; try discriminate; reflexivity).
  change (lt (to_double (float_lit 33 100)) (double_lit 166 1000)) with false.
  change (lt (to_double (float_lit 33 100)) (double_lit 333 1000)) with true.
  cbv iota beta.
  destruct (in_unit_cases v Hv) as [(s & ->)|(m & e & -> & Hval)].
  - exists 0. destruct s; vm_compute; reflexivity.
  - assert (Hm : fsub (S754_finite false m e) (S754_finite false m e) = S754_zero false).
    { unfold fsub, SFsub. rewrite Z.sub_diag. reflexivity. }
    rewrite Hm. eexists. reflexivity.
Qed.

Lemma hsv_blue v :
  in_unit v ->
  exists g, hsv_to_rgb (float_lit 66 100) (float_lit 1 1) v
            = (0, g, scale_to_byte v 255).
Proof.
  intros Hv. unfold hsv_to_rgb.
  rewrite (fmul_one v (proj1 Hv))
    by (destruct Hv as [Hf _]; destruct v; try discriminate; reflexivity).
  change (lt (to_double (float_lit 66 100)) (double_lit 166 1000)) with false.
  change (lt (to_double (float_lit 66 100)) (double_lit 333 1000)) with false.
  change (lt (to_double (float_lit 66 100)) (double_lit 5 10)) with false.
  change (lt (to_double (float_lit 66 100)) (double_lit 666 1000)) with true.
  cbv iota beta.
  destruct (in_unit_cases v Hv) as [(s & ->)|(m & e & -> & Hval)].
  - exists 0. destruct s; vm_compute; reflexivity.
  - assert (Hm : fsub (S754_finite false m e) (S754_finite false m e) = S754_zero false).
    { unfold fsub, SFsub. rewrite Z.sub_diag. reflexivity. }
    rewrite Hm. eexists. reflexivity.
Qed.

Lemma in_unit_finite v : in_unit v -> is_finite v = true.
Proof.
  intros [Hf _]. unfold is_float in Hf. apply andb_true_iff in Hf. exact (proj1 Hf).
Qed.

Lemma lt_true_eqb x y :
  is_finite x = true -> is_finite y = true -> lt x y = true -> eqb y x = false.
Proof.
  intros Hx Hy. unfold lt, eqb.
  rewrite (compare_finite x y Hx Hy), (compare_finite y x Hy Hx).
  destruct (Qcompare (to_Q x) (to_Q y)) eqn:Hc; try discriminate. intros _.
  apply Qlt_alt in Hc.
  destruct (Qcompare (to_Q y) (to_Q x)) eqn:Hc'; try reflexivity.
  apply Qeq_alt in Hc'. lra.
Qed.

(** X19. Rainbow Cycle with the mid or the treble band strictly on top,
    for levels in [0, 1]: when the mid level exceeds the bass and the treble
    does not exceed the mid, green is the integer part of [255 * mid] and
    blue is off; when the treble exceeds both others, blue is the integer
    part of [255 * treble] and red is off. *)
Theorem rainbow_dominant_channel (bass mid treble : spec_float) :
  in_unit bass -> in_unit mid -> in_unit treble ->
  (lt bass mid = true -> lt mid treble = false ->
   exists r, rainbow bass mid treble = (r, Qfloor (255 * to_Q mid), 0)) /\
  (lt bass treble = true -> lt mid treble = true ->
   exists g, rainbow bass mid treble = (0, g, Qfloor (255 * to_Q treble))).
Proof.
  intros Hb Hm Ht.
  pose proof (in_unit_finite bass Hb) as Fb.
  pose proof (in_unit_finite mid Hm) as Fm.
  pose proof (in_unit_finite treble Ht) as Ft.
  split.
  - intros Hbm Hmt. unfold rainbow, fmax. rewrite Hmt, Hbm.
    rewrite (lt_true_eqb bass mid Fb Fm Hbm), (eqb_refl_finite mid Fm).
    destruct (hsv_green mid Hm) as (r & ->).
    destruct (scale_to_byte_unit mid 255 Hm) as [E _]; [lia|].
    rewrite E. exists r. reflexivity.
  - intros Hbt Hmt. unfold rainbow, fmax. rewrite Hmt, Hbt.
    rewrite (lt_true_eqb bass treble Fb Ft Hbt), (lt_true_eqb mid treble Fm Ft Hmt).
    destruct (hsv_blue treble Ht) as (g & ->).
    destruct (scale_to_byte_unit treble 255 Ht) as [E _]; [lia|].
    rewrite E. exists g. reflexivity.
Qed.

Lemma rainbow_dominant_channel_witness :
  in_unit (float_lit 2 10) /\ in_unit (float_lit 7 10) /\ in_unit (float_lit 3 10) /\
  lt (float_lit 2 10) (float_lit 7 10) = true /\
  lt (float_lit 7 10) (float_lit 3 10) = false /\
  exists r,
    rainbow (float_lit 2 10) (float_lit 7 10) (float_lit 3 10)
    = (r, Qfloor (255 * to_Q (float_lit 7 10)), 0).
Proof.
  assert (H1 : in_unit (float_lit 2 10)) by in_unit_by_computation.
  assert (H2 : in_unit (float_lit 7 10)) by in_unit_by_computation.
  assert (H3 : in_unit (float_lit 3 10)) by in_unit_by_computation.
  refine (conj H1 (conj H2 (conj H3 (conj eq_refl (conj eq_refl _))))).
  exact (proj1 (rainbow_dominant_channel (float_lit 2 10) (float_lit 7 10)
                  (float_lit 3 10) H1 H2 H3) eq_refl eq_refl).
Defined.

End ColorSpaceFacts.

(** ** Master and slave on the wire *)

Section WireFacts.
Import Word Ieee Audio MusicReactiveEffectUDP UdpSession.

Lemma to_uint8_byte x : 0 <= to_uint8 x <= 255.
Proof.
  unfold to_uint8, wrap8. destruct (trunc x); [|lia].
  pose proof (Z.mod_pos_bound z (2 ^ 8) ltac:(lia)). lia.
Qed.

(** X11. Whatever the state of the sender, even with levels out of range,
    the packet it broadcasts has 24 bytes, all of them in 0..255, and
    [receive_audio_data] accepts it and stores four levels in [0, 1]. *)
Theorem broadcast_always_decodes (s r : t) (now : Z) :
  let packet := AudioSyncPacket.to_bytes (audio_packet s) in
  List.length packet = 24%nat /\
  Forall (fun b => 0 <= b <= 255) packet /\
  snd (receive_audio_data r packet now) = [] /\
  levels_in_unit (fst (receive_audio_data r packet now)) /\
  packet_count (fst (receive_audio_data r packet now)) = add32 (packet_count r) 1.
Proof.
  intros packet. subst packet.
  assert (Hbytes : Forall (fun b => 0 <= b <= 255)
                     (AudioSyncPacket.to_bytes (audio_packet s))).
  { unfold AudioSyncPacket.to_bytes, audio_packet.
    cbn [AudioSyncPacket.header AudioSyncPacket.volume AudioSyncPacket.bass
         AudioSyncPacket.mid AudioSyncPacket.treble AudioSyncPacket.fft_bins fst snd].
    apply Forall_app. split.
    - repeat constructor; try lia; apply to_uint8_byte.
    - apply Forall_forall. intros b Hb.
      match type of Hb with In _ (firstn 18 ?l) =>
        assert (Hb' : In b l)
          by (rewrite <- (firstn_skipn 18 l); apply in_or_app; left; exact Hb)
      end.
      clear Hb. rename Hb' into Hb.
      apply in_app_or in Hb. destruct Hb as [Hb|Hb].
      + apply in_map_iff in Hb. destruct Hb as (i & <- & _). apply to_uint8_byte.
      + apply repeat_spec in Hb. lia. }
  destruct (audio_packet_bytes s) as (bins & E & Hlen).
  rewrite E in Hbytes |- *.
  rewrite receive_valid by reflexivity.
  cbn [fst snd List.length nth]. rewrite Hlen.
  split; [reflexivity|]. split; [exact Hbytes|]. split; [reflexivity|].
  split; [|reflexivity].
  unfold levels_in_unit.
  cbn [set_packet_stats set_levels volume bass_level mid_level treble_level].
  inversion Hbytes as [|? ? _ H1]; subst. inversion H1 as [|? ? _ H2]; subst.
  inversion H2 as [|? ? Hv H3]; subst. inversion H3 as [|? ? Hb H4]; subst.
  inversion H4 as [|? ? Hm H5]; subst. inversion H5 as [|? ? Ht _]; subst.
  repeat split; apply level_of_byte_bounds; assumption.
Qed.

(** The frame rate that [get_status] prints, for every age of the last
    packet from 1 to 1999 ms.  Checked for each of them. *)
Lemma frame_rate_table :
  forallb (fun d => match to_int (ddiv (double_of_Z 1000) (double_of_Z d)) with
                    | Some q => q =? 1000 / d
                    | None => false
                    end)
          (map Z.of_nat (seq 1 1999)) = true.
Proof. vm_compute. reflexivity. Qed.

(** X12. The status of a slave, with both clock readings the same: when
    the last packet is between 1 and 1999 ms old the text is
    "Receiving (n fps)" with [n] the integer quotient of 1000 by that age, so
    0 once the packet is older than a second; from 2000 ms on it is
    "No signal". *)
Theorem status_frame_rate (s : t) (now : Z) :
  is_master s = false ->
  let age := sub32 now (last_packet_time s) in
  (0 < age < 2000 -> get_status s now now = Receiving (Some (1000 / age))) /\
  (1000 < age < 2000 -> get_status s now now = Receiving (Some 0)) /\
  (2000 <= age -> get_status s now now = No_signal).
Proof.
  intros Hm age.
  assert (H1 : 0 < age < 2000 -> get_status s now now = Receiving (Some (1000 / age))).
  { intros Ha. unfold get_status, fps_quotient. rewrite Hm. fold age.
    assert (Hlt : (age <? 2000) = true) by (apply Z.ltb_lt; lia).
    rewrite Hlt. pose proof frame_rate_table as T.
    rewrite forallb_forall in T. specialize (T age).
    assert (Hin : In age (map Z.of_nat (seq 1 1999))).
    { replace age with (Z.of_nat (Z.to_nat age)) by lia. apply in_map, in_seq. lia. }
    specialize (T Hin).
    destruct (to_int (ddiv (double_of_Z 1000) (double_of_Z age))) as [q|];
      [|discriminate].
    apply Z.eqb_eq in T. rewrite T. reflexivity. }
  split; [exact H1|]. split.
  - intros Ha. rewrite H1 by lia. rewrite Z.div_small by lia. reflexivity.
  - intros Ha. unfold get_status. rewrite Hm. fold age.
    assert (Hlt : (age <? 2000) = false) by (apply Z.ltb_ge; lia).
    rewrite Hlt. reflexivity.
Qed.

Lemma status_frame_rate_witness :
  is_master (set_packet_stats (create false) 7 1000) = false /\
  get_status (set_packet_stats (create false) 7 1000) 1040 1040
  = Receiving (Some 25) /\
  get_status (set_packet_stats (create false) 7 1000) 2500 2500
  = Receiving (Some 0) /\
  get_status (set_packet_stats (create false) 7 1000) 3000 3000 = No_signal.
Proof.
  split; [reflexivity|].
  pose proof (status_frame_rate (set_packet_stats (create false) 7 1000) 1040 eq_refl) as H1.
  pose proof (status_frame_rate (set_packet_stats (create false) 7 1000) 2500 eq_refl) as H2.
  pose proof (status_frame_rate (set_packet_stats (create false) 7 1000) 3000 eq_refl) as H3.
  cbv zeta in H1, H2, H3.
  split; [apply (proj1 H1); vm_compute; split; reflexivity|].
  split; [apply (proj1 (proj2 H2)); vm_compute; split; reflexivity|].
  apply (proj2 (proj2 H3)). vm_compute. discriminate.
Defined.

Lemma to_double_finite v : is_float v = true -> is_finite (to_double v) = true.
Proof.
  intros Hv. unfold is_float in Hv. apply andb_true_iff in Hv. destruct Hv as [Hf Hv].
  destruct v as [s0|s0| |s0 m e]; try discriminate; [reflexivity|].
  destruct (to_double_float s0 m e Hv) as (p & _ & ->). reflexivity.
Qed.

(** [constrain(p, 0.0, 255.0)] converted to a byte: the conversion never
    wraps. *)
Lemma constrain_byte p :
  is_nan p = false ->
  to_uint8 (constrain p (double_of_Z 0) (double_of_Z 255)) =
    if lt p (double_of_Z 0) then 0
    else if gt p (double_of_Z 255) then 255
    else Qfloor (to_Q p).
Proof.
  intros Hn. unfold constrain.
  destruct (lt p (double_of_Z 0)) eqn:H0; [vm_compute; reflexivity|].
  destruct (gt p (double_of_Z 255)) eqn:H1; [vm_compute; reflexivity|].
  destruct p as [s0|s0| |s0 m e]; try discriminate.
  - reflexivity.
  - destruct s0; [vm_compute in H0|vm_compute in H1]; discriminate.
  - unfold gt in H1.
    apply lt_false in H0; [|reflexivity|reflexivity].
    apply lt_false in H1; [|reflexivity|reflexivity].
    change (to_Q (double_of_Z 0)) with 0%Q in H0.
    assert (E255 : (to_Q (double_of_Z 255) == 255)%Q) by (vm_compute; reflexivity).
    rewrite E255 in H1.
    assert (Hs : s0 = false).
    { destruct s0; [|reflexivity]. pose proof (to_Q_sign true m e) as Hneg.
      cbv beta iota in Hneg. lra. }
    subst s0. unfold to_uint8. rewrite trunc_floor.
    set (q := to_Q (S754_finite false m e)) in *.
    assert (Hlo : 0 <= Qfloor q).
    { change 0 with (Qfloor 0). apply Qfloor_resp_le. exact H0. }
    assert (Hhi : Qfloor q <= 255).
    { change 255 with (Qfloor 255). apply Qfloor_resp_le. exact H1. }
    unfold wrap8. apply Z.mod_small. lia.
Qed.

(** X13. The spectrum bytes of a packet saturate instead of wrapping: with
    a finite spectrum and sensitivity, bin [i] is 0 when the scaled magnitude
    is negative, 255 when it exceeds 255, and its integer part otherwise. *)
Theorem fft_bins_saturate (s : t) :
  is_float (sensitivity s) = true ->
  Forall (fun x => is_finite x = true) (vReal s) ->
  AudioSyncPacket.fft_bins (audio_packet s) =
    map (fun i =>
           let fft_idx := Z.to_nat (Z.quot (Z.quot (i * SAMPLES) 2) 18) in
           let p := dmul (dmul (nth fft_idx (vReal s) (S754_zero false))
                               (to_double (sensitivity s)))
                         (double_of_Z 255) in
           if lt p (double_of_Z 0) then 0
           else if gt p (double_of_Z 255) then 255
           else Qfloor (to_Q p))
        [0; 1; 2; 3; 4; 5; 6; 7; 8; 9; 10; 11; 12; 13; 14; 15; 16; 17].
Proof.
  intros Hs Hv. unfold audio_packet. cbn [AudioSyncPacket.fft_bins].
  apply map_ext. intros i. cbv zeta. apply constrain_byte.
  set (x := nth _ (vReal s) (S754_zero false)).
  assert (Hx : is_finite x = true).
  { subst x. match goal with |- context [nth ?k _ _] =>
      destruct (nth_in_or_default k (vReal s) (S754_zero false)) as [Hin|E] end.
    - rewrite Forall_forall in Hv. exact (Hv _ Hin).
    - rewrite E. reflexivity. }
  pose proof (SFmul_not_nan 53 1024 x (to_double (sensitivity s)) Hx
                (to_double_finite _ Hs)) as Hq.
  fold dmul in Hq.
  destruct (double_of_Z_pos 255) as (c & _ & ->); [lia|].
  destruct (dmul x (to_double (sensitivity s))) as [s0|s0| |s0 m e] eqn:E;
    try discriminate; try reflexivity.
  apply (SFmul_not_nan 53 1024); reflexivity.
Qed.

Lemma fft_bins_saturate_witness :
  is_float (float_lit 2 1) = true /\
  Forall (fun x => is_finite x = true) (repeat (double_lit 3 4) 8) /\
  AudioSyncPacket.fft_bins
    (audio_packet
       (set_vReal (set_sensitivity (create true) (float_lit 2 1))
                  (repeat (double_lit 3 4) 8)))
  = [255; 255; 0; 0; 0; 0; 0; 0; 0; 0; 0; 0; 0; 0; 0; 0; 0; 0].
Proof.
  assert (H1 : is_float (float_lit 2 1) = true) by (vm_compute; reflexivity).
  assert (H2 : Forall (fun x => is_finite x = true) (repeat (double_lit 3 4) 8))
    by (repeat constructor).
  refine (conj H1 (conj H2 _)).
  rewrite (fft_bins_saturate
             (set_vReal (set_sensitivity (create true) (float_lit 2 1))
                        (repeat (double_lit 3 4) 8)) H1 H2).
  vm_compute. reflexivity.
Defined.

(** A byte decoded to a level and scaled back is the same byte.  Checked
    for the 256 bytes. *)
Lemma byte_level_byte_table :
  forallb (fun b => scale_to_byte (level_of_byte b) 255 =? b)
          (map Z.of_nat (seq 0 256)) = true.
Proof. vm_compute. reflexivity. Qed.

Lemma byte_level_byte x k :
  scale_to_byte (level_of_byte (scale_to_byte x k)) 255 = scale_to_byte x k.
Proof.
  pose proof (to_uint8_byte (dmul (to_double x) (double_of_Z k))) as Hb.
  fold (scale_to_byte x k) in Hb.
  pose proof byte_level_byte_table as T. rewrite forallb_forall in T.
  apply Z.eqb_eq, T.
  replace (scale_to_byte x k) with (Z.of_nat (Z.to_nat (scale_to_byte x k))) by lia.
  apply in_map, in_seq. lia.
Qed.

(** X14. Lights behind a slave show the colour of the master: in the
    modes "RGB Frequency" and "Amplitude" the colour a slave computes from
    the levels it decoded is, byte for byte, the colour the master computed
    when it sent the packet, whatever the levels; and the slave would encode
    the same four level bytes again. *)
Theorem slave_shows_master_colour (s r : t) (now : Z) :
  color_mode s = "RGB Frequency"%string \/ color_mode s = "Amplitude"%string ->
  color_mode r = color_mode s ->
  let r1 := fst (receive_audio_data r (AudioSyncPacket.to_bytes (audio_packet s)) now) in
  color_rgb r1 = color_rgb s /\
  AudioSyncPacket.volume (audio_packet r1) = AudioSyncPacket.volume (audio_packet s) /\
  AudioSyncPacket.bass (audio_packet r1) = AudioSyncPacket.bass (audio_packet s) /\
  AudioSyncPacket.mid (audio_packet r1) = AudioSyncPacket.mid (audio_packet s) /\
  AudioSyncPacket.treble (audio_packet r1) = AudioSyncPacket.treble (audio_packet s).
Proof.
  intros Hmode Hr r1. subst r1.
  destruct (audio_packet_bytes s) as (bins & -> & _).
  rewrite receive_valid by reflexivity.
  unfold color_rgb, audio_packet.
  cbn [fst nth set_packet_stats set_levels color_mode volume bass_level mid_level
       treble_level AudioSyncPacket.volume AudioSyncPacket.bass AudioSyncPacket.mid
       AudioSyncPacket.treble].
  rewrite Hr, !byte_level_byte.
  split; [|auto].
  destruct Hmode as [-> | ->]; reflexivity.
Qed.

Lemma slave_shows_master_colour_witness :
  color_mode (set_levels (create true) (float_lit 1 2) (float_lit 9 10)
                (float_lit 1 10) (float_lit 1 3)) = "RGB Frequency"%string /\
  color_rgb
    (fst (receive_audio_data (create false)
            (AudioSyncPacket.to_bytes
               (audio_packet (set_levels (create true) (float_lit 1 2) (float_lit 9 10)
                                (float_lit 1 10) (float_lit 1 3))))
            40))
  = (229, 25, 85).
Proof.
  split; [reflexivity|].
  rewrite (proj1 (slave_shows_master_colour
             (set_levels (create true) (float_lit 1 2) (float_lit 9 10)
                (float_lit 1 10) (float_lit 1 3))
             (create false) 40 (or_introl eq_refl) eq_refl)).
  vm_compute. reflexivity.
Defined.

End WireFacts.

(** ** Pairing *)

Section PairingFacts.
Import Word Preferences BRMeshPairing.

Lemma add_light_known s mac dev id mkey now :
  In mac (map mac_address (paired_lights s)) ->
  add_light s mac dev id mkey now = s.
Proof.
  intros Hin. unfold add_light.
  assert (E : existsb (fun light => String.eqb (mac_address light) mac)
                (paired_lights s) = true).
  { apply existsb_exists. apply in_map_iff in Hin. destruct Hin as (l & Hl & Hin).
    exists l. split; [exact Hin|]. apply String.eqb_eq. exact Hl. }
  rewrite E. reflexivity.
Qed.

Lemma add_light_new s mac dev id mkey now :
  ~ In mac (map mac_address (paired_lights s)) ->
  paired_lights (add_light s mac dev id mkey now)
  = paired_lights s ++ [mk_light mac dev id mkey now (-999)].
Proof.
  intros Hnin. unfold add_light.
  assert (E : existsb (fun light => String.eqb (mac_address light) mac)
                (paired_lights s) = false).
  { apply not_true_is_false. intros H. apply existsb_exists in H.
    destruct H as (l & Hin & Hl). apply String.eqb_eq in Hl.
    apply Hnin. apply in_map_iff. exists l. auto. }
  rewrite E. reflexivity.
Qed.

Lemma step_macs_distinct s c :
  NoDup (map mac_address (paired_lights s)) ->
  NoDup (map mac_address (paired_lights (step s c))).
Proof.
  intros Hs. destruct c as [| |mac dev id mkey now|]; cbn [step]; try exact Hs.
  - destruct (in_dec string_dec mac (map mac_address (paired_lights s))) as [Hin|Hnin].
    + rewrite add_light_known by exact Hin. exact Hs.
    + rewrite add_light_new by exact Hnin. rewrite map_app. cbn [map mac_address].
      apply NoDup_app; [exact Hs|repeat constructor; intros []|].
      intros x Hx [<-|[]]. exact (Hnin Hx).
  - constructor.
Qed.

(** X15. No MAC address is ever paired twice: over any sequence of calls
    the addresses in [paired_lights] stay pairwise distinct, and [add_light]
    with an address that is already there changes neither the list nor the
    flash. *)
Theorem paired_macs_stay_distinct (s : t) (calls : list call) :
  NoDup (map mac_address (paired_lights s)) ->
  NoDup (map mac_address (paired_lights (run s calls))) /\
  (forall mac dev id mkey now,
     In mac (map mac_address (paired_lights (run s calls))) ->
     add_light (run s calls) mac dev id mkey now = run s calls).
Proof.
  intros Hs. split.
  - revert s Hs. unfold run. induction calls as [|c rest IH]; intros s Hs; [exact Hs|].
    cbn [fold_left]. apply IH. apply step_macs_distinct. exact Hs.
  - intros mac dev id mkey now Hin. apply add_light_known. exact Hin.
Qed.

Lemma paired_macs_stay_distinct_witness :
  NoDup (map mac_address (paired_lights (create (fun _ => None)))) /\
  map mac_address
    (paired_lights
       (run (create (fun _ => None))
          [AddLight "aa:01" "d1" 1 "0236" 10; StartPairing;
           AddLight "aa:01" "d9" 2 "0236" 20; AddLight "aa:02" "d2" 2 "0236" 30]))
  = ["aa:01"; "aa:02"]%string /\
  NoDup
    (map mac_address
       (paired_lights
          (run (create (fun _ => None))
             [AddLight "aa:01" "d1" 1 "0236" 10; StartPairing;
              AddLight "aa:01" "d9" 2 "0236" 20; AddLight "aa:02" "d2" 2 "0236" 30]))).
Proof.
  assert (H : NoDup (map mac_address (paired_lights (create (fun _ => None)))))
    by constructor.
  refine (conj H (conj eq_refl _)).
  exact (proj1 (paired_macs_stay_distinct (create (fun _ => None))
           [AddLight "aa:01" "d1" 1 "0236" 10; StartPairing;
            AddLight "aa:01" "d9" 2 "0236" 20; AddLight "aa:02" "d2" 2 "0236" 30]
           H)).
Defined.


Lemma max_id_bounds lights : forall acc,
  let m := fold_left (fun max_id light =>
                        if max_id <? light_id light then light_id light else max_id)
                     lights acc in
  acc <= m /\ Forall (fun l => light_id l <= m) lights /\
  (m = acc \/ In m (map light_id lights)).
Proof.
  induction lights as [|l rest IH]; intros acc; cbn [fold_left map].
  - cbv zeta. repeat split; [lia|constructor|left; reflexivity].
  - specialize (IH (if acc <? light_id l then light_id l else acc)).
    cbv zeta in *. destruct IH as (H1 & H2 & H3).
    destruct (acc <? light_id l) eqn:Hlt;
      [apply Z.ltb_lt in Hlt|apply Z.ltb_ge in Hlt].
    + split; [lia|]. split; [constructor; [lia|exact H2]|].
      right. destruct H3 as [->|H3]; [left; reflexivity|right; exact H3].
    + split; [lia|]. split; [constructor; [lia|exact H2]|].
      destruct H3 as [H3|H3]; [left; exact H3|right; right; exact H3].
Qed.

(** X16. [get_next_light_id] with identifiers that are [uint16_t] values:
    it is 1 when no light is paired; as long as no light has the identifier
    65535 it is greater than every paired identifier, so unused; and once a
    light has 65535 it wraps to 0. *)
Theorem next_light_id_is_fresh (s : t) :
  Forall (fun l => 0 <= light_id l < 2 ^ 16) (paired_lights s) ->
  (paired_lights s = [] -> get_next_light_id s = 1) /\
  (Forall (fun l => light_id l <> 65535) (paired_lights s) ->
   Forall (fun l => light_id l < get_next_light_id s) (paired_lights s)) /\
  (In 65535 (map light_id (paired_lights s)) -> get_next_light_id s = 0).
Proof.
  intros Hr. unfold get_next_light_id.
  pose proof (max_id_bounds (paired_lights s) 0) as Hm. cbv zeta in Hm.
  set (m := fold_left _ (paired_lights s) 0) in *.
  destruct Hm as (H0 & Hle & Hin).
  assert (Hm16 : 0 <= m < 2 ^ 16).
  { destruct Hin as [->|Hin]; [lia|]. apply in_map_iff in Hin.
    destruct Hin as (l & <- & Hl). rewrite Forall_forall in Hr. exact (Hr l Hl). }
  split; [|split].
  - intros E. subst m. rewrite E. reflexivity.
  - intros Hne.
    assert (Hm' : m <> 65535).
    { destruct Hin as [->|Hin]; [lia|]. apply in_map_iff in Hin.
      destruct Hin as (l & <- & Hl). rewrite Forall_forall in Hne. exact (Hne l Hl). }
    rewrite Z.mod_small by lia.
    eapply Forall_impl; [|exact Hle]. cbn. intros; lia.
  - intros H. apply in_map_iff in H. destruct H as (l & Hl & Hinl).
    rewrite Forall_forall in Hle. specialize (Hle l Hinl). rewrite Hl in Hle.
    assert (E : m = 65535) by lia. rewrite E. reflexivity.
Qed.

Lemma next_light_id_is_fresh_witness :
  Forall (fun l => 0 <= light_id l < 2 ^ 16)
    (paired_lights
       (add_light (add_light (create (fun _ => None)) "aa:01" "d1" 7 "0236" 10)
                  "aa:02" "d2" 3 "0236" 20)) /\
  get_next_light_id
    (add_light (add_light (create (fun _ => None)) "aa:01" "d1" 7 "0236" 10)
               "aa:02" "d2" 3 "0236" 20) = 8 /\
  get_next_light_id
    (add_light (create (fun _ => None)) "aa:01" "d1" 65535 "0236" 10) = 0.
Proof.
  assert (H1 : Forall (fun l => 0 <= light_id l < 2 ^ 16)
    (paired_lights
       (add_light (add_light (create (fun _ => None)) "aa:01" "d1" 7 "0236" 10)
                  "aa:02" "d2" 3 "0236" 20))) by (repeat constructor; cbn; lia).
  assert (H2 : Forall (fun l => 0 <= light_id l < 2 ^ 16)
    (paired_lights
       (add_light (create (fun _ => None)) "aa:01" "d1" 65535 "0236" 10)))
    by (repeat constructor; cbn; lia).
  refine (conj H1 (conj eq_refl _)).
  apply (proj2 (proj2 (next_light_id_is_fresh _ H2))).
  left. reflexivity.
Defined.

(** The decimal text of an index determines it. *)
Lemma decimal_inj i j :
  NilEmpty.string_of_uint (Nat.to_uint i) = NilEmpty.string_of_uint (Nat.to_uint j) ->
  i = j.
Proof.
  intros E.
  assert (E' : Some (Nat.to_uint i) = Some (Nat.to_uint j))
    by (rewrite <- !NilEmpty.usu, E; reflexivity).
  injection E' as E'. rewrite <- (Unsigned.of_to i), <- (Unsigned.of_to j), E'.
  reflexivity.
Qed.

(** Two keys are the same only for the same field and the same index. *)
Lemma key_eqb f g i j :
  In f fields -> In g fields ->
  String.eqb (key f i) (key g j) = String.eqb f g && Nat.eqb i j.
Proof.
  assert (Hd : String.eqb (NilEmpty.string_of_uint (Nat.to_uint i))
                          (NilEmpty.string_of_uint (Nat.to_uint j)) = Nat.eqb i j).
  { destruct (Nat.eqb_spec i j) as [->|Hne]; [apply String.eqb_refl|].
    apply String.eqb_neq. intros E. apply Hne, decimal_inj, E. }
  unfold fields, key. cbn [In].
  intros [<-|[<-|[<-|[<-|[]]]]] [<-|[<-|[<-|[<-|[]]]]]; cbn; try reflexivity; exact Hd.
Qed.

Lemma count_key_eqb f i :
  In f fields -> String.eqb PREF_COUNT_KEY (key f i) = false.
Proof.
  unfold fields, key, PREF_COUNT_KEY. cbn [In].
  intros [<-|[<-|[<-|[<-|[]]]]]; cbn; reflexivity.
Qed.

(** Saving the lights from index [i] on leaves the other keys alone. *)
Lemma save_from_other lights : forall p i k,
  (forall f j, In f fields -> (i <= j)%nat -> String.eqb k (key f j) = false) ->
  save_from p i lights k = p k.
Proof.
  induction lights as [|l rest IH]; intros p i k Hk; [reflexivity|].
  cbn [save_from]. rewrite IH by (intros f j Hf Hj; apply Hk; [exact Hf|lia]).
  unfold save_light, putString, putUShort, put.
  rewrite !Hk by (unfold fields; cbn [In]; auto 6 || lia).
  reflexivity.
Qed.

(** What the flash holds for the light at index [i + j] after a save. *)
Lemma save_from_nth lights : forall p i j l,
  nth_error lights j = Some l ->
  load_light (save_from p i lights) (i + j)
  = mk_light (mac_address l) (device_id l) (light_id l mod 2 ^ 16) (mesh_key l)
             0 (-999).
Proof.
  induction lights as [|l0 rest IH]; intros p i j l Hj; [destruct j; discriminate|].
  destruct j as [|j]; cbn [nth_error] in Hj.
  - injection Hj as ->. rewrite Nat.add_0_r. cbn [save_from].
    unfold load_light, getString, getUShort.
    rewrite !save_from_other
      by (intros f j Hf Hj; rewrite key_eqb by (unfold fields; cbn [In]; auto 6);
          apply andb_false_iff; right; apply Nat.eqb_neq; lia).
    unfold save_light, putString, putUShort, put.
    rewrite !key_eqb by (unfold fields; cbn [In]; auto 6).
    rewrite Nat.eqb_refl. cbn. reflexivity.
  - cbn [save_from]. replace (i + S j)%nat with (S i + j)%nat by lia.
    apply IH. exact Hj.
Qed.

Lemma save_from_count lights p i :
  getUInt (save_from p i lights) PREF_COUNT_KEY 0 = getUInt p PREF_COUNT_KEY 0.
Proof.
  unfold getUInt. rewrite save_from_other; [reflexivity|].
  intros f j Hf _. apply count_key_eqb. exact Hf.
Qed.

Lemma map_load_saved p lights :
  Forall (fun l => 0 <= light_id l < 2 ^ 16) lights ->
  map (load_light (save_from p 0 lights)) (seq 0 (List.length lights))
  = map as_loaded lights.
Proof.
  intros Hr. apply nth_error_ext. intros n.
  rewrite !nth_error_map.
  destruct (nth_error lights n) as [l|] eqn:Hn.
  - assert (Hlt : (n < List.length lights)%nat)
      by (apply nth_error_Some; congruence).
    rewrite nth_error_seq. apply Nat.ltb_lt in Hlt. rewrite Hlt.
    cbn [option_map]. f_equal.
    rewrite (save_from_nth lights p 0 n l Hn).
    unfold as_loaded. f_equal. apply Z.mod_small.
    rewrite Forall_forall in Hr. apply Hr. eapply nth_error_In. exact Hn.
  - assert (Hge : (List.length lights <= n)%nat) by (apply nth_error_None; exact Hn).
    rewrite nth_error_seq. apply Nat.ltb_ge in Hge. rewrite Hge. reflexivity.
Qed.

(** X17. Pairing survives a restart: when the light identifiers are
    [uint16_t] values and the number of lights fits 32 bits, a component set
    up over the flash left by [save_paired_lights] holds the same lights in
    the same order, with the time of pairing reset to 0 and the signal
    strength to -999; so it does after [add_light] of a new address, with the
    new light last; and after [clear_all_lights] it holds none, whatever is
    left in flash. *)
Theorem restart_restores_lights (s : t) :
  Forall (fun l => 0 <= light_id l < 2 ^ 16) (paired_lights s) ->
  Z.of_nat (List.length (paired_lights s)) < 2 ^ 32 - 1 ->
  paired_lights (setup (create (prefs (save_paired_lights s))))
  = map as_loaded (paired_lights s) /\
  (forall mac dev id mkey now,
     0 <= id < 2 ^ 16 -> ~ In mac (map mac_address (paired_lights s)) ->
     paired_lights (setup (create (prefs (add_light s mac dev id mkey now))))
     = map as_loaded (paired_lights s) ++ [mk_light mac dev id mkey 0 (-999)]) /\
  paired_lights (setup (create (prefs (clear_all_lights s)))) = [].
Proof.
  intros Hr Hlen.
  assert (Hsave : forall s', Forall (fun l => 0 <= light_id l < 2 ^ 16) (paired_lights s') ->
            Z.of_nat (List.length (paired_lights s')) < 2 ^ 32 ->
            paired_lights (setup (create (prefs (save_paired_lights s'))))
            = map as_loaded (paired_lights s')).
  { intros s' Hr' Hlen'. unfold setup, load_paired_lights, create, save_paired_lights.
    cbn [prefs paired_lights pairing_enabled app].
    rewrite save_from_count. unfold getUInt, putUInt, put.
    rewrite String.eqb_refl. unfold wrap32. rewrite Z.mod_small by lia.
    rewrite Nat2Z.id. apply map_load_saved. exact Hr'. }
  split; [apply Hsave; [exact Hr|lia]|]. split.
  - intros mac dev id mkey now Hid Hnew. unfold add_light.
    assert (E : existsb (fun light => String.eqb (mac_address light) mac)
                  (paired_lights s) = false).
    { apply not_true_is_false. intros H. apply existsb_exists in H.
      destruct H as (l & Hin & Hl). apply String.eqb_eq in Hl.
      apply Hnew. apply in_map_iff. exists l. auto. }
    rewrite E, Hsave; cbn [paired_lights].
    + rewrite map_app. reflexivity.
    + apply Forall_app. split; [exact Hr|]. constructor; [exact Hid|constructor].
    + rewrite length_app. cbn [List.length]. lia.
  - unfold setup, load_paired_lights, create, clear_all_lights.
    cbn [prefs paired_lights pairing_enabled app].
    unfold getUInt, putUInt, put. rewrite String.eqb_refl. reflexivity.
Qed.

Lemma restart_restores_lights_witness :
  Forall (fun l => 0 <= light_id l < 2 ^ 16)
    (paired_lights (add_light (create (fun _ => None)) "aa:01" "d1" 7 "0236" 10)) /\
  Z.of_nat (List.length
    (paired_lights (add_light (create (fun _ => None)) "aa:01" "d1" 7 "0236" 10)))
  < 2 ^ 32 - 1 /\
  paired_lights
    (setup (create (prefs
       (add_light (add_light (create (fun _ => None)) "aa:01" "d1" 7 "0236" 10)
                  "aa:02" "d2" 3 "0236" 20))))
  = [mk_light "aa:01" "d1" 7 "0236" 0 (-999);
     mk_light "aa:02" "d2" 3 "0236" 0 (-999)].
Proof.
  assert (H1 : Forall (fun l => 0 <= light_id l < 2 ^ 16)
    (paired_lights (add_light (create (fun _ => None)) "aa:01" "d1" 7 "0236" 10)))
    by (repeat constructor; cbn; lia).
  assert (H2 : Z.of_nat (List.length
    (paired_lights (add_light (create (fun _ => None)) "aa:01" "d1" 7 "0236" 10)))
    < 2 ^ 32 - 1) by (cbn; lia).
  refine (conj H1 (conj H2 _)).
  apply (proj1 (proj2 (restart_restores_lights _ H1 H2))
           "aa:02"%string "d2"%string 3 "0236"%string 20); [lia|].
  cbn. intros [H|[]]. discriminate.
Defined.

End PairingFacts.

(** ** The effect of [fft_analyzer.h] *)

Section EffectSessionFacts.
Import Word Ieee Audio MusicReactiveEffect EffectSession.

Lemma effect_step s c :
  keeps_rate c ->
  update_rate (fst (step s c)) = update_rate s /\
  ((snd (step s c) = [] /\ last_update (fst (step s c)) = last_update s) \/
   (snd (step s c) <> [] /\
    to_uint32 (ddiv (double_of_Z 1000) (to_double (update_rate s)))
      <= sub32 (wrap32 (fst c)) (last_update s) /\
    last_update (fst (step s c)) = wrap32 (fst c))).
Proof.
  unfold keeps_rate, step. destruct (snd c) as [| | | | | |spectrum]; intros Hk;
    try contradiction; try (cbn; auto; fail).
  unfold loop. destruct (running s); cbn [negb]; [|cbn; auto].
  match goal with |- context [if ?b then _ else _] => destruct b eqn:Hlt end;
    [cbn; auto|].
  apply Z.ltb_ge in Hlt. cbn [fst snd]. split; [reflexivity|]. right.
  split; [discriminate|]. split; [exact Hlt|reflexivity].
Qed.

Lemma update_times_after calls : forall s t0 interval,
  to_uint32 (ddiv (double_of_Z 1000) (to_double (update_rate s))) = interval ->
  last_update s = wrap32 t0 ->
  StronglySorted Z.le (t0 :: map fst calls) ->
  Forall keeps_rate calls ->
  Forall (fun time => t0 + interval <= time) (update_times s calls) /\
  Sorted (fun a b => a + interval <= b) (update_times s calls).
Proof.
  induction calls as [|c rest IH]; intros s t0 interval Hi Hlu Hs Hk; [cbn; auto|].
  cbn [update_times].
  inversion Hk as [|? ? Hkc Hkr]; subst.
  inversion Hs as [|? ? Hs' Hall]; subst. cbn [map] in Hs', Hall.
  inversion Hall as [|? ? Hle Hall']; subst.
  inversion Hs' as [|? ? Hs'' Hall'']; subst.
  destruct (effect_step s c Hkc) as (Hr & [(Hev & Hl)|(Hev & Hgo & Hl)]).
  - rewrite Hev. cbn [app]. apply IH; try assumption;
      [rewrite Hr; reflexivity|rewrite Hl; exact Hlu|constructor; assumption].
  - rewrite Hlu in Hgo. apply sub32_lower in Hgo; [|exact Hle].
    destruct (IH (fst (step s c)) (fst c)
                (to_uint32 (ddiv (double_of_Z 1000) (to_double (update_rate s)))))
      as [Hafter Hsorted];
      [rewrite Hr; reflexivity|exact Hl|constructor; assumption|exact Hkr|].
    destruct (snd (step s c)) as [|e evs]; [contradiction|]. cbn [app].
    assert (Hi0 : 0 <= to_uint32 (ddiv (double_of_Z 1000) (to_double (update_rate s)))).
    { unfold to_uint32. destruct (trunc _); [apply wrap32_range|lia]. }
    split.
    + constructor; [lia|]. eapply Forall_impl; [|exact Hafter]. cbn. intros; lia.
    + constructor; [exact Hsorted|].
      destruct (update_times _ rest) as [|b tl]; constructor.
      inversion Hafter; subst. assumption.
Qed.

(** X18. The effect of [fft_analyzer.h] updates the colour no more often
    than its update rate allows: as long as [set_update_rate] is not called,
    two successive updates are at least [1000 / update_rate] milliseconds
    apart (100 ms at the initial 10 Hz), whatever other calls come in
    between. *)
Theorem effect_rate_limit (s : t) (calls : list (Z * call)) :
  StronglySorted Z.le (map fst calls) ->
  Forall keeps_rate calls ->
  Sorted (fun a b =>
            a + to_uint32 (ddiv (double_of_Z 1000) (to_double (update_rate s))) <= b)
         (update_times s calls) /\
  (update_rate s = float_lit 10 1 ->
   Sorted (fun a b => a + 100 <= b) (update_times s calls)).
Proof.
  intros Hs Hk.
  assert (H : Sorted (fun a b =>
            a + to_uint32 (ddiv (double_of_Z 1000) (to_double (update_rate s))) <= b)
         (update_times s calls)).
  { revert s Hs Hk. induction calls as [|c rest IH]; intros s Hs Hk; [constructor|].
    cbn [update_times].
    inversion Hk as [|? ? Hkc Hkr]; subst. cbn [map] in Hs.
    destruct (effect_step s c Hkc) as (Hr & [(Hev & Hl)|(Hev & Hgo & Hl)]).
    - rewrite Hev. cbn [app]. rewrite <- Hr. inversion Hs; subst. apply IH; assumption.
    - destruct (update_times_after rest (fst (step s c)) (fst c)
                  (to_uint32 (ddiv (double_of_Z 1000) (to_double (update_rate s)))))
        as [Hafter Hsorted]; [rewrite Hr; reflexivity|exact Hl|exact Hs|exact Hkr|].
      destruct (snd (step s c)) as [|e evs]; [contradiction|]. cbn [app].
      constructor; [exact Hsorted|].
      destruct (update_times _ rest) as [|b tl]; constructor.
      inversion Hafter; subst. assumption. }
  split; [exact H|]. intros Hrate. rewrite Hrate in H. exact H.
Qed.

Lemma effect_rate_limit_witness :
  update_times (start create)
    [(0, Loop []); (100, Loop []); (150, SetColorMode "Amplitude");
     (160, Loop []); (230, Loop [])]
  = [100; 230] /\
  Sorted (fun a b => a + 100 <= b)
    (update_times (start create)
       [(0, Loop []); (100, Loop []); (150, SetColorMode "Amplitude");
        (160, Loop []); (230, Loop [])]).
Proof.
  split; [vm_compute; reflexivity|].
  apply (proj2 (effect_rate_limit (start create)
                  [(0, Loop []); (100, Loop []); (150, SetColorMode "Amplitude");
                   (160, Loop []); (230, Loop [])]
                  ltac:(repeat first [apply SSorted_nil | apply SSorted_cons
                                     | apply Forall_nil | apply Forall_cons | cbn; lia])
                  ltac:(repeat first [apply Forall_nil | apply Forall_cons | exact I]))).
  reflexivity.
Defined.


End EffectSessionFacts.
